(** * rd: the Minikube lifecycle controller and the Kubernetes client

    A shallow embedding of
    - [src/k8s-engine/k8s.ts]       (the [State] enumeration),
    - [src/k8s-engine/minikube.js]  (class [Minikube], [customizeMinikubeMessage]),
    - the client module             (classes [ForwardingMap] and [KubeClient]),
    followed by the properties established about them.

    Conventions.  A JavaScript string is a [string]; every [ascii] stands for
    one UTF-16 code unit below 256.  A JavaScript number is a rational ([Q])
    where arithmetic is done on it, and an integer-or-NaN ([jsnum]) where it
    is a port.  Asynchronous code is cut at its suspension points: every
    synchronous segment is a function on the object's state, and the
    environment (process exits, listener events, prompts) chooses the
    argument of the next segment. *)

From Stdlib Require Import ZArith QArith Ascii String.
From stdpp Require Import gmap strings list.

Open Scope string_scope.
Open Scope list_scope.

(* ===================================================================== *)
(** ** JavaScript strings, numbers and the regular expressions in use     *)
(* ===================================================================== *)

Module JS.

Definition chr (n : nat) : string := String (ascii_of_nat n) EmptyString.

(** Line feed and the double quote, which have no literal form here. *)
Definition LF : string := chr 10.
Definition DQUOTE : string := chr 34.

Definition code (c : ascii) : nat := nat_of_ascii c.

(** [s.startsWith(p)], returning the rest of [s]. *)
Fixpoint strip_prefix (p s : string) : option string :=
  match p with
  | EmptyString => Some s
  | String a p' =>
      match s with
      | String b s' => if Ascii.eqb a b then strip_prefix p' s' else None
      | EmptyString => None
      end
  end.

(** [hay.includes(needle)]. *)
Fixpoint includes (needle hay : string) : bool :=
  match strip_prefix needle hay with
  | Some _ => true
  | None =>
      match hay with
      | String _ hay' => includes needle hay'
      | EmptyString => false
      end
  end.

(** The first [n] code units of [s]. *)
Fixpoint take (n : nat) (s : string) : string :=
  match n, s with
  | S n', String c s' => String c (take n' s')
  | _, _ => EmptyString
  end.

(** The part of [s] consumed when only [rest] is left of it. *)
Definition consumed (s rest : string) : string :=
  take (String.length s - String.length rest) s.

Fixpoint forallb_string (p : ascii -> bool) (s : string) : bool :=
  match s with
  | EmptyString => true
  | String c s' => p c && forallb_string p s'
  end.

Fixpoint existsb_string (p : ascii -> bool) (s : string) : bool :=
  match s with
  | EmptyString => false
  | String c s' => p c || existsb_string p s'
  end.

(** White space as [\s] and [parseInt] see it, among the code units below
    256: TAB, LF, VT, FF, CR, SP and NBSP. *)
Definition is_space (c : ascii) : bool :=
  let n := code c in
  (9 <=? n)%nat && (n <=? 13)%nat || (n =? 32)%nat || (n =? 160)%nat.

Definition is_digit (c : ascii) : bool :=
  let n := code c in (48 <=? n)%nat && (n <=? 57)%nat.

(** *** Exceptions *)

Inductive Exn :=
| TypeError              (** a property of [null] or [undefined] was read *)
| IOError                (** a file could not be read *)
| ListenError            (** the ['error'] event of a [net.Server] *)
| ServerClosed           (** [new Error('Server closed')] *).

(** A value, or an exception thrown instead (a rejected promise, for
    asynchronous code). *)
Inductive Completion (A : Type) :=
| Normal (a : A)
| Throw (e : Exn).
Arguments Normal {A} a.
Arguments Throw {A} e.

(** *** Numbers used as ports: an integer or NaN *)

(** A number is a double.  [Int z] stands for the double that holds the
    integer [z], which exists for every [z] below 2^53 in magnitude;
    what is said of larger ones is said of no number of the program. *)
Inductive jsnum :=
| NaN
| Int (z : Z).

(** The numbers that are NaN or hold an integer exactly,
    [Number.isSafeInteger] apart from the bound itself. *)
Definition safe (n : jsnum) : Prop :=
  match n with
  | NaN => True
  | Int z => (Z.abs z < 2 ^ 53)%Z
  end.

Definition digit_char (d : nat) : ascii := ascii_of_nat (48 + d).

Fixpoint pos_digits (fuel : nat) (n : N) (acc : string) : string :=
  match fuel with
  | O => acc
  | S fuel' =>
      let acc' := String (digit_char (N.to_nat (n mod 10))) acc in
      if (n <? 10)%N then acc' else pos_digits fuel' (n / 10)%N acc'
  end.

(** Decimal digits of a natural number. *)
Definition N_to_string (n : N) : string :=
  pos_digits (S (N.to_nat (N.log2 n))) n EmptyString.

(** [`${n}`] for NaN and for a [safe] integer: all its digits.  (From
    10^21 on a template literal writes an exponent instead; such numbers
    are not [safe].) *)
Definition num_to_string (n : jsnum) : string :=
  match n with
  | NaN => "NaN"
  | Int z =>
      if (z <? 0)%Z then "-" +:+ N_to_string (Z.abs_N z)
      else N_to_string (Z.abs_N z)
  end.

Fixpoint skip_spaces (s : string) : string :=
  match s with
  | String c s' => if is_space c then skip_spaces s' else s
  | EmptyString => s
  end.

Definition hex_value (c : ascii) : option Z :=
  let n := code c in
  if is_digit c then Some (Z.of_nat (n - 48))
  else if (97 <=? n)%nat && (n <=? 102)%nat then Some (Z.of_nat (n - 87))
  else if (65 <=? n)%nat && (n <=? 70)%nat then Some (Z.of_nat (n - 55))
  else None.

Definition dec_value (c : ascii) : option Z :=
  if is_digit c then Some (Z.of_nat (code c - 48)) else None.

(** The longest run of digits at the head of [s], read in base [radix];
    [None] when [s] starts with no digit. *)
Fixpoint read_digits (value : ascii -> option Z) (radix : Z)
    (acc : option Z) (s : string) : option Z :=
  match s with
  | String c s' =>
      match value c with
      | Some d =>
          read_digits value radix
            (Some (match acc with Some a => a * radix + d | None => d end)%Z) s'
      | None => acc
      end
  | EmptyString => acc
  end.

(** [parseInt(s)] with no radix: leading white space, a sign, [0x] or [0X]
    for base sixteen, then the digits; NaN when there are none.  The
    result is the integer the digits denote, which is what [parseInt]
    returns while that integer is [safe]; a larger one it rounds to a
    double. *)
Definition parseInt (s : string) : jsnum :=
  let s1 := skip_spaces s in
  let '(sign, s2) :=
    match s1 with
    | String "-" r => ((-1)%Z, r)
    | String "+" r => (1%Z, r)
    | _ => (1%Z, s1)
    end in
  let digits :=
    match s2 with
    | String "0" (String "x" r) | String "0" (String "X" r) =>
        read_digits hex_value 16 None r
    | _ => read_digits dec_value 10 None s2
    end in
  match digits with
  | Some v => Int (sign * v)
  | None => NaN
  end.

End JS.

(* ===================================================================== *)
(** ** Regular expressions (the fragment the two patterns need)           *)
(* ===================================================================== *)

Module Regex.
Import JS.

(** A character class. *)
Inductive cclass :=
| Any                 (** [.] under the [s] flag *)
| Space               (** [\s] *)
| Digit               (** [\d] *)
| Except (c : ascii)  (** [[^c]] *).

Definition mem (cl : cclass) (c : ascii) : bool :=
  match cl with
  | Any => true
  | Space => is_space c
  | Digit => is_digit c
  | Except x => negb (Ascii.eqb x c)
  end.

(** Quantifiers apply to a class; groups are capturing and are neither
    nested nor quantified, so they close in the order of their numbers. *)
Inductive regex :=
| Lit (s : string)
| Star (cl : cclass)      (** [cl*]  *)
| StarLazy (cl : cclass)  (** [cl*?] *)
| Plus (cl : cclass)      (** [cl+]  *)
| Group (r : regex)       (** [(r)]  *)
| Seq (r1 r2 : regex)
| Eos                     (** [$], no [m] flag *).

Section Backtracking.
Context {A : Type}.

(** Greedy: take as many as possible, give back one at a time. *)
Fixpoint star_greedy (cl : cclass) (s : string) (k : string -> option A) : option A :=
  match s with
  | String c t =>
      if mem cl c then
        match star_greedy cl t k with
        | Some r => Some r
        | None => k s
        end
      else k s
  | EmptyString => k s
  end.

(** Lazy: take as few as possible, one more on each failure. *)
Fixpoint star_lazy (cl : cclass) (s : string) (k : string -> option A) : option A :=
  match k s with
  | Some r => Some r
  | None =>
      match s with
      | String c t => if mem cl c then star_lazy cl t k else None
      | EmptyString => None
      end
  end.

(** [rmatch r s caps k]: match [r] at the head of [s], then continue with
    [k] on what is left and the captures so far; backtrack into [r] when
    [k] fails. *)
Fixpoint rmatch (r : regex) (s : string) (caps : list string)
    (k : string -> list string -> option A) : option A :=
  match r with
  | Lit l =>
      match strip_prefix l s with
      | Some t => k t caps
      | None => None
      end
  | Star cl => star_greedy cl s (fun t => k t caps)
  | StarLazy cl => star_lazy cl s (fun t => k t caps)
  | Plus cl =>
      match s with
      | String c t => if mem cl c then star_greedy cl t (fun t' => k t' caps) else None
      | EmptyString => None
      end
  | Group r' => rmatch r' s caps (fun t caps' => k t (caps' ++ [consumed s t]))
  | Seq r1 r2 => rmatch r1 s caps (fun t caps' => rmatch r2 t caps' k)
  | Eos =>
      match s with
      | EmptyString => k s caps
      | String _ _ => None
      end
  end.

End Backtracking.

(** The match array for a match starting at the head of [s]: the whole
    match, then the groups. *)
Definition match_here (r : regex) (s : string) : option (list string) :=
  rmatch r s [] (fun t caps => Some (consumed s t :: caps)).

(** [r.exec(s)] for a pattern with no anchor: the leftmost match. *)
Fixpoint exec (r : regex) (s : string) : option (list string) :=
  match match_here r s with
  | Some m => Some m
  | None =>
      match s with
      | String _ t => exec r t
      | EmptyString => None
      end
  end.

(** [r.exec(s)] for a pattern that starts with [^] and has no [m] flag: a
    match can only start at index 0. *)
Definition exec_anchored (r : regex) (s : string) : option (list string) :=
  match_here r s.

Fixpoint seq (rs : list regex) : regex :=
  match rs with
  | [] => Lit EmptyString
  | [r] => r
  | r :: rs' => Seq r (seq rs')
  end.

End Regex.

(* ===================================================================== *)
(** ** k8s.ts                                                             *)
(* ===================================================================== *)

Module K8s.

(** [enum State]; the numeric values are 0 to 4 in this order. *)
Inductive State :=
| STOPPED   (** The engine is not running. *)
| STARTING  (** The engine is attempting to start. *)
| STARTED   (** The engine is started; the dashboard is not yet ready. *)
| STOPPING  (** The engine is attempting to stop. *)
| ERROR     (** There is an error and we cannot recover automatically. *).

#[global] Instance State_eq_dec : EqDecision State.
Proof. solve_decision. Defined.

Definition State_value (s : State) : N :=
  match s with
  | STOPPED => 0 | STARTING => 1 | STARTED => 2 | STOPPING => 3 | ERROR => 4
  end.

End K8s.

(* ===================================================================== *)
(** ** minikube.js: the message reformatter                               *)
(* ===================================================================== *)

Module Message.
Import JS Regex.

(** The pattern [p] of [customizeMinikubeMessage], flag [s]. *)
Definition downgrade_pattern : regex :=
  seq [ Lit "X Exiting due to K8S_DOWNGRADE_UNSUPPORTED:"; Star Space;
        Group (Seq (Lit "Unable to safely downgrade ") (StarLazy Any));
        Plus Space; Lit "*"; Star Space; Lit "Suggestion:"; Plus Space;
        Lit "1)"; Star Space;
        Group (seq [Lit "Recreate the cluster with"; StarLazy Any; Lit " by running:"]);
        Plus Space;
        Group (Lit "minikube delete -p rancher-desktop");
        Plus Space;
        Group (Seq (Lit "minikube start -p rancher-desktop --kubernetes-version=")
                   (StarLazy Any));
        Lit LF ].

(** [quoteIfNecessary]: [/\s/.test(s) ? `"${ s }"` : s]. *)
Definition quoteIfNecessary (s : string) : string :=
  if existsb_string is_space s then DQUOTE +:+ s +:+ DQUOTE else s.

(** The template literal [fixedMessage]; [home] is [paths.data()]. *)
Definition fixedMessage (home m1 m2 m3 m4 : string) : string :=
  m1 +:+ LF +:+
  LF +:+
  "Suggested fix:" +:+ LF +:+
  LF +:+
  m2 +:+ LF +:+
  LF +:+
  "export MINIKUBE_HOME=" +:+ quoteIfNecessary home +:+ LF +:+
  LF +:+
  m3 +:+ LF +:+
  LF +:+
  m4 +:+ " --driver=hyperkit" +:+ LF.

(** [customizeMinikubeMessage(errorMessage)]. *)
Definition customizeMinikubeMessage (home errorMessage : string) : string :=
  match exec downgrade_pattern errorMessage with
  | Some m =>
      fixedMessage home (nth 1 m EmptyString) (nth 2 m EmptyString)
        (nth 3 m EmptyString) (nth 4 m EmptyString)
  | None => errorMessage
  end.

End Message.

(* ===================================================================== *)
(** ** minikube.js: class Minikube                                        *)
(* ===================================================================== *)

Module Config.

(** [Settings['kubernetes']], the fields the controller reads. *)
Record Settings := {
  version : string;
  memoryInGB : Q;
  numberCPUs : Q;
}.

End Config.

Module Minikube.
Import JS K8s.

Inductive OpType := OpStart | OpStop | OpDel | OpReset.

#[global] Instance OpType_eq_dec : EqDecision OpType.
Proof. solve_decision. Defined.

(** One argument of a spawned command; the three interpolated ones keep
    their value. *)
Inductive Arg :=
| Str (s : string)
| KubernetesVersion (v : string)  (** [`--kubernetes-version=${ v }`] *)
| MemoryG (n : Q)                 (** [`--memory=${ n }g`] *)
| Cpus (n : Q)                    (** [`--cpus=${ n }`] *).

(** Values a call is rejected with. *)
Inductive Failure :=
| JsError (message : string)
    (** [new Error(message)] *)
| Fail (context : string) (errorCode : option Z) (message : string)
    (** [{ context, errorCode, message }] *)
| Value (n : Z)
    (** [reject(1)] *)
| SudoFailure
    (** whatever [sudo-prompt] rejects with *)
| ResetFail (stderr : option string)
    (** [{ ...error, context: 'resetting minikube', message: error.stderr }] *).

Inductive Result :=
| Resolved (value : option Z)
| Rejected (f : Failure).

(** What the outside world sees, in program order. *)
Inductive Effect :=
| StateChanged (s : State)          (** [this.emit('state-changed', s)] *)
| ClientCreated (c : nat)           (** [new K8s.Client()] *)
| ClientDestroyed (c : nat)         (** [client.destroy()] *)
| Spawned (p : nat) (args : list Arg)  (** [spawn(resources.executable('minikube'), args, opts)] *)
| Killed (p : nat) (sig : string)   (** [child.kill(sig)] *)
| SudoPrompt                        (** [sudo(command, options)] in [startAgain] *)
| Returned (op : OpType) (r : Result)  (** the promise of a public call settles *).

(** The private fields of the class, the settings, an allocation counter
    for the objects created ([K8s.Client]s and child processes), and the
    effects so far (latest last). *)
Record Minikube := {
  internalState : State;
  client : option nat;
  current : option nat;
  currentType : option OpType;
  version : option string;
  cfg : Config.Settings;
  allocated : nat;
  effects : list Effect;
}.

Definition with_internalState (v : State) (m : Minikube) : Minikube :=
  {| internalState := v; client := client m; current := current m;
     currentType := currentType m; version := version m; cfg := cfg m;
     allocated := allocated m; effects := effects m |}.

Definition with_client (v : option nat) (m : Minikube) : Minikube :=
  {| internalState := internalState m; client := v; current := current m;
     currentType := currentType m; version := version m; cfg := cfg m;
     allocated := allocated m; effects := effects m |}.

Definition with_current (v : option nat) (m : Minikube) : Minikube :=
  {| internalState := internalState m; client := client m; current := v;
     currentType := currentType m; version := version m; cfg := cfg m;
     allocated := allocated m; effects := effects m |}.

Definition with_currentType (v : option OpType) (m : Minikube) : Minikube :=
  {| internalState := internalState m; client := client m; current := current m;
     currentType := v; version := version m; cfg := cfg m;
     allocated := allocated m; effects := effects m |}.

Definition with_version (v : option string) (m : Minikube) : Minikube :=
  {| internalState := internalState m; client := client m; current := current m;
     currentType := currentType m; version := v; cfg := cfg m;
     allocated := allocated m; effects := effects m |}.

Definition with_cfg (v : Config.Settings) (m : Minikube) : Minikube :=
  {| internalState := internalState m; client := client m; current := current m;
     currentType := currentType m; version := version m; cfg := v;
     allocated := allocated m; effects := effects m |}.

Definition with_allocated (v : nat) (m : Minikube) : Minikube :=
  {| internalState := internalState m; client := client m; current := current m;
     currentType := currentType m; version := version m; cfg := cfg m;
     allocated := v; effects := effects m |}.

Definition emit (e : Effect) (m : Minikube) : Minikube :=
  {| internalState := internalState m; client := client m; current := current m;
     currentType := currentType m; version := version m; cfg := cfg m;
     allocated := allocated m; effects := effects m ++ [e] |}.

(** [constructor(cfg)] and the field initialisers. *)
Definition new (cfg : Config.Settings) : Minikube :=
  {| internalState := STOPPED; client := None; current := None;
     currentType := None; version := None; cfg := cfg;
     allocated := 0; effects := [] |}.

(** [this.#client?.destroy()]. *)
Definition destroy_client (m : Minikube) : Minikube :=
  match client m with
  | Some c => emit (ClientDestroyed c) m
  | None => m
  end.

(** [set #state(value)]. *)
Definition set_state (value : State) (m : Minikube) : Minikube :=
  let m := emit (StateChanged value) (with_internalState value m) in
  match value with
  | STOPPING | STOPPED | ERROR => with_client None (destroy_client m)
  | STARTING | STARTED => m
  end.

(** [this.#client = new K8s.Client()]. *)
Definition new_client (m : Minikube) : Minikube :=
  let c := allocated m in
  with_client (Some c) (emit (ClientCreated c) (with_allocated (S c) m)).

(** [const bat = spawn(...); this.#current = bat]. *)
Definition spawn (args : list Arg) (m : Minikube) : Minikube :=
  let p := allocated m in
  with_current (Some p) (emit (Spawned p args) (with_allocated (S p) m)).

(** [clear()]. *)
Definition clear (m : Minikube) : Minikube :=
  with_currentType None (with_current None m).

Definition start_args (cfg : Config.Settings) : list Arg :=
  [Str "start"; Str "-b"; Str "k3s"; Str "-p"; Str "rancher-desktop";
   Str "--driver"; Str "hyperkit"; Str "--container-runtime"; Str "containerd";
   Str "--interactive=false"; KubernetesVersion (Config.version cfg)]
  ++ (if Qeq_bool (Config.memoryInGB cfg) 2 then [] else [MemoryG (Config.memoryInGB cfg)])
  ++ (if Qeq_bool (Config.numberCPUs cfg) 2 then [] else [Cpus (Config.numberCPUs cfg)]).

Definition unstopped_error (s : State) : Failure :=
  JsError ("Attempting to start unstopped Kubernetes cluster: " +:+ N_to_string (State_value s)).

(** [start(nested)] from the end of the polling loop to the end of the
    promise executor: the lock is taken, the executor runs in full, and
    the second component is the value [reject] was called with, if it was. *)
Definition start_begin (nested : bool) (m : Minikube) : Minikube * option Failure :=
  let m := with_currentType (Some OpStart) m in
  let rejected :=
    if negb nested && negb (bool_decide (internalState m = STOPPED))
    then Some (unstopped_error (internalState m)) else None in
  let m := set_state STARTING m in
  let m := with_version (Some (Config.version (cfg m))) m in
  let m := spawn (start_args (cfg m)) m in
  (m, rejected).

(** What an exit handler does with its promise. *)
Inductive Settle :=
| Escalate              (** it awaits [startAgain(this)] first *)
| Resolve
| Reject (f : Failure).

Section Host.

(** [paths.data()]. *)
Variable home : string.

(** The ['exit'] handler of [start], up to the [await] of the escalation
    or else to its end ([finally] included). *)
Definition start_on_exit (nested permsMsg : bool) (errorMessage : string)
    (code : option Z) (sig : option string) (m : Minikube) : Minikube * Settle :=
  if bool_decide (code = Some 80%Z) && permsMsg && negb nested then (m, Escalate)
  else if bool_decide (code = Some 0%Z) then (clear (set_state STARTED m), Resolve)
  else if bool_decide (sig = Some "SIGINT") then (clear (set_state STOPPED m), Resolve)
  else
    (clear (set_state ERROR m),
     Reject (Fail "starting minikube" code
               (Message.customizeMinikubeMessage home errorMessage))).

End Host.

(** [start]: the code after the awaited promise has resolved. *)
Definition start_continue (m : Minikube) : Minikube :=
  if bool_decide (internalState m = STOPPED) then m
  else new_client (set_state STARTED m).

(** [stop()] once the lock is free; [None] when it returns at once. *)
Definition stop_begin (m : Minikube) : option Minikube :=
  if bool_decide (internalState m = STOPPED) then None
  else
    let m := with_currentType (Some OpStop) m in
    let m := set_state STOPPING m in
    Some (spawn [Str "stop"; Str "-p"; Str "rancher-desktop"] m).

(** The ['exit'] handler of [stop]. *)
Definition stop_on_exit (errorMessage : string) (code : option Z) (m : Minikube)
    : Minikube * Result :=
  let m := clear m in
  if bool_decide (code = Some 0%Z) || bool_decide (code = None)
  then (set_state STOPPED m, Resolved (Some 0%Z))
  else (set_state ERROR m, Rejected (Fail "stopping minikube" code errorMessage)).

(** [del()] from the end of the polling loop to the end of the promise
    executor. *)
Definition del_begin (m : Minikube) : Minikube * option Failure :=
  let m := with_currentType (Some OpDel) m in
  let rejected :=
    if negb (bool_decide (internalState m = STOPPED)) then Some (Value 1) else None in
  let m := spawn [Str "delete"; Str "-p"; Str "rancher-desktop"] m in
  (m, rejected).

(** The ['exit'] handler of [del]. *)
Definition del_on_exit (errorMessage : string) (code : option Z) (m : Minikube)
    : Minikube * Result :=
  let m := clear m in
  if bool_decide (code = Some 0%Z) then (m, Resolved code)
  else (m, Rejected (Fail "deleting minikube" code errorMessage)).

Definition sudo : list Arg := [Str "ssh"; Str "--"; Str "sudo"].

(** The arguments [reset] gives to [exec], command by command; the
    source has four. *)
Definition reset_command (n : nat) : list Arg :=
  sudo ++
  match n with
  | 0 => [Str "systemctl"; Str "stop"; Str "kubelet.service"]
  | 1 => [Str "rm"; Str "-rf"; Str "/var/lib/k3s/server/db"]
  | 2 => [Str "systemctl"; Str "start"; Str "kubelet.service"]
  | _ => [Str "systemctl"; Str "is-active"; Str "--wait"; Str "kubelet.service"]
  end.

(** [exec(...args, { stdio: 'inherit' })], which is how [reset] calls
    [exec], to the end of the promise executor.  The options are taken off
    the arguments, the process is spawned and [#current] set.  The
    executor then subscribes to [child.stdout], which is [null] for a
    child that was not given a pipe: it throws a [TypeError] before any
    handler is in place, and the promise is rejected with it.  So the
    call can only reject, it does so without waiting for the process, and
    nothing listens to the exit of the process. *)
Definition exec_inherit (args : list Arg) (m : Minikube) : Minikube * Exn :=
  (spawn args m, TypeError).

(** [error.stderr]: an [Error] has no such property. *)
Definition error_stderr (error : Exn) : option string := None.

(** [reset()] once the lock is free, up to the first [await]: [None] when
    it returns at once, else the error the awaited [exec] has thrown.
    The three commands after the first, the test of the state and the
    new client are behind that [await] and are never reached. *)
Definition reset_begin (m : Minikube) : option (Minikube * Exn) :=
  if negb (bool_decide (internalState m = STARTED)) then None
  else
    let m := with_currentType (Some OpReset) m in
    let m := set_state STARTING m in
    let m := destroy_client m in
    Some (exec_inherit (reset_command 0) m).

(** [reset]: the [catch] block and [finally]; the value thrown is
    [{ ...error, context: 'resetting minikube', message: error.stderr }]. *)
Definition reset_fail (error : Exn) (m : Minikube) : Minikube * Failure :=
  (clear (set_state ERROR m), ResetFail (error_stderr error)).

(** [#onSettingsChanged(settings)]. *)
Definition onSettingsChanged (kubernetes : Config.Settings) (m : Minikube) : Minikube :=
  with_cfg kubernetes m.

(** *** The running configuration and the reasons to restart *)

(** [MinikubeConfiguration], the fields that are compared. *)
Record MinikubeConfiguration := {
  CPUs : Q;
  Memory : Q;
  Bootstrapper : string;
}.

(** What reading [config.json] gives. *)
Inductive ConfigFile :=
| ENOENT                                  (** the file does not exist *)
| Unreadable                              (** any other error, rethrown *)
| Parsed (config : MinikubeConfiguration) (** [JSON.parse(configBlob)] *).

(** [get #minikubeConfig()]; [K8s.State.READY] is not a member of the
    enumeration, so only [STARTED] passes the first test. *)
Definition minikubeConfig (m : Minikube) (file : ConfigFile)
    : Completion (option MinikubeConfiguration) :=
  if negb (bool_decide (internalState m = STARTED)) then Normal None
  else
    match file with
    | ENOENT => Normal None
    | Unreadable => Throw IOError
    | Parsed config => Normal (Some config)
    end.

(** A number of the configuration is a rational here, and [/] and [===]
    are exact.  They are those of the code where the quotient by 1024 is
    a double again, which it is for a whole number of megabytes below
    2^53, the way minikube writes [Memory]; it is not for a number so
    small that the quotient is rounded to zero. *)
Definition whole_number (q : Q) : Prop :=
  exists z : Z, (Z.abs z < 2 ^ 53)%Z /\ (q == inject_Z z)%Q.

(** The values compared: numbers and strings. *)
Inductive jsval :=
| VNum (n : Q)
| VStr (s : string).

(** [actual === desired]. *)
Definition strict_eq (a b : jsval) : bool :=
  match a, b with
  | VNum x, VNum y => Qeq_bool x y
  | VStr x, VStr y => bool_decide (x = y)
  | _, _ => false
  end.

(** The closure [cmp] of [requiresRestartReasons], on the object [results]. *)
Definition cmp (key : string) (actual desired : jsval)
    (results : gmap string (list jsval)) : gmap string (list jsval) :=
  <[key := if strict_eq actual desired then [] else [actual; desired]]> results.

(** [requiresRestartReasons()]. *)
Definition requiresRestartReasons (m : Minikube) (file : ConfigFile)
    : Completion (gmap string (list jsval)) :=
  match minikubeConfig m file with
  | Throw e => Throw e
  | Normal None => Normal ∅
  | Normal (Some config) =>
      let results := ∅ in
      let results := cmp "cpu" (VNum (CPUs config)) (VNum (Config.numberCPUs (cfg m))) results in
      let results :=
        cmp "memory" (VNum (Memory config / 1024)) (VNum (Config.memoryInGB (cfg m))) results in
      let results := cmp "bootstrapper" (VStr (Bootstrapper config)) (VStr "k3s") results in
      Normal results
  end.

End Minikube.

(* ===================================================================== *)
(** ** The controller on the event loop                                   *)
(* ===================================================================== *)

(** The asynchronous calls of a [Minikube] object, interleaved the way
    the event loop allows.  A macrotask (a public call that finds the lock
    free, a data or exit event of the child process, the end of the sudo
    prompt, a settings update) runs one synchronous segment; the promise
    reactions it leaves behind are [jobs] and run before the next
    macrotask, and so does the [catch] of [reset], which is the only
    thing that can follow its call.  A call that finds the lock taken is still polling and is
    not represented; subscribers of the events do not call back into the
    controller. *)

Module Controller.
Import JS K8s Minikube.

(** The operation whose child process, or prompt, is outstanding. *)
Inductive Task :=
| StartProcess (nested settled permsMsg : bool) (errorMessage : string)
    (** [minikube start] runs; [settled]: the promise of the outer call
        was rejected by its executor already *)
| StartSudo (settled : bool)
    (** the exit handler waits for the prompt of [startAgain] *)
| StopProcess (errorMessage : string)
| DelProcess (settled : bool) (errorMessage : string)
| ResetExec (n : nat)
    (** [exec] has thrown for the command [reset_command n], and [reset]
        is about to resume in its [catch] *).

(** Promise reactions waiting to run. *)
Inductive Job :=
| StartContinue (nested : bool)
    (** [start(nested)] resumes after its promise resolved *)
| StartAgainDone (failed : option Failure) (settled : bool)
    (** the exit handler resumes after [await startAgain(this).catch(reject)] *).

Record System := {
  mk : Minikube;
  task : option Task;
  jobs : list Job;
}.

Inductive Event :=
| CallStart
| CallStop
| CallDel
| CallReset
| SettingsUpdate (kubernetes : Config.Settings)
| StdoutData (data : string)
| StderrData (data : string)
| ProcessExit (code : option Z) (sig : option string)
| SudoDone (ok : bool)
| ExecDone (ok : bool) (stderr : option string)
    (** [reset] resumes from an awaited [exec]: resolved, or rejected
        with an error whose [stderr] is given; the [exec] of [reset] is
        only ever rejected, with an error that has none *)
| RunJob.

Definition init (cfg : Config.Settings) : System :=
  {| mk := Minikube.new cfg; task := None; jobs := [] |}.

(** Settle the promise of a public call, unless it is settled already. *)
Definition settle (settled : bool) (op : OpType) (r : Result) (m : Minikube) : Minikube :=
  if settled then m else emit (Returned op r) m.

Definition perms_marker : string :=
  "The 'hyperkit' driver requires elevated permissions.".

Section Host.
Variable home : string.

(** A macrotask; [None] when the event cannot happen in this state. *)
Definition macro (s : System) (e : Event) : option System :=
  let m := mk s in
  match e, task s with
  | CallStart, None =>
      match currentType m with
      | Some _ => None
      | None =>
          let '(m', rejected) := start_begin false m in
          match rejected with
          | Some f =>
              Some {| mk := emit (Returned OpStart (Rejected f)) m';
                      task := Some (StartProcess false true false EmptyString);
                      jobs := [] |}
          | None =>
              Some {| mk := m';
                      task := Some (StartProcess false false false EmptyString);
                      jobs := [] |}
          end
      end
  | CallStop, _ =>
      match currentType m with
      | Some OpStart =>
          match current m with
          | Some p => Some {| mk := emit (Killed p "SIGINT") m; task := task s; jobs := [] |}
          | None => None
          end
      | Some _ => None
      | None =>
          match task s with
          | Some _ => None
          | None =>
              match stop_begin m with
              | None =>
                  Some {| mk := emit (Returned OpStop (Resolved None)) m;
                          task := None; jobs := [] |}
              | Some m' =>
                  Some {| mk := m'; task := Some (StopProcess EmptyString); jobs := [] |}
              end
          end
      end
  | CallDel, None =>
      match currentType m with
      | Some _ => None
      | None =>
          let '(m', rejected) := del_begin m in
          match rejected with
          | Some f =>
              Some {| mk := emit (Returned OpDel (Rejected f)) m';
                      task := Some (DelProcess true EmptyString); jobs := [] |}
          | None =>
              Some {| mk := m'; task := Some (DelProcess false EmptyString); jobs := [] |}
          end
      end
  | CallReset, None =>
      match currentType m with
      | Some _ => None
      | None =>
          match reset_begin m with
          | None =>
              Some {| mk := emit (Returned OpReset (Resolved None)) m;
                      task := None; jobs := [] |}
          | Some (m', _) => Some {| mk := m'; task := Some (ResetExec 0); jobs := [] |}
          end
      end
  | SettingsUpdate kubernetes, t =>
      match t with
      | Some (ResetExec _) => None
      | _ => Some {| mk := onSettingsChanged kubernetes m; task := t; jobs := [] |}
      end
  | StdoutData data, Some (StartProcess nested settled permsMsg errorMessage) =>
      Some {| mk := m;
              task := Some (StartProcess nested settled
                              (includes perms_marker data || permsMsg) errorMessage);
              jobs := [] |}
  | StdoutData data, Some (StopProcess _ as t)
  | StdoutData data, Some (DelProcess _ _ as t) =>
      Some {| mk := m; task := Some t; jobs := [] |}
  | StderrData data, Some (StartProcess nested settled permsMsg errorMessage) =>
      Some {| mk := m;
              task := Some (StartProcess nested settled permsMsg (errorMessage +:+ data));
              jobs := [] |}
  | StderrData data, Some (StopProcess errorMessage) =>
      Some {| mk := m; task := Some (StopProcess (errorMessage +:+ data)); jobs := [] |}
  | StderrData data, Some (DelProcess settled errorMessage) =>
      Some {| mk := m; task := Some (DelProcess settled (errorMessage +:+ data)); jobs := [] |}
  | ProcessExit code sig, Some (StartProcess nested settled permsMsg errorMessage) =>
      let '(m', outcome) := start_on_exit home nested permsMsg errorMessage code sig m in
      match outcome with
      | Escalate =>
          Some {| mk := emit SudoPrompt m'; task := Some (StartSudo settled); jobs := [] |}
      | Resolve =>
          Some {| mk := m'; task := None;
                  jobs := if nested then [StartContinue true; StartAgainDone None settled]
                          else if settled then [] else [StartContinue false] |}
      | Reject f =>
          if nested
          then Some {| mk := m'; task := None; jobs := [StartAgainDone (Some f) settled] |}
          else Some {| mk := settle settled OpStart (Rejected f) m'; task := None; jobs := [] |}
      end
  | ProcessExit code sig, Some (StopProcess errorMessage) =>
      let '(m', r) := stop_on_exit errorMessage code m in
      Some {| mk := emit (Returned OpStop r) m'; task := None; jobs := [] |}
  | ProcessExit code sig, Some (DelProcess settled errorMessage) =>
      let '(m', r) := del_on_exit errorMessage code m in
      Some {| mk := settle settled OpDel r m'; task := None; jobs := [] |}
  | SudoDone true, Some (StartSudo settled) =>
      let '(m', _) := start_begin true m in
      Some {| mk := m'; task := Some (StartProcess true settled false EmptyString);
              jobs := [] |}
  | SudoDone false, Some (StartSudo settled) =>
      Some {| mk := m; task := None; jobs := [StartAgainDone (Some SudoFailure) settled] |}
  | ExecDone false None, Some (ResetExec n) =>
      (* the [exec] of [reset] can only reject, with a [TypeError]; the
         rejection is a promise reaction, so that no other event comes
         between the call of [reset] and this one *)
      let '(m', f) := reset_fail TypeError m in
      Some {| mk := emit (Returned OpReset (Rejected f)) m'; task := None; jobs := [] |}
  | _, _ => None
  end.

(** The first pending promise reaction. *)
Definition micro (j : Job) (rest : list Job) (s : System) : System :=
  let m := mk s in
  match j with
  | StartContinue nested =>
      let m' := start_continue m in
      {| mk := if nested then m' else emit (Returned OpStart (Resolved None)) m';
         task := task s; jobs := rest |}
  | StartAgainDone failed settled =>
      (* [.catch(reject)], then [resolve(); return], then [finally] *)
      match failed with
      | Some f =>
          {| mk := clear (settle settled OpStart (Rejected f) m); task := task s;
             jobs := rest |}
      | None =>
          {| mk := clear m; task := task s;
             jobs := if settled then rest else rest ++ [StartContinue false] |}
      end
  end.

Definition step (s : System) (e : Event) : option System :=
  match jobs s, e with
  | [], RunJob => None
  | [], _ => macro s e
  | j :: rest, RunJob => Some (micro j rest s)
  | _ :: _, _ => None
  end.

Fixpoint run (s : System) (es : list Event) : option System :=
  match es with
  | [] => Some s
  | e :: es' =>
      match step s e with
      | Some s' => run s' es'
      | None => None
      end
  end.

(** The states the controller can be in. *)
Definition reachable (cfg : Config.Settings) (s : System) : Prop :=
  exists es, run (init cfg) es = Some s.

End Host.

End Controller.

(* ===================================================================== *)
(** ** minikube.js: the getters and factoryReset                          *)
(* ===================================================================== *)

Module Getters.
Import JS K8s Minikube.

(** [x || 0] for a number [x]. *)
Definition or_zero (x : Q) : Q := if Qeq_bool x 0 then 0 else x.

(** [get cpus()]. *)
Definition cpus (m : Minikube) (file : ConfigFile) : Completion Q :=
  match minikubeConfig m file with
  | Throw e => Throw e
  | Normal None => Normal 0%Q
  | Normal (Some config) => Normal (or_zero (CPUs config))
  end.

(** [get memory()]. *)
Definition memory (m : Minikube) (file : ConfigFile) : Completion Q :=
  match minikubeConfig m file with
  | Throw e => Throw e
  | Normal None => Normal 0%Q
  | Normal (Some config) => Normal (or_zero (Memory config))
  end.

End Getters.

Module FactoryReset.
Import JS K8s Minikube.

(** How [factoryReset()] ends. *)
Inductive Outcome :=
| Removed
    (** [paths.data()] was removed, the call resolves *)
| Failed (f : Failure)
    (** the awaited [stop()] or [del()] was rejected with [f] *)
| RemoveFailed
    (** removing [paths.data()] failed *).

(** What the environment answers during the call: how [minikube stop] and
    [minikube delete] end, and whether the removal goes through. *)
Record Answers := {
  stop_code : option Z;
  stop_stderr : string;
  del_code : option Z;
  del_stderr : string;
  rm_ok : bool;
}.

(** [factoryReset()], called while the lock is free and with no other call
    made before it ends, so that neither [stop()] nor [del()] has to wait. *)
Definition factoryReset (env : Answers) (m : Minikube) : Minikube * Outcome :=
  let '(m, stopped) :=
    if negb (bool_decide (internalState m = STOPPED)) then
      match stop_begin m with
      | None => (m, Resolved None)
      | Some m' => stop_on_exit (stop_stderr env) (stop_code env) m'
      end
    else (m, Resolved None) in
  match stopped with
  | Rejected f => (m, Failed f)
  | Resolved _ =>
      let '(m, rejected) := del_begin m in
      match rejected with
      | Some f => (m, Failed f)
      | None =>
          match del_on_exit (del_stderr env) (del_code env) m with
          | (m, Rejected f) => (m, Failed f)
          | (m, Resolved _) => (m, if rm_ok env then Removed else RemoveFailed)
          end
      end
  end.

End FactoryReset.

(* ===================================================================== *)
(** ** The client module: ForwardingMap                                   *)
(* ===================================================================== *)

Module ForwardingMap.
Import JS Regex.

(** [Map<string, net.Server>]: the entries in insertion order, no key
    twice.  A [net.Server] is named by a handle. *)
Definition t := list (string * nat).

(** [`${ namespace || 'default' }/${ endpoint }:${ port }`]. *)
Definition key (namespace : option string) (endpoint : string) (port : jsnum) : string :=
  match namespace with
  | Some (String _ _ as n) => n
  | Some EmptyString | None => "default"
  end +:+ "/" +:+ endpoint +:+ ":" +:+ num_to_string port.

Fixpoint map_get (k : string) (m : t) : option nat :=
  match m with
  | [] => None
  | (k', v) :: m' => if bool_decide (k' = k) then Some v else map_get k m'
  end.

Definition map_has (k : string) (m : t) : bool :=
  match map_get k m with Some _ => true | None => false end.

(** [Map.prototype.set]: an existing key keeps its place. *)
Fixpoint map_set (k : string) (v : nat) (m : t) : t :=
  match m with
  | [] => [(k, v)]
  | (k', v') :: m' =>
      if bool_decide (k' = k) then (k, v) :: m' else (k', v') :: map_set k v m'
  end.

Fixpoint map_delete (k : string) (m : t) : t :=
  match m with
  | [] => []
  | (k', v') :: m' =>
      if bool_decide (k' = k) then m' else (k', v') :: map_delete k m'
  end.

Definition get (namespace : option string) (endpoint : string) (port : jsnum) (m : t)
    : option nat :=
  map_get (key namespace endpoint port) m.

Definition set (namespace : option string) (endpoint : string) (port : jsnum)
    (server : nat) (m : t) : t :=
  map_set (key namespace endpoint port) server m.

Definition delete (namespace : option string) (endpoint : string) (port : jsnum) (m : t)
    : t :=
  map_delete (key namespace endpoint port) m.

Definition has (namespace : option string) (endpoint : string) (port : jsnum) (m : t)
    : bool :=
  map_has (key namespace endpoint port) m.

(** The pattern of the iterator, anchored at both ends: a group of any
    number of characters other than a slash, a slash, a group of one or
    more characters other than a colon, a colon, a group of one or more
    digits. *)
Definition key_pattern : regex :=
  seq [ Group (Star (Except "/")); Lit "/"; Group (Plus (Except ":")); Lit ":";
        Group (Plus Digit); Eos ].

(** The body of the loop of [[Symbol.iterator]] for one entry of the
    underlying map: what it yields, if it yields.  The array pattern
    [[namespace, endpoint, port] = match] binds the elements 0, 1 and 2. *)
Definition yield (entry : string * nat) : option (string * string * jsnum * nat) :=
  let '(k, server) := entry in
  match exec_anchored key_pattern k with
  | Some match_ =>
      let namespace := nth 0 match_ EmptyString in
      let endpoint := nth 1 match_ EmptyString in
      let port := nth 2 match_ EmptyString in
      Some (namespace, endpoint, parseInt port, server)
  | None => None
  end.

(** [[Symbol.iterator]] run to its end on a map nobody changes meanwhile. *)
Definition iterate (m : t) : list (string * string * jsnum * nat) :=
  omap yield m.

End ForwardingMap.

(* ===================================================================== *)
(** ** The client module: KubeClient                                      *)
(* ===================================================================== *)

(** The parts of a [k8s.V1Service] that [listServices] reads. *)
Module V1.

Record ObjectMeta := {
  namespace : option string;
  name : option string;
}.

Record ServicePort := {
  port_name : option string;
  targetPort : JS.jsnum;
}.

Record ServiceSpec := {
  ports : option (list ServicePort);
}.

Record Service := {
  metadata : option ObjectMeta;
  spec : option ServiceSpec;
}.

End V1.

Module ServiceEntry.

Record t := {
  namespace : option string;
  name : string;
  portName : option string;
  port : JS.jsnum;
  listenPort : option Z;
}.

End ServiceEntry.

Module KubeClient.
Import JS.

(** A [net.Server]: created, bound to a local port, or closed. *)
Inductive Listener :=
| Unbound
| Listening (port : Z)
| Closed.

(** [server.address()]: [null] unless the server is listening. *)
Definition address (l : Listener) : option Z :=
  match l with
  | Listening port => Some port
  | Unbound | Closed => None
  end.

(** The fields of the class.  [listeners] holds every [net.Server] made by
    [net.createServer], a server being its index.  [services] and
    [indexed] are the cache of the [ListWatch]: the services it holds,
    and the namespaces it keeps an index for, which are the namespaces of
    these services and those of services it held before, as long as the
    index of such a one has not been dropped.  [subscribed] tells whether
    ['service-changed'] has a listener and [notified] what was delivered
    to it. *)
Record KubeClient := {
  shutdown : bool;
  servers : ForwardingMap.t;
  listeners : list Listener;
  services : list V1.Service;
  indexed : list string;
  subscribed : bool;
  notified : list (list ServiceEntry.t);
}.

Definition with_shutdown (v : bool) (c : KubeClient) : KubeClient :=
  {| shutdown := v; servers := servers c; listeners := listeners c;
     services := services c; indexed := indexed c; subscribed := subscribed c;
     notified := notified c |}.

Definition with_servers (v : ForwardingMap.t) (c : KubeClient) : KubeClient :=
  {| shutdown := shutdown c; servers := v; listeners := listeners c;
     services := services c; indexed := indexed c; subscribed := subscribed c;
     notified := notified c |}.

Definition with_listeners (v : list Listener) (c : KubeClient) : KubeClient :=
  {| shutdown := shutdown c; servers := servers c; listeners := v;
     services := services c; indexed := indexed c; subscribed := subscribed c;
     notified := notified c |}.

Definition with_subscribed (v : bool) (c : KubeClient) : KubeClient :=
  {| shutdown := shutdown c; servers := servers c; listeners := listeners c;
     services := services c; indexed := indexed c; subscribed := v;
     notified := notified c |}.

(** The namespaces the cache indexes the services [ss] under: a service
    is indexed if its namespace is not empty. *)
Definition namespaces (ss : list V1.Service) : list string :=
  omap (fun s => match V1.metadata s ≫= V1.namespace with
                 | Some (String _ _ as n) => Some n
                 | Some EmptyString | None => None
                 end) ss.

(** [constructor()], on a cache already filled with [services]. *)
Definition new (services : list V1.Service) : KubeClient :=
  {| shutdown := false; servers := []; listeners := []; services := services;
     indexed := namespaces services; subscribed := false; notified := [] |}.

(** [this.emit('service-changed', s)]. *)
Definition emit (s : list ServiceEntry.t) (c : KubeClient) : KubeClient :=
  {| shutdown := shutdown c; servers := servers c; listeners := listeners c;
     services := services c; indexed := indexed c; subscribed := subscribed c;
     notified := if subscribed c then notified c ++ [s] else notified c |}.

(** [server.close()]. *)
Definition close (server : nat) (c : KubeClient) : KubeClient :=
  with_listeners (<[server := Closed]> (listeners c)) c.

(** Whether [this.services.list(namespace)] is an array.  It is the
    array of all services when [namespace] is [undefined], [null] or
    empty, and what the index holds under [namespace] otherwise, which
    is [undefined] for a namespace that is not indexed. *)
Definition listed (namespace : option string) (c : KubeClient) : bool :=
  match namespace with
  | None | Some EmptyString => true
  | Some n => bool_decide (n ∈ indexed c)
  end.

(** That array: the whole cache, or the services of one namespace, which
    the index holds in the order the cache holds them. *)
Definition list_cache (namespace : option string) (c : KubeClient) : list V1.Service :=
  match namespace with
  | None | Some EmptyString => services c
  | Some n =>
      filter (fun s => (V1.metadata s ≫= V1.namespace) = Some n) (services c)
  end.

(** The callback given to [map] in [listServices], for one port of one
    service. *)
Definition service_entry (c : KubeClient) (service : V1.Service) (port : V1.ServicePort)
    : Completion ServiceEntry.t :=
  let namespace := V1.metadata service ≫= V1.namespace in
  let name := default EmptyString (V1.metadata service ≫= V1.name) in
  let portNumber := V1.targetPort port in
  let mk listenPort :=
    {| ServiceEntry.namespace := namespace; ServiceEntry.name := name;
       ServiceEntry.portName := V1.port_name port; ServiceEntry.port := portNumber;
       ServiceEntry.listenPort := listenPort |} in
  match ForwardingMap.get namespace name portNumber (servers c) with
  | None =>
      (* [address] is [undefined] *)
      Normal (mk None)
  | Some server =>
      match listeners c !! server ≫= address with
      | Some port => Normal (mk (Some port))
      | None =>
          (* [address] is [null], which is not [undefined]: [.port] is read on it *)
          Throw TypeError
      end
  end.

(** [xs.map(f)] for a callback that may throw. *)
Fixpoint map_completion {A B} (f : A -> Completion B) (xs : list A) : Completion (list B) :=
  match xs with
  | [] => Normal []
  | x :: xs' =>
      match f x with
      | Throw e => Throw e
      | Normal y =>
          match map_completion f xs' with
          | Throw e => Throw e
          | Normal ys => Normal (y :: ys)
          end
      end
  end.

(** [xs.flatMap(f)] for a callback that may throw. *)
Fixpoint flatMap_completion {A B} (f : A -> Completion (list B)) (xs : list A)
    : Completion (list B) :=
  match xs with
  | [] => Normal []
  | x :: xs' =>
      match f x with
      | Throw e => Throw e
      | Normal ys =>
          match flatMap_completion f xs' with
          | Throw e => Throw e
          | Normal zs => Normal (ys ++ zs)
          end
      end
  end.

(** [listServices(namespace)]; [flatMap] is called on what the cache
    gives, array or not. *)
Definition listServices (namespace : option string) (c : KubeClient)
    : Completion (list ServiceEntry.t) :=
  if listed namespace c then
    flatMap_completion
      (fun service =>
         map_completion (service_entry c service)
           (default [] (V1.spec service ≫= V1.ports)))
      (list_cache namespace c)
  else Throw TypeError.

(** [this.emit('service-changed', this.listServices())]. *)
Definition emit_services (c : KubeClient) : KubeClient * Completion unit :=
  match listServices None c with
  | Throw e => (c, Throw e)
  | Normal s => (emit s c, Normal tt)
  end.

(** The event a new server answers [listen] with. *)
Inductive ListenEvent :=
| OnListening (port : Z)
| OnError
| OnClose.

(** The state of the server when the event is emitted. *)
Definition deliver (server : nat) (ev : ListenEvent) (c : KubeClient) : KubeClient :=
  match ev with
  | OnListening port => with_listeners (<[server := Listening port]> (listeners c)) c
  | OnError => c
  | OnClose => close server c
  end.

(** [createForwardingServer], up to the [await]: [None] when it returns at
    once, else the server it has made, registered and told to listen. *)
Definition createForwardingServer_begin (namespace endpoint : string) (port : jsnum)
    (c : KubeClient) : KubeClient * option nat :=
  match ForwardingMap.get (Some namespace) endpoint port (servers c) with
  | Some _ => (c, None)
  | None =>
      let server := length (listeners c) in
      let c := with_listeners (listeners c ++ [Unbound]) c in
      let c := with_servers (ForwardingMap.set (Some namespace) endpoint port server (servers c)) c in
      (c, Some server)
  end.

(** [createForwardingServer], from the event that ends the [await]. *)
Definition createForwardingServer_resume (namespace endpoint : string) (port : jsnum)
    (server : nat) (ev : ListenEvent) (c : KubeClient) : KubeClient * Completion unit :=
  match ev with
  | OnError => (c, Throw ListenError)
  | OnClose => (c, Throw ServerClosed)
  | OnListening _ =>
      let c :=
        if bool_decide (ForwardingMap.get (Some namespace) endpoint port (servers c) = Some server)
        then c else close server c in
      emit_services c
  end.

(** [createForwardingServer] when nothing else runs during its [await]. *)
Definition createForwardingServer (namespace endpoint : string) (port : jsnum)
    (ev : ListenEvent) (c : KubeClient) : KubeClient * Completion unit :=
  match createForwardingServer_begin namespace endpoint port c with
  | (c', None) => (c', Normal tt)
  | (c', Some server) =>
      createForwardingServer_resume namespace endpoint port server ev (deliver server ev c')
  end.

(** [forwardPort], after [createForwardingServer] has returned. *)
Definition forwardPort_finish (namespace endpoint : string) (port : jsnum)
    (c : KubeClient) : Completion (option Z) :=
  match ForwardingMap.get (Some namespace) endpoint port (servers c) with
  | None => Normal None
  | Some server =>
      match listeners c !! server ≫= address with
      | Some local => Normal (Some local)
      | None => Throw TypeError
      end
  end.

(** [forwardPort] when nothing else runs during its [await]. *)
Definition forwardPort (namespace endpoint : string) (port : jsnum)
    (ev : ListenEvent) (c : KubeClient) : KubeClient * Completion (option Z) :=
  match createForwardingServer namespace endpoint port ev c with
  | (c', Throw e) => (c', Throw e)
  | (c', Normal _) => (c', forwardPort_finish namespace endpoint port c')
  end.

(** [cancelForwardPort]. *)
Definition cancelForwardPort (namespace endpoint : string) (port : jsnum)
    (c : KubeClient) : KubeClient * Completion unit :=
  let server := ForwardingMap.get (Some namespace) endpoint port (servers c) in
  let c := with_servers (ForwardingMap.delete (Some namespace) endpoint port (servers c)) c in
  match server with
  | Some server => emit_services (close server c)
  | None => (c, Normal tt)
  end.

(** [getForwardedPort]. *)
Definition getForwardedPort (namespace endpoint : string) (port : jsnum)
    (c : KubeClient) : option Z :=
  ForwardingMap.get (Some namespace) endpoint port (servers c)
    ≫= (fun server => listeners c !! server ≫= address).

(** The loop of [destroy] over the entries the map had when the loop
    began: the iterator reads the map itself, so an entry deleted before
    its turn is not visited. *)
Fixpoint destroy_loop (entries : ForwardingMap.t) (c : KubeClient) : KubeClient :=
  match entries with
  | [] => c
  | (k, server) :: rest =>
      if ForwardingMap.map_has k (servers c) then
        match ForwardingMap.yield (k, server) with
        | Some (namespace, endpoint, port, server) =>
            let c :=
              with_servers (ForwardingMap.delete (Some namespace) endpoint port (servers c)) c in
            destroy_loop rest (close server c)
        | None => destroy_loop rest c
        end
      else destroy_loop rest c
  end.

(** [destroy()]. *)
Definition destroy (c : KubeClient) : KubeClient :=
  let c := with_shutdown true c in
  let c := destroy_loop (servers c) c in
  with_subscribed false c.

End KubeClient.

(* ===================================================================== *)
(** * Properties                                                          *)
(* ===================================================================== *)

(** ** Concrete values used in the examples *)

Module Sample.
Import JS K8s Minikube Controller.

Definition home : string := "/Users/me/Library/Application Support/rancher-desktop".

(** Four CPUs wanted, two gigabytes of memory. *)
Definition cfg : Config.Settings :=
  {| Config.version := "v1.19.2"; Config.memoryInGB := 2; Config.numberCPUs := 4 |}.

Definition after (es : list Event) : System :=
  default (init cfg) (run home (init cfg) es).

(** A child process is running for [start()] and has written to its
    standard error. *)
Definition complaining : System :=
  Eval vm_compute in after [CallStart; StderrData "boom"].

(** [start()] has gone through: exit code 0, then the continuation. *)
Definition started : System :=
  Eval vm_compute in after [CallStart; ProcessExit (Some 0%Z) None; RunJob].


(** [start()] has failed with exit code 1. *)
Definition failed : System :=
  Eval vm_compute in after [CallStart; StderrData "boom"; ProcessExit (Some 1%Z) None].

(** After that failure, a second [start()] whose process exits with 0. *)
Definition restarted : System :=
  Eval vm_compute in
    after [CallStart; StderrData "boom"; ProcessExit (Some 1%Z) None;
           CallStart; ProcessExit (Some 0%Z) None].


(** A second [start()], called on [started], while its process runs,
    having written to its standard error. *)
Definition starting_twice : System :=
  Eval vm_compute in
    after [CallStart; ProcessExit (Some 0%Z) None; RunJob; CallStart; StderrData "boom"].

(** The running configuration: two CPUs, 2048 units of memory, k3s. *)
Definition config : MinikubeConfiguration :=
  {| CPUs := 2; Memory := 2048; Bootstrapper := "k3s" |}.

(** What [minikube start] prints when asked for an older Kubernetes. *)
Definition downgrade_stderr : string :=
  "X Exiting due to K8S_DOWNGRADE_UNSUPPORTED: Unable to safely downgrade existing Kubernetes v1.20.0 cluster to v1.19.2" +:+ LF +:+
  "* Suggestion: " +:+ LF +:+
  LF +:+
  "    1) Recreate the cluster with Kubernetes 1.19.2, by running:" +:+ LF +:+
  "    " +:+ LF +:+
  "    minikube delete -p rancher-desktop" +:+ LF +:+
  "    minikube start -p rancher-desktop --kubernetes-version=v1.19.2" +:+ LF +:+
  "    " +:+ LF.

(** A child process is running for [start()] and has written that, after
    a line of its own. *)
Definition downgrading : System :=
  Eval vm_compute in
    after [CallStart; StderrData ("* minikube v1.15.1 on Darwin" +:+ LF);
           StderrData downgrade_stderr].

End Sample.

(* ===================================================================== *)
(** ** The lifecycle controller                                           *)
(* ===================================================================== *)

Module MinikubeSpec.
Import JS K8s Minikube Controller.

(** *** Field access through the updates *)

Lemma set_state_internalState v m : internalState (set_state v m) = v.
Proof. by destruct v; unfold set_state, destroy_client; simpl; try destruct (client m). Qed.

(** The states whose setter tears the client down. *)
Definition tears_down (v : State) : Prop := v = STOPPING \/ v = STOPPED \/ v = ERROR.


(** *** [start()] and [del()] outside the state they require *)

(** C2.  Called while the lock is free and the state is not [STOPPED],
    [start()] rejects, but the same synchronous segment still moves the
    state to [STARTING] and spawns [minikube start]: the caller learns of
    the failure after the child process exists, and the process runs on. *)
Theorem start_unstopped_spawns_anyway (home : string) (s : System) :
  jobs s = [] -> task s = None -> currentType (mk s) = None ->
  internalState (mk s) <> STOPPED ->
  exists s',
    step home s CallStart = Some s' /\
    effects (mk s') =
      effects (mk s) ++
      [StateChanged STARTING;
       Spawned (allocated (mk s)) (start_args (cfg (mk s)));
       Returned OpStart (Rejected (unstopped_error (internalState (mk s))))] /\
    internalState (mk s') = STARTING /\
    current (mk s') = Some (allocated (mk s)) /\
    task s' = Some (StartProcess false true false EmptyString).
Proof.
  intros Hjobs Htask Hlock Hstate.
  destruct s as [m t j]; simpl in *; subst t j.
  unfold step, macro; simpl. rewrite Hlock.
  unfold start_begin; simpl.
  rewrite bool_decide_eq_false_2 by exact Hstate. simpl.
  eexists; split; [reflexivity |]. simpl.
  repeat split. by rewrite <- !app_assoc.
Qed.

Lemma start_unstopped_spawns_anyway_witness :
  exists s',
    step Sample.home Sample.started CallStart = Some s' /\
    effects (mk s') =
      effects (mk Sample.started) ++
      [StateChanged STARTING;
       Spawned 2 (start_args Sample.cfg);
       Returned OpStart (Rejected (unstopped_error STARTED))] /\
    internalState (mk s') = STARTING /\
    current (mk s') = Some 2 /\
    task s' = Some (StartProcess false true false EmptyString).
Proof.
  apply (start_unstopped_spawns_anyway Sample.home Sample.started);
    [reflexivity | reflexivity | reflexivity | discriminate].
Defined.

(** C6.  Called while the lock is free and the state is not [STOPPED],
    [del()] rejects with 1, but the same synchronous segment still spawns
    [minikube delete]: the running cluster is deleted all the same. *)
Theorem del_unstopped_spawns_anyway (home : string) (s : System) :
  jobs s = [] -> task s = None -> currentType (mk s) = None ->
  internalState (mk s) <> STOPPED ->
  exists s',
    step home s CallDel = Some s' /\
    effects (mk s') =
      effects (mk s) ++
      [Spawned (allocated (mk s)) [Str "delete"; Str "-p"; Str "rancher-desktop"];
       Returned OpDel (Rejected (Value 1))] /\
    internalState (mk s') = internalState (mk s) /\
    current (mk s') = Some (allocated (mk s)) /\
    task s' = Some (DelProcess true EmptyString).
Proof.
  intros Hjobs Htask Hlock Hstate.
  destruct s as [m t j]; simpl in *; subst t j.
  unfold step, macro; simpl. rewrite Hlock.
  unfold del_begin; simpl.
  rewrite bool_decide_eq_false_2 by exact Hstate. simpl.
  eexists; split; [reflexivity |]. simpl.
  repeat split. by rewrite <- !app_assoc.
Qed.

Lemma del_unstopped_spawns_anyway_witness :
  exists s',
    step Sample.home Sample.started CallDel = Some s' /\
    effects (mk s') =
      effects (mk Sample.started) ++
      [Spawned 2 [Str "delete"; Str "-p"; Str "rancher-desktop"];
       Returned OpDel (Rejected (Value 1))] /\
    internalState (mk s') = STARTED /\
    current (mk s') = Some 2 /\
    task s' = Some (DelProcess true EmptyString).
Proof.
  apply (del_unstopped_spawns_anyway Sample.home Sample.started);
    [reflexivity | reflexivity | reflexivity | discriminate].
Defined.

(** *** A successful [start()] *)

Definition is_data (e : Event) : bool :=
  match e with
  | StdoutData _ | StderrData _ => true
  | _ => false
  end.

(** Output of the child process changes nothing but what the exit handler
    will be given. *)
Lemma run_data home ds : forall s nested settled permsMsg errorMessage,
  jobs s = [] -> task s = Some (StartProcess nested settled permsMsg errorMessage) ->
  forallb is_data ds = true ->
  exists permsMsg' errorMessage',
    run home s ds =
      Some {| mk := mk s;
              task := Some (StartProcess nested settled permsMsg' errorMessage');
              jobs := [] |}.
Proof.
  induction ds as [| e ds IH]; intros s nested settled pm em Hjobs Htask Hds.
  - exists pm, em. destruct s; simpl in *; by subst.
  - apply andb_prop in Hds as [He Hds].
    destruct s as [m t j]; simpl in *; subst t j.
    destruct e; try discriminate He; simpl.
    + edestruct (IH {| mk := m;
                       task := Some (StartProcess nested settled
                                       (includes perms_marker data || pm) em);
                       jobs := [] |}) as (pm' & em' & Hrun); eauto.
    + edestruct (IH {| mk := m;
                       task := Some (StartProcess nested settled pm (em +:+ data));
                       jobs := [] |}) as (pm' & em' & Hrun); eauto.
Qed.

Lemma run_app home es1 : forall s es2,
  run home s (es1 ++ es2) = run home s es1 ≫= (fun s' => run home s' es2).
Proof.
  induction es1 as [| e es1 IH]; intros s es2; simpl; [reflexivity |].
  destruct (step home s e); simpl; [apply IH | reflexivity].
Qed.

(** C10.  A [start()] admitted in state [STOPPED] whose child process
    exits with code 0 sets the state to [STARTED] in the exit handler and
    again in the continuation of the call: ['state-changed'] is emitted
    with [STARTED] twice, and the client is constructed after the second
    emission only; between the two the state is [STARTED] and the client
    reference is what it was. *)
Theorem successful_start_emits_started_twice (home : string) (s : System)
    (ds : list Event) (sig : option string) :
  jobs s = [] -> task s = None -> currentType (mk s) = None ->
  internalState (mk s) = STOPPED ->
  forallb is_data ds = true ->
  exists s1 s2,
    run home s (CallStart :: ds ++ [ProcessExit (Some 0%Z) sig]) = Some s1 /\
    step home s1 RunJob = Some s2 /\
    effects (mk s1) =
      effects (mk s) ++
      [StateChanged STARTING;
       Spawned (allocated (mk s)) (start_args (cfg (mk s)));
       StateChanged STARTED] /\
    client (mk s1) = client (mk s) /\
    effects (mk s2) =
      effects (mk s1) ++
      [StateChanged STARTED;
       ClientCreated (S (allocated (mk s)));
       Returned OpStart (Resolved None)] /\
    client (mk s2) = Some (S (allocated (mk s))) /\
    internalState (mk s2) = STARTED /\
    jobs s2 = [].
Proof.
  intros Hjobs Htask Hlock Hstate Hds.
  destruct s as [m t j]; simpl in *; subst t j.
  unfold step at 1, macro; simpl. rewrite Hlock.
  unfold start_begin; simpl. rewrite Hstate; simpl.
  rewrite run_app.
  match goal with
  | |- context [run home ?s0 ds] =>
      destruct (run_data home ds s0 false false false EmptyString eq_refl eq_refl Hds)
        as (pm & em & ->)
  end.
  simpl. unfold step, macro, start_on_exit; simpl.
  do 2 eexists; split; [reflexivity |]. simpl.
  split; [reflexivity |].
  unfold start_continue; simpl.
  repeat split; by rewrite <- ?app_assoc.
Qed.

Lemma successful_start_emits_started_twice_witness :
  exists s1 s2,
    run Sample.home (init Sample.cfg)
      (CallStart :: [StdoutData "* Starting"] ++ [ProcessExit (Some 0%Z) None]) = Some s1 /\
    step Sample.home s1 RunJob = Some s2 /\
    effects (mk s1) =
      [] ++ [StateChanged STARTING; Spawned 0 (start_args Sample.cfg); StateChanged STARTED] /\
    client (mk s1) = None /\
    effects (mk s2) =
      effects (mk s1) ++
      [StateChanged STARTED; ClientCreated 1; Returned OpStart (Resolved None)] /\
    client (mk s2) = Some 1 /\
    internalState (mk s2) = STARTED /\
    jobs s2 = [].
Proof.
  apply (successful_start_emits_started_twice Sample.home (init Sample.cfg)
           [StdoutData "* Starting"] None); reflexivity.
Defined.

(** *** A failed [start()] and its message *)

(** A text the pattern does not match comes back as it is. *)
Lemma customize_unmatched home errorMessage :
  Regex.exec Message.downgrade_pattern errorMessage = None ->
  Message.customizeMinikubeMessage home errorMessage = errorMessage.
Proof. unfold Message.customizeMinikubeMessage. by intros ->. Qed.

(** A text the pattern matches is replaced by the template filled with
    the four groups. *)
Lemma customize_matched home errorMessage m :
  Regex.exec Message.downgrade_pattern errorMessage = Some m ->
  Message.customizeMinikubeMessage home errorMessage =
    Message.fixedMessage home (nth 1 m EmptyString) (nth 2 m EmptyString)
      (nth 3 m EmptyString) (nth 4 m EmptyString).
Proof. unfold Message.customizeMinikubeMessage. by intros ->. Qed.

(** C7, as amended.  When the child process of a [start()] that was
    called in state [STOPPED], or of the nested [start] of its
    escalation, exits with a code other than 0, not by SIGINT and not in
    the escalation case, the state becomes [ERROR] and the call is
    rejected with the context ['starting minikube'], the exit code, and a
    message made from all that the process wrote to its standard error:
    that text itself when the downgrade pattern does not match it; and
    when it does, the first group, ['Suggested fix:'], the second group,
    the line that exports [MINIKUBE_HOME] (the data directory, in double
    quotes if it holds white space), the third group, and the fourth
    group followed by [' --driver=hyperkit'], each followed by a line
    feed and separated by an empty line. *)
Theorem failed_start_reports_customized_stderr (home : string) (s : System)
    (nested permsMsg : bool) (errorMessage : string) (code : option Z)
    (sig : option string) :
  jobs s = [] -> task s = Some (StartProcess nested false permsMsg errorMessage) ->
  code <> Some 0%Z -> sig <> Some "SIGINT" ->
  ~ (code = Some 80%Z /\ permsMsg = true /\ nested = false) ->
  exists s' message,
    run home s (ProcessExit code sig :: if nested then [RunJob] else []) = Some s' /\
    internalState (mk s') = ERROR /\
    effects (mk s') =
      effects (set_state ERROR (mk s)) ++
      [Returned OpStart (Rejected (Fail "starting minikube" code message))] /\
    task s' = None /\ jobs s' = [] /\
    match Regex.exec Message.downgrade_pattern errorMessage with
    | None => message = errorMessage
    | Some m =>
        message =
          nth 1 m EmptyString +:+ LF +:+
          LF +:+
          "Suggested fix:" +:+ LF +:+
          LF +:+
          nth 2 m EmptyString +:+ LF +:+
          LF +:+
          "export MINIKUBE_HOME=" +:+
          (if existsb_string is_space home then DQUOTE +:+ home +:+ DQUOTE else home) +:+
          LF +:+
          LF +:+
          nth 3 m EmptyString +:+ LF +:+
          LF +:+
          nth 4 m EmptyString +:+ " --driver=hyperkit" +:+ LF
    end.
Proof.
  intros Hjobs Htask Hcode Hsig Hesc.
  destruct s as [m t j]; simpl in *; subst t j.
  assert (bool_decide (code = Some 80%Z) && permsMsg && negb nested = false) as Hno.
  { destruct (bool_decide_reflect (code = Some 80%Z)), permsMsg, nested; simpl;
      try reflexivity.
    exfalso; auto. }
  exists {| mk := emit (Returned OpStart
                          (Rejected (Fail "starting minikube" code
                                       (Message.customizeMinikubeMessage home errorMessage))))
                    (clear (set_state ERROR m));
            task := None; jobs := [] |},
    (Message.customizeMinikubeMessage home errorMessage).
  split.
  - unfold run, step, macro, start_on_exit; cbn [jobs task mk].
    rewrite Hno, (bool_decide_eq_false_2 _ Hcode), (bool_decide_eq_false_2 _ Hsig).
    destruct nested; reflexivity.
  - cbn [mk task jobs].
    split; [apply (set_state_internalState ERROR) |].
    split; [reflexivity |]. split; [reflexivity |]. split; [reflexivity |].
    unfold Message.customizeMinikubeMessage.
    destruct (Regex.exec Message.downgrade_pattern errorMessage); reflexivity.
Qed.

Lemma failed_start_reports_customized_stderr_witness :
  (exists s',
     run Sample.home Sample.downgrading [ProcessExit (Some 78%Z) None] = Some s' /\
     internalState (mk s') = ERROR /\
     effects (mk s') =
       effects (set_state ERROR (mk Sample.downgrading)) ++
       [Returned OpStart
          (Rejected
             (Fail "starting minikube" (Some 78%Z)
                ("Unable to safely downgrade existing Kubernetes v1.20.0 cluster to v1.19.2"
                   +:+ LF +:+ LF +:+
                 "Suggested fix:" +:+ LF +:+ LF +:+
                 "Recreate the cluster with Kubernetes 1.19.2, by running:" +:+ LF +:+ LF +:+
                 "export MINIKUBE_HOME=" +:+ DQUOTE +:+
                 "/Users/me/Library/Application Support/rancher-desktop" +:+ DQUOTE +:+
                 LF +:+ LF +:+
                 "minikube delete -p rancher-desktop" +:+ LF +:+ LF +:+
                 "minikube start -p rancher-desktop --kubernetes-version=v1.19.2 --driver=hyperkit"
                   +:+ LF)))]) /\
  (exists s',
     run Sample.home Sample.complaining [ProcessExit (Some 1%Z) None] = Some s' /\
     internalState (mk s') = ERROR /\
     effects (mk s') =
       effects (set_state ERROR (mk Sample.complaining)) ++
       [Returned OpStart (Rejected (Fail "starting minikube" (Some 1%Z) "boom"))]).
Proof.
  split.
  - destruct (failed_start_reports_customized_stderr Sample.home Sample.downgrading
                false false
                ("* minikube v1.15.1 on Darwin" +:+ LF +:+ Sample.downgrade_stderr)
                (Some 78%Z) None)
      as (s' & message & Hrun & Hstate & Heffects & _ & _ & Hmessage);
      [reflexivity | reflexivity | discriminate | discriminate | | ].
    + intros (_ & H & _); discriminate H.
    + exists s'. split; [exact Hrun |]. split; [exact Hstate |].
      vm_compute in Hmessage. rewrite Heffects, Hmessage. reflexivity.
  - destruct (failed_start_reports_customized_stderr Sample.home Sample.complaining
                false false "boom" (Some 1%Z) None)
      as (s' & message & Hrun & Hstate & Heffects & _ & _ & Hmessage);
      [reflexivity | reflexivity | discriminate | discriminate | | ].
    + intros (_ & H & _); discriminate H.
    + exists s'. split; [exact Hrun |]. split; [exact Hstate |].
      vm_compute in Hmessage. rewrite Heffects, Hmessage. reflexivity.
Defined.

(** C7, the claim as stated fails.  A [start()] called in state
    [STARTED] is rejected by its guard with the error of the guard, and
    [minikube start] is spawned all the same.  When that process exits
    with code 1, the state becomes [ERROR] and nothing more is reported:
    the call has failed with a message that is not made from what the
    process wrote. *)
Lemma rejected_start_reports_no_stderr :
  reachable Sample.home Sample.cfg Sample.starting_twice /\
  task Sample.starting_twice = Some (StartProcess false true false "boom") /\
  exists s',
    step Sample.home Sample.starting_twice (ProcessExit (Some 1%Z) None) = Some s' /\
    internalState (mk s') = ERROR /\
    effects (mk s') =
      effects (mk Sample.started) ++
      [StateChanged STARTING; Spawned 2 (start_args Sample.cfg);
       Returned OpStart
         (Rejected (JsError "Attempting to start unstopped Kubernetes cluster: 2"));
       StateChanged ERROR; ClientDestroyed 1] /\
    task s' = None /\ jobs s' = [].
Proof.
  split.
  - exists [CallStart; ProcessExit (Some 0%Z) None; RunJob; CallStart; StderrData "boom"].
    reflexivity.
  - split; [reflexivity |]. eexists. split; [reflexivity |]. repeat split.
Qed.

(** *** [requiresRestartReasons()] *)

(** What [cmp] stores under a key: the pair when the values differ, the
    empty tuple when they are the same. *)
Definition reason (actual desired : jsval) : list jsval :=
  if strict_eq actual desired then [] else [actual; desired].

Lemma minikubeConfig_absent m file :
  internalState m <> STARTED \/ file = ENOENT ->
  minikubeConfig m file = Normal None.
Proof.
  unfold minikubeConfig. intros [H | ->].
  - by rewrite bool_decide_eq_false_2.
  - by case_bool_decide.
Qed.

(** C3, as amended.  [requiresRestartReasons()] returns the empty mapping
    when there is no running configuration (the state is not [STARTED], or
    the file does not exist); otherwise the mapping has exactly the keys
    [cpu], [memory] and [bootstrapper], a key whose values differ holding
    the pair of the actual and the desired value, and a key whose values
    are the same holding the empty tuple. *)
Theorem restart_reasons_hold_every_key (m : Minikube) (file : ConfigFile) :
  (internalState m <> STARTED \/ file = ENOENT ->
   requiresRestartReasons m file = Normal ∅) /\
  (forall config, internalState m = STARTED -> file = Parsed config ->
   exists results,
     requiresRestartReasons m file = Normal results /\
     dom results = ({["cpu"; "memory"; "bootstrapper"]} : gset string) /\
     results !! "cpu" =
       Some (reason (VNum (CPUs config)) (VNum (Config.numberCPUs (cfg m)))) /\
     results !! "memory" =
       Some (reason (VNum (Memory config / 1024)) (VNum (Config.memoryInGB (cfg m)))) /\
     results !! "bootstrapper" =
       Some (reason (VStr (Bootstrapper config)) (VStr "k3s"))).
Proof.
  split.
  - intros H. unfold requiresRestartReasons. by rewrite minikubeConfig_absent.
  - intros config Hstate ->.
    unfold requiresRestartReasons, minikubeConfig. rewrite Hstate. simpl.
    eexists; split; [reflexivity |]. unfold cmp, reason.
    split; [| split; [| split]].
    + rewrite !dom_insert_L, dom_empty_L. set_solver.
    + do 2 (rewrite lookup_insert_ne by done). by rewrite lookup_insert_eq.
    + rewrite lookup_insert_ne by done. by rewrite lookup_insert_eq.
    + by rewrite lookup_insert_eq.
Qed.

Lemma restart_reasons_hold_every_key_witness :
  requiresRestartReasons (mk Sample.failed) (Parsed Sample.config) = Normal ∅ /\
  exists results,
    requiresRestartReasons (mk Sample.started) (Parsed Sample.config) = Normal results /\
    dom results = ({["cpu"; "memory"; "bootstrapper"]} : gset string) /\
    results !! "cpu" = Some [VNum 2; VNum 4] /\
    results !! "memory" = Some [] /\
    results !! "bootstrapper" = Some [].
Proof.
  split.
  - apply (restart_reasons_hold_every_key (mk Sample.failed) (Parsed Sample.config)).
    left; discriminate.
  - destruct (proj2 (restart_reasons_hold_every_key (mk Sample.started)
                       (Parsed Sample.config)) Sample.config eq_refl eq_refl)
      as (results & H & Hdom & Hcpu & Hmem & Hboot).
    exists results. repeat split; assumption.
Defined.

(** C3, the claim as stated fails: with two CPUs running and four wanted,
    memory and bootstrapper as wanted, the result holds [cpu] with the
    pair, and also [memory] and [bootstrapper] with the empty tuple, so it
    is not the mapping with the single key [cpu]. *)
Lemma restart_reasons_keep_matching_keys :
  requiresRestartReasons (mk Sample.started) (Parsed Sample.config) =
    Normal {[ "cpu" := [VNum 2; VNum 4]; "memory" := []; "bootstrapper" := [] ]} /\
  requiresRestartReasons (mk Sample.started) (Parsed Sample.config) <>
    Normal {[ "cpu" := [VNum 2; VNum 4] ]}.
Proof.
  split; [reflexivity |].
  intros H.
  apply (f_equal (fun r => match r with
                           | Normal results => results !! "memory"
                           | Throw _ => None
                           end)) in H.
  vm_compute in H. discriminate H.
Qed.

(** *** The client reference along every run *)

(** What holds in every state the controller can be in: no client in a
    state that tears it down; while [reset] is between its [exec] and its
    [catch] the state is [STARTING] and no promise reaction is pending;
    and the lock is taken as long as an operation is outstanding. *)
Record Inv (s : System) : Prop := {
  inv_client : tears_down (internalState (mk s)) -> client (mk s) = None;
  inv_reset : forall n, task s = Some (ResetExec n) ->
              internalState (mk s) = STARTING /\ jobs s = [];
  inv_lock : currentType (mk s) = None -> task s = None;
  inv_jobs : jobs s <> [] -> task s = None;
}.

Lemma Inv_init cfg : Inv (init cfg).
Proof. split; simpl; try done. Qed.

Ltac tears_down_cases :=
  unfold tears_down in *;
  repeat match goal with
         | H : _ \/ _ |- _ => destruct H
         | H : _ /\ _ |- _ => destruct H
         end;
  try discriminate; try congruence.

Lemma new_client_after_started m :
  tears_down (internalState (new_client (set_state STARTED m))) ->
  client (new_client (set_state STARTED m)) = None.
Proof. simpl. intros H. tears_down_cases. Qed.

Lemma start_continue_client m :
  (tears_down (internalState m) -> client m = None) ->
  tears_down (internalState (start_continue m)) -> client (start_continue m) = None.
Proof.
  unfold start_continue. case_bool_decide; [done |].
  intros _. apply new_client_after_started.
Qed.

Lemma macro_Inv home s e s' : jobs s = [] -> Inv s -> macro home s e = Some s' -> Inv s'.
Proof.
  intros Hjobs [Hclient Hreset Hlock _] Hstep.
  destruct s as [m t j]; simpl in *; subst j.
  unfold macro, stop_begin, reset_begin, exec_inherit, start_on_exit, start_begin,
    del_begin, stop_on_exit, del_on_exit, reset_fail in Hstep; simpl in Hstep.
  repeat case_match; simplify_eq.
  all: split; simpl.
  all: unfold settle, destroy_client, onSettingsChanged in *.
  all: repeat case_match; simpl in *; simplify_eq.
  all: try done.
  all: try (intros; tears_down_cases; fail).
  all: try (intros; simplify_eq; eauto; fail).
  all: try (intros ? [=]; simplify_eq; by apply Hreset).
  all: try (intros H; apply Hlock in H; discriminate H).
Qed.

Lemma micro_Inv j rest s : jobs s = j :: rest -> Inv s -> Inv (micro j rest s).
Proof.
  intros Hjobs [Hclient Hreset Hlock Hjob].
  assert (task s = None) as Htask by (apply Hjob; by rewrite Hjobs).
  destruct s as [m t js]; simpl in *; subst.
  destruct j as [nested | [f |] settled]; unfold micro; simpl.
  - split; simpl; try done.
    destruct nested; simpl; by apply start_continue_client.
  - split; simpl; try done.
    unfold settle; by destruct settled.
  - split; simpl; done.
Qed.

Lemma step_Inv home s e s' : Inv s -> step home s e = Some s' -> Inv s'.
Proof.
  intros HInv. unfold step.
  destruct (jobs s) as [| j rest] eqn:Hjobs.
  - destruct e; try discriminate; by apply macro_Inv.
  - destruct e; try discriminate. intros [= <-]. by apply micro_Inv.
Qed.

Lemma run_Inv home es : forall s s', Inv s -> run home s es = Some s' -> Inv s'.
Proof.
  induction es as [| e es IH]; intros s s' HInv; simpl.
  - by intros [= <-].
  - destruct (step home s e) as [s1 |] eqn:Hstep; [| discriminate].
    apply IH. by eapply step_Inv.
Qed.

Lemma reachable_Inv home cfg s : reachable home cfg s -> Inv s.
Proof. intros [es Hrun]. eapply run_Inv; [apply Inv_init | exact Hrun]. Qed.

(** The polling loops alone keep the operations apart: whenever the lock
    is free, no operation is outstanding, so a call admitted by
    [currentType] never meets a running one. *)
Lemma lock_free_no_task home cfg s :
  reachable home cfg s -> currentType (mk s) = None -> task s = None.
Proof. intros Hs. apply inv_lock. by eapply reachable_Inv. Qed.





(** *** The reformatter at work *)

Definition downgrade_marker : string := "X Exiting due to K8S_DOWNGRADE_UNSUPPORTED:".

(** A text that does not hold the head of the pattern is not matched
    anywhere, and comes back as it is. *)
Lemma customize_without_marker home errorMessage :
  includes downgrade_marker errorMessage = false ->
  Message.customizeMinikubeMessage home errorMessage = errorMessage.
Proof.
  intros H. apply customize_unmatched.
  induction errorMessage as [| c s IH]; cbn [Regex.exec includes] in *.
  - reflexivity.
  - destruct (strip_prefix downgrade_marker (String c s)) eqn:Hhead; [discriminate H |].
    unfold Regex.match_here, Message.downgrade_pattern. cbn [Regex.seq Regex.rmatch].
    fold downgrade_marker. rewrite Hhead. by apply IH.
Qed.

Example customize_downgrade :
  Message.customizeMinikubeMessage Sample.home Sample.downgrade_stderr =
    "Unable to safely downgrade existing Kubernetes v1.20.0 cluster to v1.19.2" +:+ LF +:+
    LF +:+
    "Suggested fix:" +:+ LF +:+
    LF +:+
    "Recreate the cluster with Kubernetes 1.19.2, by running:" +:+ LF +:+
    LF +:+
    "export MINIKUBE_HOME=" +:+ DQUOTE +:+ Sample.home +:+ DQUOTE +:+ LF +:+
    LF +:+
    "minikube delete -p rancher-desktop" +:+ LF +:+
    LF +:+
    "minikube start -p rancher-desktop --kubernetes-version=v1.19.2 --driver=hyperkit" +:+ LF.
Proof. vm_compute. reflexivity. Qed.

Example customize_other :
  Message.customizeMinikubeMessage Sample.home "E0101 something else went wrong"
  = "E0101 something else went wrong".
Proof. by apply customize_without_marker. Qed.

End MinikubeSpec.

(* ===================================================================== *)
(** ** Strings and the matcher                                            *)
(* ===================================================================== *)

Module RegexFacts.
Import JS Regex.

Lemma append_String c s t : String c s +:+ t = String c (s +:+ t).
Proof. reflexivity. Qed.

Lemma append_empty_l s : EmptyString +:+ s = s.
Proof. reflexivity. Qed.

Ltac push_append := rewrite ?append_String, ?append_empty_l.

Lemma append_empty_r s : s +:+ EmptyString = s.
Proof. induction s as [| c s IH]; push_append; [reflexivity | by rewrite IH]. Qed.

Lemma length_append s t :
  String.length (s +:+ t) = (String.length s + String.length t)%nat.
Proof.
  induction s as [| c s IH]; push_append; simpl; [reflexivity | by rewrite IH].
Qed.

Lemma take_append s t : take (String.length s) (s +:+ t) = s.
Proof.
  induction s as [| c s IH]; push_append; simpl; [by destruct t | by rewrite IH].
Qed.

(** What a group records when it stops in front of [t]. *)
Lemma consumed_append s t : consumed (s +:+ t) t = s.
Proof.
  unfold consumed. rewrite length_append.
  replace (String.length s + String.length t - String.length t)%nat
    with (String.length s) by lia.
  apply take_append.
Qed.

Lemma consumed_all s : consumed s EmptyString = s.
Proof.
  pose proof (consumed_append s EmptyString) as H.
  by rewrite append_empty_r in H.
Qed.

Lemma strip_prefix_append p s : strip_prefix p (p +:+ s) = Some s.
Proof.
  induction p as [| c p IH]; push_append; simpl; [reflexivity |].
  by rewrite Ascii.eqb_refl.
Qed.

(** A string that starts with no character of the class. *)
Definition stops (cl : cclass) (s : string) : Prop :=
  match s with
  | EmptyString => True
  | String c _ => mem cl c = false
  end.

(** A greedy star over a run of the class that ends where the class
    stops and the rest of the pattern matches takes the whole run. *)
Lemma star_greedy_run {A} cl run rest (k : string -> option A) r :
  forallb_string (mem cl) run = true -> stops cl rest -> k rest = Some r ->
  star_greedy cl (run +:+ rest) k = Some r.
Proof.
  intros Hrun Hstop Hk. induction run as [| c run IH]; push_append; simpl in *.
  - destruct rest as [| c rest]; simpl in *; [exact Hk |]. by rewrite Hstop.
  - apply andb_prop in Hrun as [-> Hrun]. by rewrite IH.
Qed.

(** *** Counting one character *)

Fixpoint count (x : ascii) (s : string) : nat :=
  match s with
  | EmptyString => 0
  | String c s' => (if Ascii.eqb x c then 1 else 0) + count x s'
  end.

Lemma count_append x s t : count x (s +:+ t) = (count x s + count x t)%nat.
Proof.
  induction s as [| c s IH]; push_append; simpl; [reflexivity | rewrite IH; lia].
Qed.

Lemma count_none x s :
  forallb_string (fun c => negb (Ascii.eqb x c)) s = true -> count x s = 0.
Proof.
  induction s as [| c s IH]; simpl; [reflexivity |].
  intros H. apply andb_prop in H as [Hc Hs].
  apply negb_true_iff in Hc. rewrite Hc, IH; done.
Qed.

Lemma forallb_string_impl (p q : ascii -> bool) s :
  (forall c, p c = true -> q c = true) ->
  forallb_string p s = true -> forallb_string q s = true.
Proof.
  intros Hpq. induction s as [| c s IH]; simpl; [done |].
  intros H. apply andb_prop in H as [Hc Hs]. by rewrite Hpq, IH.
Qed.

(** *** Decimal digits *)

Lemma digit_char_is_digit d : (d < 10)%nat -> is_digit (digit_char d) = true.
Proof.
  intros H. do 10 (destruct d as [| d]; [reflexivity |]). lia.
Qed.

Lemma forallb_string_cons p c s :
  forallb_string p (String c s) = p c && forallb_string p s.
Proof. reflexivity. Qed.

Lemma pos_digits_digits fuel : forall n acc,
  forallb_string is_digit acc = true ->
  forallb_string is_digit (pos_digits fuel n acc) = true.
Proof.
  induction fuel as [| fuel IH]; intros n acc Hacc; [exact Hacc |].
  cbn [pos_digits].
  assert (forallb_string is_digit
            (String (digit_char (N.to_nat (n mod 10))) acc) = true) as Hacc'.
  { rewrite forallb_string_cons, Hacc, digit_char_is_digit; [done |].
    pose proof (N.mod_lt n 10). lia. }
  destruct (n <? 10)%N; [exact Hacc' | by apply IH].
Qed.

Lemma pos_digits_nonempty fuel n acc :
  pos_digits (S fuel) n acc <> EmptyString.
Proof.
  revert n acc. induction fuel as [| fuel IH]; intros n acc.
  - cbn [pos_digits]. by destruct (n <? 10)%N.
  - change (pos_digits (S (S fuel)) n acc) with
      (let acc' := String (digit_char (N.to_nat (n mod 10))) acc in
       if (n <? 10)%N then acc' else pos_digits (S fuel) (n / 10)%N acc').
    cbv zeta. destruct (n <? 10)%N; [done | apply IH].
Qed.

Lemma N_to_string_digits n : forallb_string is_digit (N_to_string n) = true.
Proof. by apply pos_digits_digits. Qed.

Lemma N_to_string_nonempty n : N_to_string n <> EmptyString.
Proof. apply pos_digits_nonempty. Qed.

(** *** The matcher on a string whose shape is known *)

Lemma rmatch_lit {A} l s caps (k : string -> list string -> option A) :
  rmatch (Lit l) (l +:+ s) caps k = k s caps.
Proof. simpl. by rewrite strip_prefix_append. Qed.

Lemma rmatch_star_run {A} cl run rest caps (k : string -> list string -> option A) r :
  forallb_string (mem cl) run = true -> stops cl rest -> k rest caps = Some r ->
  rmatch (Star cl) (run +:+ rest) caps k = Some r.
Proof. intros Hrun Hstop Hk. simpl. by apply star_greedy_run. Qed.

Lemma rmatch_plus_run {A} cl run rest caps (k : string -> list string -> option A) r :
  run <> EmptyString ->
  forallb_string (mem cl) run = true -> stops cl rest -> k rest caps = Some r ->
  rmatch (Plus cl) (run +:+ rest) caps k = Some r.
Proof.
  intros Hne Hrun Hstop Hk. destruct run as [| c run]; [done |].
  rewrite forallb_string_cons in Hrun. apply andb_prop in Hrun as [Hc Hrun].
  rewrite append_String. simpl. rewrite Hc. by apply star_greedy_run.
Qed.

Lemma rmatch_plus_all {A} cl run caps (k : string -> list string -> option A) r :
  run <> EmptyString ->
  forallb_string (mem cl) run = true -> k EmptyString caps = Some r ->
  rmatch (Plus cl) run caps k = Some r.
Proof.
  intros Hne Hrun Hk.
  pose proof (rmatch_plus_run cl run EmptyString caps k r Hne Hrun I Hk) as H.
  by rewrite append_empty_r in H.
Qed.

Lemma rmatch_group {A} r' s caps (k : string -> list string -> option A) :
  rmatch (Group r') s caps k =
  rmatch r' s caps (fun t caps' => k t (caps' ++ [consumed s t])).
Proof. reflexivity. Qed.

Lemma rmatch_seq {A} r1 r2 s caps (k : string -> list string -> option A) :
  rmatch (Seq r1 r2) s caps k =
  rmatch r1 s caps (fun t caps' => rmatch r2 t caps' k).
Proof. reflexivity. Qed.

Lemma rmatch_eos {A} caps (k : string -> list string -> option A) :
  rmatch Eos EmptyString caps k = k EmptyString caps.
Proof. reflexivity. Qed.

Lemma stops_literal cl c s : mem cl c = false -> stops cl (String c s).
Proof. done. Qed.

End RegexFacts.

(* ===================================================================== *)
(** ** The forwarding table                                               *)
(* ===================================================================== *)

Module ForwardingMapSpec.
Import JS Regex RegexFacts ForwardingMap.

(** [namespace || 'default']. *)
Definition namespace_or_default (namespace : option string) : string :=
  match namespace with
  | Some (String _ _ as n) => n
  | Some EmptyString | None => "default"
  end.

Lemma key_eq namespace endpoint port :
  key namespace endpoint port =
  namespace_or_default namespace +:+ "/" +:+ endpoint +:+ ":" +:+ num_to_string port.
Proof. by destruct namespace as [[| c n] |]. Qed.

Lemma map_get_set k v m : map_get k (map_set k v m) = Some v.
Proof.
  induction m as [| [k' v'] m IH]; simpl.
  - by rewrite bool_decide_eq_true_2.
  - case_bool_decide; simpl.
    + by rewrite bool_decide_eq_true_2.
    + by rewrite bool_decide_eq_false_2.
Qed.

Lemma map_has_In k v m : In (k, v) m -> map_has k m = true.
Proof.
  unfold map_has. induction m as [| [k' v'] m IH]; simpl; [done |].
  intros [[= -> ->] | Hin].
  - by rewrite bool_decide_eq_true_2.
  - case_bool_decide as Hk; [done | by apply IH].
Qed.

Lemma map_delete_absent k m :
  (forall k' v, In (k', v) m -> k' <> k) -> map_delete k m = m.
Proof.
  induction m as [| [k' v'] m IH]; simpl; [done |]. intros H.
  rewrite bool_decide_eq_false_2 by (apply (H k' v'); by left).
  f_equal. apply IH. intros k'' v'' Hin. apply (H k'' v''). by right.
Qed.

Lemma map_set_absent k v m : map_get k m = None -> map_set k v m = m ++ [(k, v)].
Proof.
  induction m as [| [k' v'] m IH]; simpl; [done |].
  case_bool_decide as Hk; [done |]. intros Hget. by rewrite IH.
Qed.

(** *** Keys of Kubernetes objects *)

(** No slash and no colon. *)
Definition plain (s : string) : bool :=
  forallb_string (fun c => negb (Ascii.eqb "/" c) && negb (Ascii.eqb ":" c)) s.

(** A triple named the way Kubernetes names its objects and ports: the
    names hold neither a slash nor a colon, the endpoint has a name, and
    the port is a natural number.  Both numbers of the triple are ones a
    double holds exactly: the port, and what [parseInt] reads at the head
    of the name of the endpoint if it reads a number there. *)
Record kube_triple (namespace : option string) (endpoint : string) (port : Z) : Prop := {
  kube_namespace : plain (namespace_or_default namespace) = true;
  kube_endpoint : plain endpoint = true;
  kube_named : endpoint <> EmptyString;
  kube_port : (0 <= port < 2 ^ 53)%Z;
  kube_read : safe (parseInt endpoint);
}.

Lemma plain_no_slash s : plain s = true -> forallb_string (mem (Except "/")) s = true.
Proof.
  apply forallb_string_impl. intros c H. apply andb_prop in H as [Hc _]. exact Hc.
Qed.

Lemma plain_no_colon s : plain s = true -> forallb_string (mem (Except ":")) s = true.
Proof.
  apply forallb_string_impl. intros c H. apply andb_prop in H as [_ Hc]. exact Hc.
Qed.

Lemma digits_no_slash s :
  forallb_string is_digit s = true ->
  forallb_string (fun c => negb (Ascii.eqb "/" c)) s = true.
Proof.
  apply forallb_string_impl. intros c H.
  destruct (Ascii.eqb_spec "/" c) as [<- |]; [discriminate H | done].
Qed.

(** The pattern of the iterator on a key of the expected shape. *)
Lemma key_pattern_matches a b d :
  forallb_string (mem (Except "/")) a = true ->
  forallb_string (mem (Except ":")) b = true -> b <> EmptyString ->
  forallb_string is_digit d = true -> d <> EmptyString ->
  exec_anchored key_pattern (a +:+ "/" +:+ b +:+ ":" +:+ d) =
    Some [a +:+ "/" +:+ b +:+ ":" +:+ d; a; b; d].
Proof.
  intros Ha Hb Hbne Hd Hdne.
  unfold exec_anchored, match_here, key_pattern, seq.
  rewrite rmatch_seq, rmatch_group.
  apply rmatch_star_run; [exact Ha | by apply stops_literal |].
  rewrite consumed_append, rmatch_seq, rmatch_lit, rmatch_seq, rmatch_group.
  apply rmatch_plus_run; [exact Hbne | exact Hb | by apply stops_literal |].
  rewrite consumed_append, rmatch_seq, rmatch_lit, rmatch_seq, rmatch_group.
  apply rmatch_plus_all; [exact Hdne | exact Hd |].
  rewrite consumed_all, rmatch_eos, consumed_all.
  reflexivity.
Qed.

Lemma port_digits port :
  (0 <= port)%Z ->
  forallb_string is_digit (num_to_string (Int port)) = true /\
  num_to_string (Int port) <> EmptyString.
Proof.
  intros Hport. unfold num_to_string.
  rewrite (proj2 (Z.ltb_ge port 0) Hport).
  split; [apply N_to_string_digits | apply N_to_string_nonempty].
Qed.

(** What the iterator yields for the entry of such a triple: the whole
    key first, the namespace second, and [parseInt] of the endpoint
    third. *)
Lemma yield_kube namespace endpoint port server :
  kube_triple namespace endpoint port ->
  yield (key namespace endpoint (Int port), server) =
    Some (key namespace endpoint (Int port), namespace_or_default namespace,
          parseInt endpoint, server).
Proof.
  intros [Hns Hep Hne [Hport _] _]. unfold yield.
  destruct (port_digits port Hport) as [Hdigits Hdne].
  rewrite key_eq, key_pattern_matches;
    auto using plain_no_slash, plain_no_colon.
Qed.

Lemma count_slash_kube_key namespace endpoint port :
  kube_triple namespace endpoint port ->
  count "/" (key namespace endpoint (Int port)) = 1.
Proof.
  intros [Hns Hep Hne [Hport _] _].
  destruct (port_digits port Hport) as [Hdigits _].
  rewrite key_eq, !count_append.
  rewrite (count_none "/" (namespace_or_default namespace)),
    (count_none "/" endpoint), (count_none "/" (num_to_string (Int port)));
    [reflexivity | by apply digits_no_slash | by apply plain_no_slash
    | by apply plain_no_slash].
Qed.

Lemma key_nonempty namespace endpoint port : key namespace endpoint port <> EmptyString.
Proof. rewrite key_eq. by destruct namespace as [[| c n] |]. Qed.

(** The key [destroy] deletes for a yielded entry is longer than the key
    of the entry by at least a slash. *)
Lemma count_slash_deleted_key k endpoint port :
  k <> EmptyString ->
  (count "/" k + 1 <= count "/" (key (Some k) endpoint port))%nat.
Proof.
  intros Hk. rewrite key_eq. destruct k as [| c k]; [done |].
  cbn [namespace_or_default]. rewrite !count_append.
  change (count "/" "/") with 1. lia.
Qed.

End ForwardingMapSpec.

(* ===================================================================== *)
(** ** The cluster access client                                          *)
(* ===================================================================== *)

Module ClientSample.
Import JS KubeClient.

(** One service, [default/web], with the port 80. *)
Definition web : V1.Service :=
  {| V1.metadata := Some {| V1.namespace := Some "default"; V1.name := Some "web" |};
     V1.spec := Some {| V1.ports := Some [{| V1.port_name := Some "http";
                                              V1.targetPort := Int 80 |}] |} |}.

Definition fresh : KubeClient := KubeClient.new [web].

Definition after_forward (namespace endpoint : string) (port : jsnum)
    (ev : ListenEvent) (c : KubeClient) : KubeClient :=
  fst (forwardPort namespace endpoint port ev c).

(** [default/web:80] is forwarded from the local port 40000. *)
Definition forwarding : KubeClient :=
  Eval vm_compute in after_forward "default" "web" (Int 80) (OnListening 40000) fresh.

(** [createForwardingServer] for [default/web:80] is waiting for its
    listener. *)
Definition binding : KubeClient :=
  Eval vm_compute in fst (createForwardingServer_begin "default" "web" (Int 80) fresh).

(** A forward for an endpoint with the empty name, which [listServices]
    reports for a service without one. *)
Definition unnamed : KubeClient :=
  Eval vm_compute in
    after_forward "default" EmptyString (Int 80) (OnListening 40000) (KubeClient.new []).

(** Two forwards, the key of the second being the key that [destroy]
    deletes for the first. *)
Definition shadowed : KubeClient :=
  Eval vm_compute in
    after_forward "a" "8b:1/a" (Int 8) (OnListening 40001)
      (after_forward "a" "8b" (Int 1) (OnListening 40000) (KubeClient.new [])).

End ClientSample.

Module ClientSpec.
Import JS Regex RegexFacts ForwardingMap ForwardingMapSpec KubeClient.

(** *** A triple that has an entry *)

Lemma createForwardingServer_existing namespace endpoint port ev c server :
  ForwardingMap.get (Some namespace) endpoint port (servers c) = Some server ->
  createForwardingServer namespace endpoint port ev c = (c, Normal tt).
Proof.
  intros Hget. unfold createForwardingServer, createForwardingServer_begin.
  by rewrite Hget.
Qed.

(** *** A listener that fails to bind *)

(** C4.  When the new listener reports an error, or closes, before it is
    listening, [createForwardingServer] rejects and leaves the entry it
    had registered in the table, with a listener that has no address: the
    table is not what it was before the call. *)
Theorem failed_listener_stays_registered
    (namespace endpoint : string) (port : jsnum) (ev : ListenEvent) (c : KubeClient) :
  ForwardingMap.get (Some namespace) endpoint port (servers c) = None ->
  ev = OnError \/ ev = OnClose ->
  exists c' e,
    createForwardingServer namespace endpoint port ev c = (c', Throw e) /\
    servers c' = servers c ++ [(key (Some namespace) endpoint port, length (listeners c))] /\
    ForwardingMap.get (Some namespace) endpoint port (servers c') =
      Some (length (listeners c)) /\
    listeners c' !! length (listeners c) ≫= address = None /\
    forall ev', forwardPort namespace endpoint port ev' c' = (c', Throw TypeError).
Proof.
  intros Hget Hev.
  assert (forall c' server ev',
            ForwardingMap.get (Some namespace) endpoint port (servers c') = Some server ->
            listeners c' !! server ≫= address = None ->
            forwardPort namespace endpoint port ev' c' = (c', Throw TypeError)) as Hagain.
  { intros c' server ev' Hentry Haddress. unfold forwardPort.
    rewrite (createForwardingServer_existing _ _ _ _ _ _ Hentry).
    unfold forwardPort_finish. by rewrite Hentry, Haddress. }
  unfold createForwardingServer, createForwardingServer_begin. rewrite Hget.
  assert (forall l : list Listener, (l ++ [Unbound]) !! length l = Some Unbound) as Hnew.
  { intros l. rewrite lookup_app_r by lia. by rewrite Nat.sub_diag. }
  assert (forall l : list Listener,
            <[length l := Closed]> (l ++ [Unbound]) !! length l = Some Closed) as Hclosed.
  { intros l. apply list_lookup_insert_eq. rewrite length_app. simpl. lia. }
  destruct Hev as [-> | ->]; simpl; do 2 eexists; (split; [reflexivity |]); simpl.
  - assert (ForwardingMap.get (Some namespace) endpoint port
              (ForwardingMap.set (Some namespace) endpoint port (length (listeners c))
                 (servers c)) = Some (length (listeners c))) as Hentry
      by apply map_get_set.
    split; [by apply map_set_absent |]. split; [exact Hentry |].
    split; [by rewrite Hnew |].
    intros ev'. eapply Hagain; [exact Hentry |]. simpl. by rewrite Hnew.
  - assert (ForwardingMap.get (Some namespace) endpoint port
              (ForwardingMap.set (Some namespace) endpoint port (length (listeners c))
                 (servers c)) = Some (length (listeners c))) as Hentry
      by apply map_get_set.
    split; [by apply map_set_absent |]. split; [exact Hentry |].
    split; [by rewrite Hclosed |].
    intros ev'. eapply Hagain; [exact Hentry |]. simpl. by rewrite Hclosed.
Qed.

Lemma failed_listener_stays_registered_witness :
  exists c' e,
    createForwardingServer "default" "web" (Int 80) OnError ClientSample.fresh
      = (c', Throw e) /\
    servers c' = [] ++ [(key (Some "default") "web" (Int 80), 0)] /\
    ForwardingMap.get (Some "default") "web" (Int 80) (servers c') = Some 0 /\
    listeners c' !! 0 ≫= address = None /\
    forall ev', forwardPort "default" "web" (Int 80) ev' c' = (c', Throw TypeError).
Proof.
  apply (failed_listener_stays_registered "default" "web" (Int 80) OnError
           ClientSample.fresh); [reflexivity | left; reflexivity].
Defined.

(** *** Forwarding the same port twice *)

Lemma emit_services_keeps c c' r :
  emit_services c = (c', r) ->
  servers c' = servers c /\ listeners c' = listeners c.
Proof.
  unfold emit_services. destruct (listServices None c); intros [= <- <-]; done.
Qed.

(** C5.  [createForwardingServer] does nothing for a triple that has an
    entry.  Hence, when [forwardPort] has set up a forward for a triple
    that had none and returned, it has returned the port the listener is
    bound to and made one listener; and called again with the same
    arguments, whatever the environment does, it returns the same port and
    leaves the client as it is, so that no second listener is made. *)
Theorem forwardPort_twice_same_port
    (namespace endpoint : string) (port : jsnum) (local : Z) (ev : ListenEvent)
    (c c1 : KubeClient) (r : option Z) :
  (forall server,
     ForwardingMap.get (Some namespace) endpoint port (servers c) = Some server ->
     createForwardingServer namespace endpoint port ev c = (c, Normal tt)) /\
  (ForwardingMap.get (Some namespace) endpoint port (servers c) = None ->
   forwardPort namespace endpoint port (OnListening local) c = (c1, Normal r) ->
   r = Some local /\
   length (listeners c1) = S (length (listeners c)) /\
   forwardPort namespace endpoint port ev c1 = (c1, Normal (Some local))).
Proof.
  split; [intros server; apply createForwardingServer_existing |].
  intros Hget Hfirst.
  unfold forwardPort in Hfirst.
  destruct (createForwardingServer namespace endpoint port (OnListening local) c)
    as [c' [[] | e]] eqn:Hcreate; [| discriminate Hfirst].
  injection Hfirst as -> Hfinish.
  unfold createForwardingServer, createForwardingServer_begin in Hcreate.
  rewrite Hget in Hcreate.
  unfold createForwardingServer_resume, deliver in Hcreate. cbn [servers with_listeners with_servers] in Hcreate.
  unfold ForwardingMap.set, ForwardingMap.get in *.
  rewrite map_get_set, bool_decide_eq_true_2 in Hcreate by reflexivity.
  apply emit_services_keeps in Hcreate as [Hservers Hlisteners].
  cbn [servers listeners with_listeners with_servers] in Hservers, Hlisteners.
  assert (map_get (key (Some namespace) endpoint port) (servers c1) =
            Some (length (listeners c))) as Hget1.
  { rewrite Hservers. apply map_get_set. }
  assert (listeners c1 !! length (listeners c) = Some (Listening local)) as Hbound.
  { rewrite Hlisteners. apply list_lookup_insert_eq. rewrite length_app. simpl. lia. }
  unfold forwardPort_finish, ForwardingMap.get in Hfinish.
  rewrite Hget1, Hbound in Hfinish. simpl in Hfinish. injection Hfinish as <-.
  split; [reflexivity |].
  split.
  - rewrite Hlisteners, length_insert, length_app. simpl. lia.
  - unfold forwardPort.
    rewrite (createForwardingServer_existing _ _ _ _ _ _ Hget1).
    unfold forwardPort_finish, ForwardingMap.get. by rewrite Hget1, Hbound.
Qed.

Lemma forwardPort_twice_same_port_witness :
  createForwardingServer "default" "web" (Int 80) OnError ClientSample.forwarding =
    (ClientSample.forwarding, Normal tt) /\
  Some 40000%Z = Some 40000%Z /\
  length (listeners ClientSample.forwarding) = S (length (listeners ClientSample.fresh)) /\
  forwardPort "default" "web" (Int 80) OnError ClientSample.forwarding =
    (ClientSample.forwarding, Normal (Some 40000%Z)).
Proof.
  split.
  - apply (proj1 (forwardPort_twice_same_port "default" "web" (Int 80) 40000 OnError
                    ClientSample.forwarding ClientSample.forwarding None) 0).
    reflexivity.
  - apply (proj2 (forwardPort_twice_same_port "default" "web" (Int 80) 40000 OnError
                    ClientSample.fresh ClientSample.forwarding (Some 40000%Z)));
      reflexivity.
Defined.

(** *** [listServices] while a listener has no address *)

Lemma map_completion_throws {A B} (f : A -> Completion B) xs x e :
  In x xs -> f x = Throw e ->
  (forall y e', f y = Throw e' -> e' = e) ->
  map_completion f xs = Throw e.
Proof.
  intros Hin Hx Hall. induction xs as [| y xs IH]; simpl; [done |].
  destruct (f y) as [b | e'] eqn:Hy.
  - destruct Hin as [-> | Hin]; [congruence |]. by rewrite IH.
  - by rewrite (Hall y e' Hy).
Qed.

Lemma flatMap_completion_throws {A B} (f : A -> Completion (list B)) xs x e :
  In x xs -> f x = Throw e ->
  (forall y e', f y = Throw e' -> e' = e) ->
  flatMap_completion f xs = Throw e.
Proof.
  intros Hin Hx Hall. induction xs as [| y xs IH]; simpl; [done |].
  destruct (f y) as [b | e'] eqn:Hy.
  - destruct Hin as [-> | Hin]; [congruence |]. by rewrite IH.
  - by rewrite (Hall y e' Hy).
Qed.

Lemma service_entry_throws c service port e :
  service_entry c service port = Throw e -> e = TypeError.
Proof.
  unfold service_entry. repeat case_match; congruence.
Qed.

Lemma map_completion_throws_only {A B} (f : A -> Completion B) xs e e0 :
  (forall y e', f y = Throw e' -> e' = e0) ->
  map_completion f xs = Throw e -> e = e0.
Proof.
  intros Hall. induction xs as [| y xs IH]; simpl; [done |].
  destruct (f y) as [b | e'] eqn:Hy.
  - destruct (map_completion f xs); [done |]. intros [= ->]. by apply IH.
  - intros [= <-]. by apply (Hall y).
Qed.

(** C9.  [createForwardingServer] registers its server before the server
    is bound.  And whenever [listServices] comes to a port of a listed
    service whose triple has an entry in the table, the server of which is
    not bound yet or is closed already, it throws a [TypeError]: the
    address of such a server is [null], which the code takes for an
    address because it is not [undefined]. *)
Theorem listServices_throws_on_unbound_listener
    (c : KubeClient) (namespace : option string) (service : V1.Service)
    (port : V1.ServicePort) (server : nat) :
  (forall ns endpoint p c' new,
     createForwardingServer_begin ns endpoint p c = (c', Some new) ->
     ForwardingMap.get (Some ns) endpoint p (servers c') = Some new /\
     listeners c' !! new = Some Unbound) /\
  (In service (list_cache namespace c) ->
   In port (default [] (V1.spec service ≫= V1.ports)) ->
   ForwardingMap.get (V1.metadata service ≫= V1.namespace)
     (default EmptyString (V1.metadata service ≫= V1.name))
     (V1.targetPort port) (servers c) = Some server ->
   listeners c !! server = Some Unbound \/ listeners c !! server = Some Closed ->
   listServices namespace c = Throw TypeError).
Proof.
  split.
  - intros ns endpoint p c' new.
    unfold createForwardingServer_begin.
    destruct (ForwardingMap.get (Some ns) endpoint p (servers c)); [done |].
    intros [= <- <-]. simpl. unfold ForwardingMap.get, ForwardingMap.set.
    split; [apply map_get_set |].
    rewrite lookup_app_r by lia. by rewrite Nat.sub_diag.
  - intros Hservice Hport Hget Hlistener.
    assert (service_entry c service port = Throw TypeError) as Hentry.
    { unfold service_entry. rewrite Hget. by destruct Hlistener as [-> | ->]. }
    unfold listServices. destruct (listed namespace c); [| reflexivity].
    eapply flatMap_completion_throws; [exact Hservice | |].
    + eapply map_completion_throws; [exact Hport | exact Hentry |].
      intros y e'. apply service_entry_throws.
    + intros y e'. apply map_completion_throws_only.
      intros p e''. apply service_entry_throws.
Qed.

Lemma listServices_throws_on_unbound_listener_witness :
  (ForwardingMap.get (Some "default") "web" (Int 80) (servers ClientSample.binding) = Some 0 /\
   listeners ClientSample.binding !! 0 = Some Unbound) /\
  listServices None ClientSample.binding = Throw TypeError.
Proof.
  destruct (listServices_throws_on_unbound_listener ClientSample.binding None
              ClientSample.web
              {| V1.port_name := Some "http"; V1.targetPort := Int 80 |} 0)
    as [Hwindow Hthrows].
  split.
  - apply (listServices_throws_on_unbound_listener ClientSample.fresh None
             ClientSample.web
             {| V1.port_name := Some "http"; V1.targetPort := Int 80 |} 0).
    reflexivity.
  - apply Hthrows; [left; reflexivity | left; reflexivity | reflexivity
                   | left; reflexivity].
Defined.

(** *** [destroy] and the iterator of the table *)

(** A registration: the triple and the server. *)
Definition registration : Type := option string * string * Z * nat.

Definition kube_registration (r : registration) : Prop :=
  let '(namespace, endpoint, port, _) := r in kube_triple namespace endpoint port.

(** The entry [set] makes for it. *)
Definition entry_of (r : registration) : string * nat :=
  let '(namespace, endpoint, port, server) := r in
  (key namespace endpoint (Int port), server).

(** What the iterator yields for that entry: the key in the place of the
    namespace, the namespace in the place of the endpoint, and [parseInt]
    of the endpoint in the place of the port. *)
Definition yielded_of (r : registration) : string * string * jsnum * nat :=
  let '(namespace, endpoint, port, server) := r in
  (key namespace endpoint (Int port), namespace_or_default namespace,
   parseInt endpoint, server).

Lemma iterate_kube rs :
  Forall kube_registration rs ->
  iterate (map entry_of rs) = map yielded_of rs.
Proof.
  unfold iterate. induction 1 as [| [[[ns ep] port] server] rs Hr _ IH]; [done |].
  cbn [map omap list_omap entry_of yielded_of].
  rewrite (yield_kube _ _ _ _ Hr). by rewrite <- IH.
Qed.

(** The key of a registration of that kind. *)
Definition kube_key (k : string) : Prop :=
  exists namespace endpoint port,
    kube_triple namespace endpoint port /\ k = key namespace endpoint (Int port).

(** [destroy] deletes no key of that kind. *)
Lemma delete_yielded_absent (m : ForwardingMap.t) k endpoint port :
  (forall k' v, In (k', v) m -> kube_key k') ->
  kube_key k ->
  ForwardingMap.delete (Some k) endpoint port m = m.
Proof.
  intros Hm (ns & ep & p & Hk & ->).
  apply map_delete_absent. intros k' v Hin Heq.
  destruct (Hm k' v Hin) as (ns' & ep' & p' & Hk' & ->).
  pose proof (count_slash_kube_key _ _ _ Hk') as H1.
  pose proof (count_slash_kube_key _ _ _ Hk) as H2.
  pose proof (count_slash_deleted_key (key ns ep (Int p)) endpoint port
                (key_nonempty _ _ _)) as H3.
  rewrite <- Heq in H3. lia.
Qed.

Definition close_all (entries : ForwardingMap.t) (ls : list Listener) : list Listener :=
  foldl (fun ls entry => <[entry.2 := Closed]> ls) ls entries.

Lemma destroy_loop_kube entries : forall c,
  (forall k v, In (k, v) (servers c) -> kube_key k) ->
  (forall k v, In (k, v) entries -> In (k, v) (servers c)) ->
  servers (destroy_loop entries c) = servers c /\
  listeners (destroy_loop entries c) = close_all entries (listeners c).
Proof.
  induction entries as [| [k server] entries IH]; intros c Hkeys Hsub; [done |].
  cbn [destroy_loop].
  assert (In (k, server) (servers c)) as Hin by (apply Hsub; by left).
  rewrite (map_has_In _ _ _ Hin).
  destruct (Hkeys k server Hin) as (ns & ep & p & Hk & ->).
  rewrite (yield_kube _ _ _ _ Hk).
  rewrite (delete_yielded_absent (servers c)); [| exact Hkeys | by exists ns, ep, p].
  destruct (IH (close server (with_servers (servers c) c))) as [Hs Hl].
  - exact Hkeys.
  - intros k' v' Hin'. apply Hsub. by right.
  - split; [exact Hs | exact Hl].
Qed.

Lemma destroy_loop_shutdown entries : forall c,
  shutdown (destroy_loop entries c) = shutdown c.
Proof.
  induction entries as [| [k server] entries IH]; intros c; [done |].
  cbn [destroy_loop]. repeat case_match; by rewrite IH.
Qed.

Lemma close_all_closed entries : forall ls i,
  ls !! i = Some Closed -> close_all entries ls !! i = Some Closed.
Proof.
  induction entries as [| e entries IH]; intros ls i Hi; [done |].
  unfold close_all in *. cbn [foldl]. apply IH.
  destruct (decide (e.2 = i)) as [-> | Hne].
  - apply list_lookup_insert_eq. by eapply lookup_lt_Some.
  - by rewrite list_lookup_insert_ne.
Qed.

Lemma close_all_In entries : forall ls k server,
  In (k, server) entries -> server < length ls ->
  close_all entries ls !! server = Some Closed.
Proof.
  induction entries as [| e entries IH]; intros ls k server Hin Hlt; [done |].
  destruct Hin as [-> | Hin].
  - unfold close_all. cbn [foldl]. apply close_all_closed.
    by apply list_lookup_insert_eq.
  - unfold close_all. cbn [foldl]. eapply IH; [exact Hin |].
    by rewrite length_insert.
Qed.

(** C8, as amended.  Take a table whose entries were all registered for
    triples named the way Kubernetes names them, with a port below 2^53
    and no number of 2^53 or more at the head of the name of the
    endpoint.  Its iterator yields, for each entry in turn, the whole key
    in the place of the namespace, the namespace in the place of the
    endpoint, and the endpoint read by [parseInt] in the place of the
    port.  Hence [destroy] closes the listener of every entry, and
    deletes none: the table after [destroy] is the table before it. *)
Theorem destroy_closes_but_keeps_entries (c : KubeClient) (rs : list registration) :
  servers c = map entry_of rs ->
  Forall kube_registration rs ->
  iterate (servers c) = map yielded_of rs /\
  servers (destroy c) = servers c /\
  shutdown (destroy c) = true /\
  (forall namespace endpoint port server,
     In (namespace, endpoint, port, server) rs ->
     server < length (listeners c) ->
     listeners (destroy c) !! server = Some Closed).
Proof.
  intros Hservers Hrs.
  assert (forall k v, In (k, v) (servers c) -> kube_key k) as Hkeys.
  { intros k v. rewrite Hservers, in_map_iff.
    intros ([[[ns ep] p] server] & [= <- <-] & Hin).
    exists ns, ep, p. split; [| reflexivity].
    rewrite Forall_forall in Hrs. apply (Hrs _ (proj2 (list_elem_of_In _ _) Hin)). }
  destruct (destroy_loop_kube (servers c) (with_shutdown true c) Hkeys (fun k v H => H))
    as [Hs Hl].
  split; [rewrite Hservers; by apply iterate_kube |].
  split; [exact Hs |].
  split; [unfold destroy; cbn [shutdown with_subscribed]; by rewrite destroy_loop_shutdown |].
  intros ns ep p server Hin Hlt.
  change (listeners (destroy c))
    with (listeners (destroy_loop (servers c) (with_shutdown true c))).
  rewrite Hl. eapply close_all_In; [| exact Hlt].
  cbn [servers with_shutdown]. rewrite Hservers.
  apply (in_map entry_of _ _ Hin).
Qed.

Lemma destroy_closes_but_keeps_entries_witness :
  iterate (servers ClientSample.forwarding) = [("default/web:80", "default", NaN, 0)] /\
  servers (destroy ClientSample.forwarding) = servers ClientSample.forwarding /\
  shutdown (destroy ClientSample.forwarding) = true /\
  listeners (destroy ClientSample.forwarding) !! 0 = Some Closed.
Proof.
  destruct (destroy_closes_but_keeps_entries ClientSample.forwarding
              [(Some "default", "web", 80%Z, 0)]) as (Hyield & Hkept & Hshut & Hclosed).
  - reflexivity.
  - constructor; [| constructor].
    split; [reflexivity | reflexivity | discriminate | lia | exact I].
  - split; [exact Hyield |]. split; [exact Hkept |]. split; [exact Hshut |].
    apply (Hclosed (Some "default") "web" 80%Z 0); [left; reflexivity | simpl; lia].
Defined.

(** C8, the claim as stated fails.  The entry of an endpoint with the
    empty name has a key the pattern of the iterator does not match: the
    iterator yields nothing for it and [destroy] leaves its listener
    bound.  And where the key that [destroy] deletes for one entry is the
    key of another entry, that entry is gone after [destroy], its
    listener still bound. *)
Lemma destroy_skips_and_shadows :
  (servers ClientSample.unnamed = [("default/:80", 0)] /\
   listeners ClientSample.unnamed = [Listening 40000] /\
   iterate (servers ClientSample.unnamed) = [] /\
   servers (destroy ClientSample.unnamed) = [("default/:80", 0)] /\
   listeners (destroy ClientSample.unnamed) = [Listening 40000]) /\
  (servers ClientSample.shadowed = [("a/8b:1", 0); ("a/8b:1/a:8", 1)] /\
   listeners ClientSample.shadowed = [Listening 40000; Listening 40001] /\
   iterate (servers ClientSample.shadowed) = [("a/8b:1", "a", Int 8, 0)] /\
   servers (destroy ClientSample.shadowed) = [("a/8b:1", 0)] /\
   listeners (destroy ClientSample.shadowed) = [Closed; Listening 40001]).
Proof. repeat split; reflexivity. Qed.

End ClientSpec.

(* ===================================================================== *)
(** ** More on the lifecycle controller                                   *)
(* ===================================================================== *)

Module LifecycleSpec.
Import JS K8s Minikube Controller MinikubeSpec.

(** *** What the subscribers have been told *)

(** The state a subscriber of ['state-changed'] knows of after the
    effects [es], having known of [s] before. *)
Fixpoint announced (es : list Effect) (s : State) : State :=
  match es with
  | [] => s
  | StateChanged v :: es' => announced es' v
  | _ :: es' => announced es' s
  end.

Lemma announced_app es1 : forall es2 s,
  announced (es1 ++ es2) s = announced es2 (announced es1 s).
Proof.
  induction es1 as [| e es1 IH]; intros es2 s; [reflexivity |].
  destruct e; simpl; apply IH.
Qed.

(** The subscribers are up to date. *)
Definition in_sync (m : Minikube) : Prop :=
  announced (effects m) STOPPED = internalState m.

Ltac sync_tac :=
  unfold in_sync, settle, destroy_client, onSettingsChanged, start_continue in *;
  repeat case_match; simpl in *; simplify_eq;
  rewrite ?announced_app; simpl;
  repeat match goal with
         | H : announced (effects ?m) STOPPED = _ |- _ => rewrite ?H; clear H
         end;
  try done.

Lemma macro_in_sync home s e s' :
  in_sync (mk s) -> macro home s e = Some s' -> in_sync (mk s').
Proof.
  intros Hsync Hstep. destruct s as [m t j]; simpl in *.
  unfold macro, stop_begin, reset_begin, exec_inherit, start_on_exit, start_begin,
    del_begin, stop_on_exit, del_on_exit, reset_fail in Hstep; simpl in Hstep.
  repeat case_match; simplify_eq; sync_tac.
Qed.

Lemma micro_in_sync j rest s : in_sync (mk s) -> in_sync (mk (micro j rest s)).
Proof.
  intros Hsync. destruct s as [m t js]; simpl in *.
  destruct j as [[] | [f |] settled]; unfold micro; simpl; sync_tac.
Qed.

(** X1.  In every state the controller can be in, the state last emitted
    with ['state-changed'] is the current state, [STOPPED] standing for
    no emission at all: the field never changes behind the back of the
    subscribers. *)
Theorem subscribers_in_sync (home : string) (cfg : Config.Settings) (s : System) :
  reachable home cfg s -> announced (effects (mk s)) STOPPED = internalState (mk s).
Proof.
  intros [es Hrun]. revert s Hrun.
  assert (forall es s0 s, in_sync (mk s0) -> run home s0 es = Some s -> in_sync (mk s))
    as Hgen.
  { clear. induction es as [| e es IH]; intros s0 s Hsync; simpl.
    - by intros [= <-].
    - destruct (step home s0 e) as [s1 |] eqn:Hstep; [| discriminate].
      apply IH. unfold step in Hstep.
      destruct (jobs s0) as [| j rest]; destruct e; try discriminate Hstep;
        try (by eapply macro_in_sync).
      injection Hstep as <-. by apply micro_in_sync. }
  intros s Hrun. by apply (Hgen es (init cfg) s).
Qed.

Lemma subscribers_in_sync_witness :
  announced (effects (mk Sample.restarted)) STOPPED = STARTED.
Proof.
  apply (subscribers_in_sync Sample.home Sample.cfg Sample.restarted).
  exists [CallStart; StderrData "boom"; ProcessExit (Some 1%Z) None;
          CallStart; ProcessExit (Some 0%Z) None].
  reflexivity.
Defined.

(** *** The lock and the operation in flight *)








(** *** The output of a child process *)

(** What [errorMessage] holds after the data events [ds], having held
    [acc] before. *)
Fixpoint collected (ds : list Event) (acc : string) : string :=
  match ds with
  | [] => acc
  | StderrData data :: ds' => collected ds' (acc +:+ data)
  | _ :: ds' => collected ds' acc
  end.

(** What [permsMsg] holds after them. *)
Fixpoint noticed (ds : list Event) (acc : bool) : bool :=
  match ds with
  | [] => acc
  | StdoutData data :: ds' => noticed ds' (includes perms_marker data || acc)
  | _ :: ds' => noticed ds' acc
  end.

Lemma run_data_start home ds : forall m nested settled permsMsg errorMessage,
  forallb is_data ds = true ->
  run home {| mk := m; task := Some (StartProcess nested settled permsMsg errorMessage);
              jobs := [] |} ds =
    Some {| mk := m;
            task := Some (StartProcess nested settled (noticed ds permsMsg)
                            (collected ds errorMessage));
            jobs := [] |}.
Proof.
  induction ds as [| e ds IH]; intros m nested settled pm em Hds; [reflexivity |].
  apply andb_prop in Hds as [He Hds].
  destruct e; try discriminate He; simpl; by rewrite IH.
Qed.

Lemma run_data_stop home ds : forall m errorMessage,
  forallb is_data ds = true ->
  run home {| mk := m; task := Some (StopProcess errorMessage); jobs := [] |} ds =
    Some {| mk := m; task := Some (StopProcess (collected ds errorMessage)); jobs := [] |}.
Proof.
  induction ds as [| e ds IH]; intros m em Hds; [reflexivity |].
  apply andb_prop in Hds as [He Hds].
  destruct e; try discriminate He; simpl; by rewrite IH.
Qed.

Lemma run_data_del home ds : forall m settled errorMessage,
  forallb is_data ds = true ->
  run home {| mk := m; task := Some (DelProcess settled errorMessage); jobs := [] |} ds =
    Some {| mk := m; task := Some (DelProcess settled (collected ds errorMessage));
            jobs := [] |}.
Proof.
  induction ds as [| e ds IH]; intros m settled em Hds; [reflexivity |].
  apply andb_prop in Hds as [He Hds].
  destruct e; try discriminate He; simpl; by rewrite IH.
Qed.

(** The effects of tearing the client down. *)
Definition destroyed (m : Minikube) : list Effect :=
  match client m with
  | Some c => [ClientDestroyed c]
  | None => []
  end.

Definition stop_args : list Arg := [Str "stop"; Str "-p"; Str "rancher-desktop"].
Definition delete_args : list Arg := [Str "delete"; Str "-p"; Str "rancher-desktop"].

(** *** [stop()] *)

(** X3.  [stop()], called while the lock is free.  In state [STOPPED] it
    resolves at once and does nothing else.  In any other state it emits
    [STOPPING], destroys the client, and spawns [minikube stop]; when that
    process exits with code 0 or with no code the state becomes
    [STOPPED] and the call resolves with 0, and with any other code the
    state becomes [ERROR] and the call is rejected with the code and all
    that the process wrote to its standard error.  Either way the lock
    is released and no client is left. *)
Theorem stop_runs_to_stopped_or_error (home : string) (s : System)
    (ds : list Event) (code : option Z) (sig : option string) :
  jobs s = [] -> task s = None -> currentType (mk s) = None ->
  forallb is_data ds = true ->
  (internalState (mk s) = STOPPED ->
   step home s CallStop =
     Some {| mk := emit (Returned OpStop (Resolved None)) (mk s);
             task := None; jobs := [] |}) /\
  (internalState (mk s) <> STOPPED ->
   let clean := bool_decide (code = Some 0%Z) || bool_decide (code = None) in
   exists s',
     run home s (CallStop :: ds ++ [ProcessExit code sig]) = Some s' /\
     effects (mk s') =
       effects (mk s) ++ [StateChanged STOPPING] ++ destroyed (mk s) ++
       [Spawned (allocated (mk s)) stop_args;
        StateChanged (if clean then STOPPED else ERROR);
        Returned OpStop
          (if clean then Resolved (Some 0%Z)
           else Rejected (Fail "stopping minikube" code (collected ds EmptyString)))] /\
     internalState (mk s') = (if clean then STOPPED else ERROR) /\
     client (mk s') = None /\
     currentType (mk s') = None /\ task s' = None /\ jobs s' = []).
Proof.
  intros Hjobs Htask Hlock Hds.
  destruct s as [m t j]; simpl in *; subst t j. split.
  - intros Hstate. unfold step, macro, stop_begin; simpl.
    by rewrite Hlock, Hstate.
  - intros Hstate. unfold step at 1, macro, stop_begin; simpl.
    rewrite Hlock, (bool_decide_eq_false_2 _ Hstate).
    rewrite run_app, run_data_stop by exact Hds. simpl.
    unfold step, macro, stop_on_exit, destroyed, destroy_client; simpl.
    destruct (bool_decide (code = Some 0%Z) || bool_decide (code = None));
      destruct (client m); simpl; eexists; (split; [reflexivity |]); simpl;
      repeat split; by rewrite <- ?app_assoc.
Qed.

Lemma stop_runs_to_stopped_or_error_witness :
  step Sample.home (init Sample.cfg) CallStop =
    Some {| mk := emit (Returned OpStop (Resolved None)) (mk (init Sample.cfg));
            task := None; jobs := [] |} /\
  exists s',
    run Sample.home Sample.started
      (CallStop :: [StderrData "no such profile"] ++ [ProcessExit (Some 85%Z) None])
      = Some s' /\
    effects (mk s') =
      effects (mk Sample.started) ++ [StateChanged STOPPING] ++ [ClientDestroyed 1] ++
      [Spawned 2 stop_args; StateChanged ERROR;
       Returned OpStop (Rejected (Fail "stopping minikube" (Some 85%Z) "no such profile"))] /\
    internalState (mk s') = ERROR /\
    client (mk s') = None /\
    currentType (mk s') = None /\ task s' = None /\ jobs s' = [].
Proof.
  split.
  - apply (proj1 (stop_runs_to_stopped_or_error Sample.home (init Sample.cfg) []
                    None None eq_refl eq_refl eq_refl eq_refl)).
    reflexivity.
  - apply (proj2 (stop_runs_to_stopped_or_error Sample.home Sample.started
                    [StderrData "no such profile"] (Some 85%Z) None
                    eq_refl eq_refl eq_refl eq_refl)).
    discriminate.
Defined.

(** *** [stop()] during [start()] *)

(** X4.  A [stop()] called while [minikube start] runs sends SIGINT to
    that process.  When the process then dies of the signal the state
    becomes [STOPPED], not [ERROR]; [start()] resolves without making a
    client; and the waiting [stop()], finding the state [STOPPED], resolves
    without spawning [minikube stop]. *)
Theorem interrupted_start_ends_stopped (home : string) (s : System)
    (ds1 ds2 : list Event) :
  jobs s = [] -> task s = None -> currentType (mk s) = None ->
  internalState (mk s) = STOPPED ->
  forallb is_data ds1 = true -> forallb is_data ds2 = true ->
  exists s',
    run home s
      (CallStart :: ds1 ++ CallStop :: ds2 ++
       [ProcessExit None (Some "SIGINT"); RunJob; CallStop]) = Some s' /\
    effects (mk s') =
      effects (mk s) ++
      [StateChanged STARTING;
       Spawned (allocated (mk s)) (start_args (cfg (mk s)));
       Killed (allocated (mk s)) "SIGINT";
       StateChanged STOPPED] ++ destroyed (mk s) ++
      [Returned OpStart (Resolved None); Returned OpStop (Resolved None)] /\
    internalState (mk s') = STOPPED /\ client (mk s') = None /\
    currentType (mk s') = None /\ task s' = None /\ jobs s' = [].
Proof.
  intros Hjobs Htask Hlock Hstate Hds1 Hds2.
  destruct s as [m t j]; simpl in *; subst t j.
  unfold step at 1, macro, start_begin; simpl. rewrite Hlock, Hstate. simpl.
  rewrite run_app, run_data_start by exact Hds1. simpl.
  rewrite run_app, run_data_start by exact Hds2. simpl.
  unfold destroyed, destroy_client. simpl.
  destruct (client m); simpl; eexists; (split; [reflexivity |]); simpl;
    repeat split; by rewrite <- ?app_assoc.
Qed.

Lemma interrupted_start_ends_stopped_witness :
  exists s',
    run Sample.home (init Sample.cfg)
      (CallStart :: [StdoutData "* Starting"] ++ CallStop :: [] ++
       [ProcessExit None (Some "SIGINT"); RunJob; CallStop]) = Some s' /\
    effects (mk s') =
      [] ++
      [StateChanged STARTING; Spawned 0 (start_args Sample.cfg); Killed 0 "SIGINT";
       StateChanged STOPPED] ++ [] ++
      [Returned OpStart (Resolved None); Returned OpStop (Resolved None)] /\
    internalState (mk s') = STOPPED /\ client (mk s') = None /\
    currentType (mk s') = None /\ task s' = None /\ jobs s' = [].
Proof.
  apply (interrupted_start_ends_stopped Sample.home (init Sample.cfg)
           [StdoutData "* Starting"] []); reflexivity.
Defined.

(** *** The escalation of [start()] *)

(** X5.  When [minikube start] of an admitted call exits with code 80
    after printing that the driver requires elevated permissions, the
    controller prompts once and starts again, nested.  When the second
    process exits with code 0, the nested call makes a client and the
    outer call, resuming, makes another: [STARTED] is emitted three times,
    the state is [STARTED] with the second client, and the first client is
    neither referenced nor destroyed. *)
Theorem escalated_start_makes_two_clients (home : string) (s : System)
    (ds1 ds2 : list Event) (sig1 sig2 : option string) :
  jobs s = [] -> task s = None -> currentType (mk s) = None ->
  internalState (mk s) = STOPPED ->
  forallb is_data ds1 = true -> forallb is_data ds2 = true ->
  noticed ds1 false = true ->
  exists s',
    run home s
      (CallStart :: ds1 ++ ProcessExit (Some 80%Z) sig1 :: SudoDone true :: ds2 ++
       [ProcessExit (Some 0%Z) sig2; RunJob; RunJob; RunJob]) = Some s' /\
    effects (mk s') =
      effects (mk s) ++
      [StateChanged STARTING;
       Spawned (allocated (mk s)) (start_args (cfg (mk s)));
       SudoPrompt;
       StateChanged STARTING;
       Spawned (S (allocated (mk s))) (start_args (cfg (mk s)));
       StateChanged STARTED;
       StateChanged STARTED;
       ClientCreated (S (S (allocated (mk s))));
       StateChanged STARTED;
       ClientCreated (S (S (S (allocated (mk s)))));
       Returned OpStart (Resolved None)] /\
    internalState (mk s') = STARTED /\
    client (mk s') = Some (S (S (S (allocated (mk s))))) /\
    currentType (mk s') = None /\ task s' = None /\ jobs s' = [].
Proof.
  intros Hjobs Htask Hlock Hstate Hds1 Hds2 Hperms.
  destruct s as [m t j]; simpl in *; subst t j.
  unfold step at 1, macro, start_begin; simpl. rewrite Hlock, Hstate. simpl.
  rewrite run_app, run_data_start by exact Hds1. simpl.
  unfold step at 1, macro, start_on_exit; simpl. rewrite Hperms. simpl.
  rewrite run_app, run_data_start by exact Hds2. simpl.
  eexists; split; [reflexivity |]. simpl.
  repeat split; by rewrite <- ?app_assoc.
Qed.

Lemma escalated_start_makes_two_clients_witness :
  exists s',
    run Sample.home (init Sample.cfg)
      (CallStart ::
       [StdoutData "X The 'hyperkit' driver requires elevated permissions. Run: sudo chown"]
       ++ ProcessExit (Some 80%Z) None :: SudoDone true :: [] ++
       [ProcessExit (Some 0%Z) None; RunJob; RunJob; RunJob]) = Some s' /\
    effects (mk s') =
      [] ++
      [StateChanged STARTING; Spawned 0 (start_args Sample.cfg); SudoPrompt;
       StateChanged STARTING; Spawned 1 (start_args Sample.cfg);
       StateChanged STARTED; StateChanged STARTED; ClientCreated 2;
       StateChanged STARTED; ClientCreated 3; Returned OpStart (Resolved None)] /\
    internalState (mk s') = STARTED /\
    client (mk s') = Some 3 /\
    currentType (mk s') = None /\ task s' = None /\ jobs s' = [].
Proof.
  apply (escalated_start_makes_two_clients Sample.home (init Sample.cfg)
           [StdoutData "X The 'hyperkit' driver requires elevated permissions. Run: sudo chown"]
           [] None None); reflexivity.
Defined.

(** X6.  The escalation happens once.  When the nested [minikube start]
    exits with code 80 as well, whatever it printed, there is no second
    prompt: the state becomes [ERROR] and the outer call is rejected with
    the code and the reformatted standard error of the nested process. *)
Theorem nested_start_never_escalates (home : string) (s : System)
    (permsMsg : bool) (errorMessage : string) (sig : option string) :
  jobs s = [] -> task s = Some (StartProcess true false permsMsg errorMessage) ->
  sig <> Some "SIGINT" ->
  exists s',
    run home s [ProcessExit (Some 80%Z) sig; RunJob] = Some s' /\
    effects (mk s') =
      effects (mk s) ++ [StateChanged ERROR] ++ destroyed (mk s) ++
      [Returned OpStart
         (Rejected (Fail "starting minikube" (Some 80%Z)
                      (Message.customizeMinikubeMessage home errorMessage)))] /\
    internalState (mk s') = ERROR /\ client (mk s') = None /\
    currentType (mk s') = None /\ task s' = None /\ jobs s' = [].
Proof.
  intros Hjobs Htask Hsig.
  destruct s as [m t j]; simpl in *; subst t j.
  unfold step, macro, start_on_exit; simpl.
  rewrite andb_false_r. simpl. rewrite (bool_decide_eq_false_2 _ Hsig). simpl.
  unfold destroyed, destroy_client. simpl.
  destruct (client m); simpl; eexists; (split; [reflexivity |]); simpl;
    repeat split; by rewrite <- ?app_assoc.
Qed.

(** The nested [minikube start] of an escalated call runs and has
    printed the same complaint. *)
Definition escalated : System :=
  Eval vm_compute in
    Sample.after
      [CallStart;
       StdoutData "X The 'hyperkit' driver requires elevated permissions.";
       ProcessExit (Some 80%Z) None; SudoDone true;
       StdoutData "X The 'hyperkit' driver requires elevated permissions."].

Lemma nested_start_never_escalates_witness :
  exists s',
    run Sample.home escalated [ProcessExit (Some 80%Z) None; RunJob] = Some s' /\
    effects (mk s') =
      effects (mk escalated) ++ [StateChanged ERROR] ++ [] ++
      [Returned OpStart
         (Rejected (Fail "starting minikube" (Some 80%Z)
                      (Message.customizeMinikubeMessage Sample.home EmptyString)))] /\
    internalState (mk s') = ERROR /\ client (mk s') = None /\
    currentType (mk s') = None /\ task s' = None /\ jobs s' = [].
Proof.
  apply (nested_start_never_escalates Sample.home escalated true EmptyString None);
    [reflexivity | reflexivity | discriminate].
Defined.

(** *** [reset()] *)

(** X7.  [reset()], called while the lock is free.  Outside the state
    [STARTED] it resolves at once and does nothing else.  In state
    [STARTED] it emits [STARTING], destroys the client and spawns its
    first command, [ssh -- sudo systemctl stop kubelet.service], without
    pipes; [exec] throws at once for the missing pipe, and nothing else
    can happen before [reset] is in its [catch]: the state becomes
    [ERROR], the old client is destroyed a second time before the
    reference is cleared, and the call is rejected with the context and
    no message.  None of the three later commands is spawned and no new
    client is made.  The lock is released without the process having
    exited, and its exit is never looked at. *)
Theorem reset_spawns_one_command_and_fails (home : string) (s : System) :
  jobs s = [] -> task s = None -> currentType (mk s) = None ->
  (internalState (mk s) <> STARTED ->
   step home s CallReset =
     Some {| mk := emit (Returned OpReset (Resolved None)) (mk s);
             task := None; jobs := [] |}) /\
  (internalState (mk s) = STARTED ->
   exists s1 s2,
     step home s CallReset = Some s1 /\
     (forall e s', step home s1 e = Some s' -> e = ExecDone false None) /\
     step home s1 (ExecDone false None) = Some s2 /\
     effects (mk s2) =
       effects (mk s) ++ [StateChanged STARTING] ++ destroyed (mk s) ++
       [Spawned (allocated (mk s)) (reset_command 0); StateChanged ERROR] ++
       destroyed (mk s) ++
       [Returned OpReset (Rejected (ResetFail None))] /\
     internalState (mk s2) = ERROR /\
     client (mk s2) = None /\
     currentType (mk s2) = None /\ current (mk s2) = None /\
     task s2 = None /\ jobs s2 = [] /\
     forall code sig, step home s2 (ProcessExit code sig) = None).
Proof.
  intros Hjobs Htask Hlock.
  destruct s as [m t j]; simpl in *; subst t j. split.
  - intros Hstate. unfold step, macro, reset_begin; simpl.
    by rewrite Hlock, (bool_decide_eq_false_2 _ Hstate).
  - intros Hstate. unfold destroyed.
    destruct (client m) as [c |] eqn:Hclient.
    all: unfold step at 1, macro, reset_begin, exec_inherit; simpl.
    all: rewrite Hlock, Hstate; simpl.
    all: unfold destroy_client; simpl; rewrite Hclient.
    all: do 2 eexists; (split; [reflexivity |]); split.
    all: try (intros e s';
              destruct e as [| | | | cf | d | d | code sg | [] | [] [] |];
              unfold step, macro; simpl; try discriminate; done).
    all: unfold step, macro, reset_fail, error_stderr, destroy_client; simpl.
    all: rewrite ?Hclient; simpl.
    all: (split; [reflexivity |]).
    all: repeat (progress (simpl; unfold destroy_client; rewrite ?Hclient)).
    all: repeat split; rewrite <- ?app_assoc; reflexivity.
Qed.

Lemma reset_spawns_one_command_and_fails_witness :
  step Sample.home Sample.failed CallReset =
    Some {| mk := emit (Returned OpReset (Resolved None)) (mk Sample.failed);
            task := None; jobs := [] |} /\
  exists s1 s2,
    step Sample.home Sample.started CallReset = Some s1 /\
    (forall e s', step Sample.home s1 e = Some s' -> e = ExecDone false None) /\
    step Sample.home s1 (ExecDone false None) = Some s2 /\
    effects (mk s2) =
      effects (mk Sample.started) ++ [StateChanged STARTING] ++ [ClientDestroyed 1] ++
      [Spawned 2 (reset_command 0); StateChanged ERROR] ++ [ClientDestroyed 1] ++
      [Returned OpReset (Rejected (ResetFail None))] /\
    internalState (mk s2) = ERROR /\
    client (mk s2) = None /\
    currentType (mk s2) = None /\ current (mk s2) = None /\
    task s2 = None /\ jobs s2 = [] /\
    forall code sig, step Sample.home s2 (ProcessExit code sig) = None.
Proof.
  split.
  - apply (proj1 (reset_spawns_one_command_and_fails Sample.home Sample.failed
                    eq_refl eq_refl eq_refl)).
    discriminate.
  - apply (proj2 (reset_spawns_one_command_and_fails Sample.home Sample.started
                    eq_refl eq_refl eq_refl) eq_refl).
Defined.

(** *** [del()] *)

(** X8.  [del()], called while the lock is free, never touches the
    state: from the call to the exit of [minikube delete] the state and
    the client reference stay what they were and nothing is emitted with
    ['state-changed'], also when the deletion fails.  The call is rejected
    with 1 when the state is not [STOPPED]; otherwise it resolves
    with the exit code 0 or is rejected with the code and all that the
    process wrote to its standard error. *)
Theorem del_never_changes_the_state (home : string) (s : System)
    (ds : list Event) (code : option Z) (sig : option string) :
  jobs s = [] -> task s = None -> currentType (mk s) = None ->
  forallb is_data ds = true ->
  exists s',
    run home s (CallDel :: ds ++ [ProcessExit code sig]) = Some s' /\
    effects (mk s') =
      effects (mk s) ++
      [Spawned (allocated (mk s)) delete_args;
       Returned OpDel
         (if bool_decide (internalState (mk s) = STOPPED) then
            if bool_decide (code = Some 0%Z) then Resolved (Some 0%Z)
            else Rejected (Fail "deleting minikube" code (collected ds EmptyString))
          else Rejected (Value 1))] /\
    internalState (mk s') = internalState (mk s) /\
    client (mk s') = client (mk s) /\
    currentType (mk s') = None /\ task s' = None /\ jobs s' = [].
Proof.
  intros Hjobs Htask Hlock Hds.
  destruct s as [m t j]; simpl in *; subst t j.
  unfold step at 1, macro, del_begin; simpl. rewrite Hlock.
  destruct (bool_decide_reflect (internalState m = STOPPED)) as [Hstate | Hstate]; simpl;
    rewrite run_app, run_data_del by exact Hds; simpl;
    unfold step, macro, del_on_exit, settle; simpl.
  - destruct (bool_decide_reflect (code = Some 0%Z)) as [-> | Hcode]; simpl;
      eexists; (split; [reflexivity |]); simpl; repeat split; by rewrite <- ?app_assoc.
  - destruct (bool_decide (code = Some 0%Z)); simpl;
      eexists; (split; [reflexivity |]); simpl; repeat split; by rewrite <- ?app_assoc.
Qed.

Lemma del_never_changes_the_state_witness :
  exists s',
    run Sample.home (init Sample.cfg)
      (CallDel :: [StderrData "no profile"] ++ [ProcessExit (Some 1%Z) None]) = Some s' /\
    effects (mk s') =
      [] ++
      [Spawned 0 delete_args;
       Returned OpDel (Rejected (Fail "deleting minikube" (Some 1%Z) "no profile"))] /\
    internalState (mk s') = STOPPED /\
    client (mk s') = None /\
    currentType (mk s') = None /\ task s' = None /\ jobs s' = [].
Proof.
  apply (del_never_changes_the_state Sample.home (init Sample.cfg)
           [StderrData "no profile"] (Some 1%Z) None); reflexivity.
Defined.

(** *** [factoryReset()] *)

Import FactoryReset.

Definition clean (code : option Z) : bool :=
  bool_decide (code = Some 0%Z) || bool_decide (code = None).

(** How the awaited [del()] ends for the answers [env]. *)
Definition after_delete (env : Answers) : Outcome :=
  if bool_decide (del_code env = Some 0%Z)
  then (if rm_ok env then Removed else RemoveFailed)
  else Failed (Fail "deleting minikube" (del_code env) (del_stderr env)).

(** X9.  [factoryReset()] on a free lock.  From state [STOPPED] it only
    spawns [minikube delete].  From any other state it stops the cluster
    first; when [minikube stop] fails, the state is [ERROR], the call is
    rejected with the failure of [stop()] and [minikube delete] is never
    spawned; when it goes through, the state is [STOPPED] and [minikube
    delete] is spawned.  The data directory is removed only after
    [minikube delete] has exited with code 0.  The guard of [del()] against
    a running cluster never fires, and the call never leaves the state
    [STARTING] or [STARTED] behind: it does not start the cluster again. *)
Theorem factoryReset_stops_then_deletes (env : Answers) (m : Minikube) :
  let '(m', outcome) := factoryReset env m in
  (internalState m = STOPPED ->
   effects m' = effects m ++ [Spawned (allocated m) delete_args] /\
   internalState m' = STOPPED /\ client m' = client m /\
   outcome = after_delete env) /\
  (internalState m <> STOPPED -> clean (stop_code env) = false ->
   effects m' =
     effects m ++ [StateChanged STOPPING] ++ destroyed m ++
     [Spawned (allocated m) stop_args; StateChanged ERROR] /\
   internalState m' = ERROR /\ client m' = None /\
   outcome = Failed (Fail "stopping minikube" (stop_code env) (stop_stderr env))) /\
  (internalState m <> STOPPED -> clean (stop_code env) = true ->
   effects m' =
     effects m ++ [StateChanged STOPPING] ++ destroyed m ++
     [Spawned (allocated m) stop_args; StateChanged STOPPED;
      Spawned (S (allocated m)) delete_args] /\
   internalState m' = STOPPED /\ client m' = None /\
   outcome = after_delete env) /\
  outcome <> Failed (Value 1) /\
  tears_down (internalState m') /\
  currentType m' = None.
Proof.
  unfold factoryReset, stop_begin, stop_on_exit, del_begin, del_on_exit, after_delete,
    clean, destroyed, tears_down.
  destruct (client m) as [c |] eqn:Hclient;
    destruct (bool_decide_reflect (internalState m = STOPPED)) as [Hstate | Hstate];
    destruct (bool_decide (stop_code env = Some 0%Z) || bool_decide (stop_code env = None));
    destruct (bool_decide (del_code env = Some 0%Z)), (rm_ok env);
    repeat (progress (simpl; unfold destroy_client; rewrite ?Hclient, ?Hstate));
    repeat split; try done; auto;
    intros; rewrite <- ?app_assoc; reflexivity.
Qed.

Lemma factoryReset_stops_then_deletes_witness :
  effects (fst (factoryReset
                  {| stop_code := Some 0%Z; stop_stderr := EmptyString;
                     del_code := Some 0%Z; del_stderr := EmptyString; rm_ok := true |}
                  (mk Sample.started))) =
    effects (mk Sample.started) ++ [StateChanged STOPPING] ++ [ClientDestroyed 1] ++
    [Spawned 2 stop_args; StateChanged STOPPED; Spawned 3 delete_args] /\
  internalState (fst (factoryReset
                  {| stop_code := Some 0%Z; stop_stderr := EmptyString;
                     del_code := Some 0%Z; del_stderr := EmptyString; rm_ok := true |}
                  (mk Sample.started))) = STOPPED /\
  client (fst (factoryReset
                  {| stop_code := Some 0%Z; stop_stderr := EmptyString;
                     del_code := Some 0%Z; del_stderr := EmptyString; rm_ok := true |}
                  (mk Sample.started))) = None /\
  snd (factoryReset
                  {| stop_code := Some 0%Z; stop_stderr := EmptyString;
                     del_code := Some 0%Z; del_stderr := EmptyString; rm_ok := true |}
                  (mk Sample.started)) = Removed.
Proof.
  pose proof (factoryReset_stops_then_deletes
                {| stop_code := Some 0%Z; stop_stderr := EmptyString;
                   del_code := Some 0%Z; del_stderr := EmptyString; rm_ok := true |}
                (mk Sample.started)) as H.
  destruct (factoryReset _ (mk Sample.started)) as [m' outcome].
  destruct H as (_ & _ & H & _).
  apply H; [discriminate | reflexivity].
Defined.

(** *** The getters and the reasons to restart *)

Lemma or_zero_eq x : (Getters.or_zero x == x)%Q.
Proof.
  unfold Getters.or_zero. destruct (Qeq_bool x 0) eqn:E; [| reflexivity].
  apply Qeq_bool_iff in E. by rewrite E.
Qed.

Lemma cmp_empty_iff key actual desired (results : gmap string (list jsval)) :
  cmp key actual desired results !! key = Some [] <-> strict_eq actual desired = true.
Proof.
  unfold cmp. rewrite lookup_insert_eq. by destruct (strict_eq actual desired).
Qed.

(** X10.  With a running configuration on disk whose [Memory] is a whole
    number of megabytes below 2^53, [requiresRestartReasons()] and the
    getters agree: the reason [cpu] is empty exactly when [cpus] is the
    number of CPUs wanted, and the reason [memory] is empty exactly when
    [memory] is 1024 times the gigabytes wanted. *)
Theorem reasons_agree_with_getters (m : Minikube) (file : ConfigFile)
    (config : MinikubeConfiguration) :
  internalState m = STARTED -> file = Parsed config -> whole_number (Memory config) ->
  exists results c mem,
    requiresRestartReasons m file = Normal results /\
    Getters.cpus m file = Normal c /\
    Getters.memory m file = Normal mem /\
    (results !! "cpu" = Some [] <-> (c == Config.numberCPUs (cfg m))%Q) /\
    (results !! "memory" = Some [] <-> (mem == 1024 * Config.memoryInGB (cfg m))%Q).
Proof.
  intros Hstate -> _.
  unfold requiresRestartReasons, Getters.cpus, Getters.memory, minikubeConfig.
  rewrite Hstate. simpl. do 3 eexists. do 3 (split; [reflexivity |]). split.
  - unfold cmp at 1 2. do 2 (rewrite lookup_insert_ne by done).
    rewrite cmp_empty_iff. simpl. rewrite Qeq_bool_iff. by rewrite or_zero_eq.
  - unfold cmp at 1. rewrite lookup_insert_ne by done.
    rewrite cmp_empty_iff. simpl. rewrite Qeq_bool_iff, or_zero_eq.
    split; intros H.
    + rewrite <- H. field.
    + rewrite H. field.
Qed.

Lemma reasons_agree_with_getters_witness :
  exists results c mem,
    requiresRestartReasons (mk Sample.started) (Parsed Sample.config) = Normal results /\
    Getters.cpus (mk Sample.started) (Parsed Sample.config) = Normal c /\
    Getters.memory (mk Sample.started) (Parsed Sample.config) = Normal mem /\
    (results !! "cpu" = Some [] <-> (c == 4)%Q) /\
    (results !! "memory" = Some [] <-> (mem == 1024 * 2)%Q).
Proof.
  apply (reasons_agree_with_getters (mk Sample.started) (Parsed Sample.config)
           Sample.config); [reflexivity | reflexivity |].
  exists 2048%Z. split; reflexivity.
Defined.

End LifecycleSpec.

(* ===================================================================== *)
(** ** More on the forwarding table                                       *)
(* ===================================================================== *)

Module TableSpec.
Import JS Regex RegexFacts ForwardingMap ForwardingMapSpec.

(** *** The underlying map *)

(** No key twice. *)
Definition unique (m : ForwardingMap.t) : Prop := NoDup (m.*1).

Lemma map_get_None k (m : ForwardingMap.t) : map_get k m = None <-> k ∉ m.*1.
Proof.
  induction m as [| [k' v] m IH]; csimpl.
  - split; [intros _; apply not_elem_of_nil | done].
  - rewrite not_elem_of_cons. case_bool_decide as Hk.
    + split; [done | intros [Hne _]; congruence].
    + rewrite IH. split; [intros H; split; [congruence | done] | by intros [_ H]].
Qed.

Lemma map_get_set_other k k' v (m : ForwardingMap.t) :
  k' <> k -> map_get k' (map_set k v m) = map_get k' m.
Proof.
  intros Hne. induction m as [| [k0 v0] m IH]; csimpl.
  - by rewrite bool_decide_eq_false_2.
  - destruct (bool_decide_reflect (k0 = k)) as [-> | Hk]; csimpl.
    + by rewrite !bool_decide_eq_false_2 by congruence.
    + by rewrite IH.
Qed.

Lemma map_get_delete_other k k' (m : ForwardingMap.t) :
  k' <> k -> map_get k' (map_delete k m) = map_get k' m.
Proof.
  intros Hne. induction m as [| [k0 v0] m IH]; csimpl; [done |].
  destruct (bool_decide_reflect (k0 = k)) as [-> | Hk]; csimpl.
  - by rewrite bool_decide_eq_false_2 by congruence.
  - by rewrite IH.
Qed.

Lemma map_delete_keys k (m : ForwardingMap.t) : (map_delete k m).*1 `sublist_of` m.*1.
Proof.
  induction m as [| [k0 v0] m IH]; csimpl; [done |].
  case_bool_decide; csimpl; [by apply sublist_cons | by apply sublist_skip].
Qed.

Lemma map_get_delete k (m : ForwardingMap.t) :
  unique m -> map_get k (map_delete k m) = None.
Proof.
  unfold unique. induction m as [| [k0 v0] m IH]; csimpl; [done |].
  rewrite NoDup_cons. intros [Hk0 Hm].
  destruct (bool_decide_reflect (k0 = k)) as [-> | Hk]; csimpl.
  - by apply map_get_None.
  - rewrite bool_decide_eq_false_2 by done. by apply IH.
Qed.

Lemma map_set_keys k v (m : ForwardingMap.t) :
  (map_set k v m).*1 = if bool_decide (k ∈ m.*1) then m.*1 else m.*1 ++ [k].
Proof.
  induction m as [| [k0 v0] m IH]; csimpl; [done |].
  destruct (bool_decide_reflect (k0 = k)) as [-> | Hk]; csimpl.
  - rewrite bool_decide_eq_true_2; [done | by left].
  - rewrite IH. destruct (bool_decide_reflect (k ∈ m.*1)) as [Hin | Hin].
    + rewrite bool_decide_eq_true_2; [done | by right].
    + rewrite bool_decide_eq_false_2; [done |].
      rewrite elem_of_cons. intros [-> | H]; done.
Qed.

Lemma map_set_unique k v m : unique m -> unique (map_set k v m).
Proof.
  unfold unique. intros Hm. rewrite map_set_keys. case_bool_decide as Hk; [done |].
  apply NoDup_app. split; [done |]. split; [| apply NoDup_singleton].
  intros x Hx Hx'. apply list_elem_of_singleton in Hx'. by subst.
Qed.

Lemma map_delete_unique k m : unique m -> unique (map_delete k m).
Proof. unfold unique. intros Hm. eapply sublist_NoDup; [exact Hm | apply map_delete_keys]. Qed.

(** X11.  On a table that holds no key twice, as every table built with
    [set] and [delete] does: [get] after [set] gives the server just
    set, [get] after [delete] gives none, [has] tells whether [get] gives
    one, a triple with another key is not affected by either, and both
    leave a table that holds no key twice. *)
Theorem table_set_get_delete (m : ForwardingMap.t)
    (namespace namespace' : option string) (endpoint endpoint' : string)
    (port port' : jsnum) (server : nat) :
  unique m ->
  get namespace endpoint port (set namespace endpoint port server m) = Some server /\
  get namespace endpoint port (delete namespace endpoint port m) = None /\
  has namespace endpoint port m = bool_decide (is_Some (get namespace endpoint port m)) /\
  (key namespace' endpoint' port' <> key namespace endpoint port ->
   get namespace' endpoint' port' (set namespace endpoint port server m) =
     get namespace' endpoint' port' m /\
   get namespace' endpoint' port' (delete namespace endpoint port m) =
     get namespace' endpoint' port' m) /\
  unique (set namespace endpoint port server m) /\
  unique (delete namespace endpoint port m).
Proof.
  intros Hm. unfold get, set, delete, has, map_has.
  split; [apply map_get_set |].
  split; [by apply map_get_delete |].
  split; [by destruct (map_get _ m) |].
  split; [intros Hne; split;
          [by apply map_get_set_other | by apply map_get_delete_other] |].
  split; [by apply map_set_unique | by apply map_delete_unique].
Qed.

Lemma table_set_get_delete_witness :
  get (Some "default") "web" (Int 80)
    (set (Some "default") "web" (Int 80) 7 [("kube-system/dns:53", 0)]) = Some 7 /\
  get (Some "default") "web" (Int 80)
    (delete (Some "default") "web" (Int 80) [("kube-system/dns:53", 0)]) = None /\
  has (Some "default") "web" (Int 80) [("kube-system/dns:53", 0)] =
    bool_decide (is_Some (get (Some "default") "web" (Int 80) [("kube-system/dns:53", 0)])) /\
  (get (Some "kube-system") "dns" (Int 53)
     (set (Some "default") "web" (Int 80) 7 [("kube-system/dns:53", 0)]) =
     get (Some "kube-system") "dns" (Int 53) [("kube-system/dns:53", 0)] /\
   get (Some "kube-system") "dns" (Int 53)
     (delete (Some "default") "web" (Int 80) [("kube-system/dns:53", 0)]) =
     get (Some "kube-system") "dns" (Int 53) [("kube-system/dns:53", 0)]) /\
  unique (set (Some "default") "web" (Int 80) 7 [("kube-system/dns:53", 0)]) /\
  unique (delete (Some "default") "web" (Int 80) [("kube-system/dns:53", 0)]).
Proof.
  assert (unique [("kube-system/dns:53", 0)]) as Hm.
  { unfold unique. simpl. apply NoDup_singleton. }
  destruct (table_set_get_delete [("kube-system/dns:53", 0)] (Some "default")
              (Some "kube-system") "web" "dns" (Int 80) (Int 53) 7 Hm)
    as (H1 & H2 & H3 & H4 & H5 & H6).
  split; [exact H1 |]. split; [exact H2 |]. split; [exact H3 |].
  split; [apply H4; discriminate |]. split; [exact H5 | exact H6].
Defined.

(** *** Reading a port back from its digits *)

Lemma dec_value_digit_char d :
  (d < 10)%nat -> dec_value (digit_char d) = Some (Z.of_nat d).
Proof. intros H. do 10 (destruct d as [| d]; [reflexivity |]). lia. Qed.

Definition read_dec : option Z -> string -> option Z := read_digits dec_value 10.

Lemma read_dec_cons d acc s :
  (d < 10)%nat ->
  read_dec acc (String (digit_char d) s) =
  read_dec (Some (match acc with Some a => a * 10 + Z.of_nat d | None => Z.of_nat d end)%Z) s.
Proof. intros Hd. unfold read_dec. cbn [read_digits]. by rewrite dec_value_digit_char. Qed.

Lemma read_dec_pos_digits fuel : forall n acc,
  (n < 2 ^ N.of_nat fuel)%N -> (0 < fuel)%nat ->
  read_dec None (pos_digits fuel n acc) = read_dec (Some (Z.of_N n)) acc.
Proof.
  induction fuel as [| fuel IH]; intros n acc Hn Hfuel; [lia |].
  cbn [pos_digits].
  assert (N.to_nat (n mod 10) < 10)%nat as Hd.
  { pose proof (N.mod_lt n 10). lia. }
  destruct (N.ltb_spec n 10) as [Hsmall | Hbig].
  - rewrite read_dec_cons by exact Hd. rewrite N.mod_small by exact Hsmall.
    by rewrite N_nat_Z.
  - assert (0 < fuel)%nat as Hpos.
    { destruct fuel; [| lia]. simpl in Hn. lia. }
    rewrite IH; [| | exact Hpos].
    + rewrite read_dec_cons by exact Hd. f_equal. f_equal.
      rewrite N_nat_Z. pose proof (N.div_mod n 10). lia.
    + replace (N.of_nat (S fuel)) with (N.succ (N.of_nat fuel)) in Hn by lia.
      rewrite N.pow_succ_r' in Hn.
      apply N.Div0.div_lt_upper_bound. lia.
Qed.

Lemma read_dec_N_to_string n : read_dec None (N_to_string n) = Some (Z.of_N n).
Proof.
  unfold N_to_string. rewrite read_dec_pos_digits; [reflexivity | | lia].
  destruct n as [| p]; [reflexivity |].
  replace (N.of_nat (S (N.to_nat (N.log2 (N.pos p))))) with (N.succ (N.log2 (N.pos p)))
    by lia.
  apply N.log2_spec. lia.
Qed.

(** What [parseInt] needs to know of a digit. *)
Lemma digit_is_plain c :
  is_digit c = true ->
  is_space c = false /\ c <> "-"%char /\ c <> "+"%char /\ c <> "x"%char /\ c <> "X"%char.
Proof.
  destruct c as [[] [] [] [] [] [] [] []]; intros H; try discriminate H;
    repeat split; done.
Qed.

Lemma parseInt_decimal s :
  s <> EmptyString -> forallb_string is_digit s = true ->
  parseInt s = match read_dec None s with Some v => Int v | None => NaN end.
Proof.
  intros Hne Hs. destruct s as [| c r]; [done |].
  rewrite forallb_string_cons in Hs. apply andb_prop in Hs as [Hc Hr].
  destruct (digit_is_plain c Hc) as (Hspace & Hminus & Hplus & _).
  unfold parseInt. cbn [skip_spaces]. rewrite Hspace.
  assert (forall A (a b d : A),
            match String c r with
            | String "-"%char x => a
            | String "+"%char x => b
            | _ => d
            end = d) as Hsign.
  { intros A a b d.
    destruct c as [[] [] [] [] [] [] [] []]; try reflexivity; done. }
  assert (match String c r with
          | String "-"%char x => ((-1)%Z, x)
          | String "+"%char x => (1%Z, x)
          | _ => (1%Z, String c r)
          end = (1%Z, String c r)) as ->.
  { destruct c as [[] [] [] [] [] [] [] []]; try reflexivity; done. }
  clear Hsign.
  assert (match String c r with
          | String "0"%char (String "x"%char x) | String "0"%char (String "X"%char x) =>
              read_digits hex_value 16 None x
          | _ => read_digits dec_value 10 None (String c r)
          end = read_digits dec_value 10 None (String c r)) as ->.
  { destruct r as [| c2 r2].
    - destruct c as [[] [] [] [] [] [] [] []]; reflexivity.
    - rewrite forallb_string_cons in Hr. apply andb_prop in Hr as [Hc2 _].
      destruct (digit_is_plain c2 Hc2) as (_ & _ & _ & Hx & HX).
      destruct c as [[] [] [] [] [] [] [] []]; try reflexivity.
      destruct c2 as [[] [] [] [] [] [] [] []]; try reflexivity; done. }
  fold read_dec. destruct (read_dec None (String c r)) as [v |]; [| reflexivity].
  f_equal. apply Z.mul_1_l.
Qed.

Lemma parseInt_port port :
  (0 <= port)%Z -> parseInt (num_to_string (Int port)) = Int port.
Proof.
  intros Hport. destruct (port_digits port Hport) as [Hdigits Hne].
  rewrite parseInt_decimal by done.
  unfold num_to_string in *. rewrite (proj2 (Z.ltb_ge port 0) Hport) in *.
  rewrite read_dec_N_to_string. f_equal. lia.
Qed.


(** *** Keys and triples *)

(** The groups of the pattern of the iterator on the key of a triple. *)
Lemma key_groups namespace endpoint port :
  kube_triple namespace endpoint port ->
  exec_anchored key_pattern (key namespace endpoint (Int port)) =
    Some [key namespace endpoint (Int port); namespace_or_default namespace; endpoint;
          num_to_string (Int port)].
Proof.
  intros [Hns Hep Hne [Hport _] _].
  destruct (port_digits port Hport) as [Hdigits Hdne].
  rewrite key_eq. apply key_pattern_matches; auto using plain_no_slash, plain_no_colon.
Qed.

(** X12.  The key written for a triple named the way Kubernetes names
    its objects, with a port that is a natural number below 2^53 (from
    10^21 on the key holds an exponent and the pattern does not match
    it), can be read back: the three groups of the pattern of the
    iterator are the namespace (or [default]), the endpoint and the
    digits of the port, and [parseInt] of those digits is the port.
    Hence two such triples have the same key only if they agree on the
    namespace (an omitted or empty one counting as [default]), on the
    endpoint and on the port, and [get] for one never finds the listener
    of another. *)
Theorem keys_tell_triples_apart
    (namespace namespace' : option string) (endpoint endpoint' : string) (port port' : Z) :
  kube_triple namespace endpoint port ->
  kube_triple namespace' endpoint' port' ->
  (exists whole digits,
     exec_anchored key_pattern (key namespace endpoint (Int port)) =
       Some [whole; namespace_or_default namespace; endpoint; digits] /\
     parseInt digits = Int port) /\
  (key namespace endpoint (Int port) = key namespace' endpoint' (Int port') <->
   namespace_or_default namespace = namespace_or_default namespace' /\
   endpoint = endpoint' /\ port = port') /\
  (forall server m,
     key namespace endpoint (Int port) <> key namespace' endpoint' (Int port') ->
     get namespace' endpoint' (Int port') (set namespace endpoint (Int port) server m) =
       get namespace' endpoint' (Int port') m).
Proof.
  intros Hk Hk'.
  split; [| split].
  - do 2 eexists. split; [by apply key_groups |].
    apply parseInt_port. by destruct Hk as [_ _ _ [? _] _].
  - split.
    + intros Heq.
      pose proof (key_groups _ _ _ Hk) as H1.
      pose proof (key_groups _ _ _ Hk') as H2.
      rewrite Heq, H2 in H1. injection H1 as Hns Hep Hdigits.
      split; [done |]. split; [done |].
      pose proof (parseInt_port port ltac:(by destruct Hk as [_ _ _ [? _] _])) as Hp.
      pose proof (parseInt_port port' ltac:(by destruct Hk' as [_ _ _ [? _] _])) as Hp'.
      assert (parseInt (num_to_string (Int port)) =
              parseInt (num_to_string (Int port'))) as Hpp by (f_equal; done).
      rewrite Hp, Hp' in Hpp. by injection Hpp.
    + intros (Hns & -> & ->). by rewrite !key_eq, Hns.
  - intros server m Hne. unfold get, set. by apply map_get_set_other.
Qed.

Lemma keys_tell_triples_apart_witness :
  (exists whole digits,
     exec_anchored key_pattern (key None "web" (Int 80)) =
       Some [whole; "default"; "web"; digits] /\
     parseInt digits = Int 80) /\
  (key None "web" (Int 80) = key (Some "default") "web" (Int 80) <->
   "default" = "default" /\ "web" = "web" /\ 80%Z = 80%Z) /\
  (forall server m,
     key None "web" (Int 80) <> key (Some "default") "web" (Int 80) ->
     get (Some "default") "web" (Int 80) (set None "web" (Int 80) server m) =
       get (Some "default") "web" (Int 80) m).
Proof.
  apply (keys_tell_triples_apart None (Some "default") "web" "web" 80 80).
  - split; [reflexivity | reflexivity | discriminate | lia | exact I].
  - split; [reflexivity | reflexivity | discriminate | lia | exact I].
Defined.

End TableSpec.

(* ===================================================================== *)
(** ** The client on the event loop                                       *)
(* ===================================================================== *)

Module ClientRun.
Import JS KubeClient.

(** The cache after an event of the watch has changed a service: the
    services are [v], and their namespaces are indexed with the ones
    that were. *)
Definition with_services (v : list V1.Service) (c : KubeClient) : KubeClient :=
  {| shutdown := shutdown c; servers := servers c; listeners := listeners c;
     services := v; indexed := indexed c ++ namespaces v;
     subscribed := subscribed c; notified := notified c |}.

(** The cache after the watch has ended and the services were listed
    anew: their namespaces are indexed, and [stale] are the namespaces
    whose index was kept without a service. *)
Definition relisted (v : list V1.Service) (stale : list string) (c : KubeClient)
    : KubeClient :=
  {| shutdown := shutdown c; servers := servers c; listeners := listeners c;
     services := v; indexed := namespaces v ++ stale;
     subscribed := subscribed c; notified := notified c |}.

(** [cancelForwardPort], up to its [await]: the entry is deleted and the
    server told to close. *)
Definition cancelForwardPort_begin (namespace endpoint : string) (port : jsnum)
    (c : KubeClient) : KubeClient :=
  let server := ForwardingMap.get (Some namespace) endpoint port (servers c) in
  let c := with_servers (ForwardingMap.delete (Some namespace) endpoint port (servers c)) c in
  match server with
  | Some server => close server c
  | None => c
  end.

(** What runs on the client between two suspension points: the methods
    are cut at their [await]s, and the segments of several calls may
    follow each other in any order. *)
Inductive Segment :=
| Begin (namespace endpoint : string) (port : jsnum)
    (** [createForwardingServer] up to its [await] *)
| Heard (server : nat) (ev : ListenEvent)
    (** a server emits an event *)
| Resume (namespace endpoint : string) (port : jsnum) (server : nat) (ev : ListenEvent)
    (** [createForwardingServer] from its [await] *)
| CancelBegin (namespace endpoint : string) (port : jsnum)
    (** [cancelForwardPort] up to its [await] *)
| Refresh
    (** [cancelForwardPort] from its [await] *)
| Watched (services : list V1.Service)
    (** the watch has updated the cache and calls back *)
| Relisted (services : list V1.Service) (stale : list string)
    (** the cache has listed the services anew; nothing calls back *)
| Subscribe
    (** [client.on('service-changed', ...)] *)
| Destroy
    (** [destroy()] *).

Definition step (c : KubeClient) (s : Segment) : KubeClient :=
  match s with
  | Begin namespace endpoint port => (createForwardingServer_begin namespace endpoint port c).1
  | Heard server ev => deliver server ev c
  | Resume namespace endpoint port server ev =>
      (createForwardingServer_resume namespace endpoint port server ev c).1
  | CancelBegin namespace endpoint port => cancelForwardPort_begin namespace endpoint port c
  | Refresh => (emit_services c).1
  | Watched services => (emit_services (with_services services c)).1
  | Relisted services stale => relisted services stale c
  | Subscribe => with_subscribed true c
  | Destroy => destroy c
  end.

Definition run (c : KubeClient) (segments : list Segment) : KubeClient :=
  foldl step c segments.

(** The states a client can be in: whatever segments have run since
    [new KubeClient()], in whatever order. *)
Definition reachable (c : KubeClient) : Prop :=
  exists services segments, c = run (KubeClient.new services) segments.

End ClientRun.

Module ForwardingSpec.
Import JS ForwardingMap ForwardingMapSpec KubeClient ClientSpec TableSpec ClientRun.

(** *** The table and the listeners *)

(** No key twice, no server under two keys, and every server of the
    table is one the client has made. *)
Record Wf (c : KubeClient) : Prop := {
  wf_keys : NoDup (servers c).*1;
  wf_servers : NoDup (servers c).*2;
  wf_made : Forall (fun entry => entry.2 < length (listeners c)) (servers c);
}.

Lemma map_delete_sublist k (m : ForwardingMap.t) : map_delete k m `sublist_of` m.
Proof.
  induction m as [| [k0 v0] m IH]; csimpl; [done |].
  case_bool_decide; [by apply sublist_cons | by apply sublist_skip].
Qed.

Lemma Forall_sublist {A} (P : A -> Prop) (l l' : list A) :
  Forall P l -> l' `sublist_of` l -> Forall P l'.
Proof.
  intros Hl Hsub. induction Hsub as [| x l1 l2 _ IH | x l1 l2 _ IH]; [done | |].
  - apply Forall_cons in Hl as [Hx Hl]. apply Forall_cons. split; [done | by apply IH].
  - apply Forall_cons in Hl as [_ Hl]. by apply IH.
Qed.

Lemma Wf_sub c c' :
  Wf c -> servers c' `sublist_of` servers c ->
  length (listeners c') = length (listeners c) -> Wf c'.
Proof.
  intros [Hk Hs Hm] Hsub Hlen. split.
  - eapply sublist_NoDup; [exact Hk | by apply fmap_sublist].
  - eapply sublist_NoDup; [exact Hs | by apply fmap_sublist].
  - rewrite Hlen. eapply Forall_sublist; [exact Hm | exact Hsub].
Qed.

Lemma emit_services_same c :
  servers (emit_services c).1 = servers c /\
  listeners (emit_services c).1 = listeners c /\
  shutdown (emit_services c).1 = shutdown c /\
  subscribed (emit_services c).1 = subscribed c /\
  services (emit_services c).1 = services c.
Proof. unfold emit_services. by destruct (listServices None c). Qed.

Lemma destroy_loop_sub entries : forall c,
  servers (destroy_loop entries c) `sublist_of` servers c /\
  length (listeners (destroy_loop entries c)) = length (listeners c).
Proof.
  induction entries as [| [k server] entries IH]; intros c; [done |].
  cbn [destroy_loop]. destruct (map_has k (servers c)); [| apply IH].
  destruct (yield (k, server)) as [[[[ns ep] p] server'] |]; [| apply IH].
  destruct (IH (close server' (with_servers (delete (Some ns) ep p (servers c)) c)))
    as [Hs Hl].
  split.
  - etrans; [exact Hs |]. apply map_delete_sublist.
  - rewrite Hl. cbn. apply length_insert.
Qed.

Lemma Wf_new services : Wf (KubeClient.new services).
Proof. split; cbn; [apply NoDup_nil_2 | apply NoDup_nil_2 | apply Forall_nil_2]. Qed.

Lemma Wf_begin namespace endpoint port c :
  Wf c -> Wf (createForwardingServer_begin namespace endpoint port c).1.
Proof.
  intros Hc. unfold createForwardingServer_begin.
  destruct (get (Some namespace) endpoint port (servers c)) eqn:Hget; [exact Hc |].
  destruct Hc as [Hk Hs Hm]. unfold get, set in *. cbn.
  rewrite (map_set_absent _ _ _ Hget).
  split; cbn; rewrite ?fmap_app; csimpl.
  - apply NoDup_app. split; [exact Hk |]. split; [| apply NoDup_singleton].
    intros k Hin Hin'. apply list_elem_of_singleton in Hin' as ->.
    by apply map_get_None in Hget.
  - apply NoDup_app. split; [exact Hs |]. split; [| apply NoDup_singleton].
    intros v Hin Hin'. apply list_elem_of_singleton in Hin' as ->.
    apply list_elem_of_fmap in Hin as ([k v] & Hv & Hin). cbn in Hv.
    rewrite Forall_forall in Hm. specialize (Hm _ Hin). cbn in Hm. lia.
  - rewrite length_app. apply Forall_app. split.
    + eapply Forall_impl; [exact Hm |]. cbn. intros; lia.
    + apply Forall_singleton. cbn. lia.
Qed.

Lemma Wf_step c s : Wf c -> Wf (step c s).
Proof.
  intros Hc.
  destruct s as [ns ep p | server ev | ns ep p server ev | ns ep p | | sv | sv stale | |];
    cbn [step].
  - by apply Wf_begin.
  - eapply Wf_sub; [exact Hc | |]; destruct ev; cbn; by rewrite ?length_insert.
  - unfold createForwardingServer_resume. destruct ev; cbn; try exact Hc.
    destruct (emit_services_same
                (if bool_decide (get (Some ns) ep p (servers c) = Some server)
                 then c else close server c)) as (Hs & Hl & _).
    eapply Wf_sub; [exact Hc | rewrite Hs | rewrite Hl];
      case_bool_decide; cbn; by rewrite ?length_insert.
  - unfold cancelForwardPort_begin.
    eapply Wf_sub; [exact Hc | |];
      destruct (get (Some ns) ep p (servers c)); cbn;
      rewrite ?length_insert; try done; apply map_delete_sublist.
  - destruct (emit_services_same c) as (Hs & Hl & _).
    eapply Wf_sub; [exact Hc | by rewrite Hs | by rewrite Hl].
  - destruct (emit_services_same (with_services sv c)) as (Hs & Hl & _).
    eapply Wf_sub; [exact Hc | by rewrite Hs | by rewrite Hl].
  - eapply Wf_sub; [exact Hc | done | done].
  - eapply Wf_sub; [exact Hc | done | done].
  - destruct (destroy_loop_sub (servers c) (with_shutdown true c)) as [Hs Hl].
    eapply Wf_sub; [exact Hc | exact Hs | exact Hl].
Qed.

Lemma Wf_run segments : forall c, Wf c -> Wf (run c segments).
Proof.
  induction segments as [| s segments IH]; intros c Hc; [exact Hc |].
  apply IH. by apply Wf_step.
Qed.

Lemma reachable_Wf c : reachable c -> Wf c.
Proof. intros (services & segments & ->). apply Wf_run, Wf_new. Qed.

Lemma map_get_elem k v (m : ForwardingMap.t) : map_get k m = Some v -> (k, v) ∈ m.
Proof.
  induction m as [| [k0 v0] m IH]; csimpl; [done |].
  case_bool_decide as Hk.
  - intros [= ->]. subst. by left.
  - intros H. right. by apply IH.
Qed.

Lemma Wf_get_made c k v : Wf c -> map_get k (servers c) = Some v -> v < length (listeners c).
Proof.
  intros [_ _ Hm] Hget. rewrite Forall_forall in Hm.
  apply (Hm _ (map_get_elem _ _ _ Hget)).
Qed.

Lemma NoDup_snd_inj (m : ForwardingMap.t) k k' v :
  NoDup (m.*2) -> (k, v) ∈ m -> (k', v) ∈ m -> k = k'.
Proof.
  induction m as [| [k0 v0] m IH]; csimpl; [by intros _ H%elem_of_nil |].
  rewrite NoDup_cons. intros [Hv0 Hm] H1 H2.
  apply elem_of_cons in H1 as [H1 | H1]; apply elem_of_cons in H2 as [H2 | H2].
  - congruence.
  - injection H1 as -> ->. exfalso. apply Hv0. apply list_elem_of_fmap.
    by exists (k', v0).
  - injection H2 as -> ->. exfalso. apply Hv0. apply list_elem_of_fmap.
    by exists (k, v0).
  - by apply IH.
Qed.

Lemma Wf_get_inj c k k' v :
  Wf c -> map_get k (servers c) = Some v -> map_get k' (servers c) = Some v -> k = k'.
Proof.
  intros [_ Hs _] H1 H2.
  eapply NoDup_snd_inj; [exact Hs | by apply map_get_elem | by apply map_get_elem].
Qed.


(** X13.  Whatever has run on a client since it was made, in whatever
    order: its table holds no key twice, every server of the table is one
    that [createForwardingServer] has made, and no server stands under
    two keys. *)
Theorem every_forward_has_its_own_server (c : KubeClient) :
  reachable c ->
  unique (servers c) /\
  (forall namespace endpoint port server,
     get namespace endpoint port (servers c) = Some server ->
     is_Some (listeners c !! server)) /\
  (forall namespace endpoint port namespace' endpoint' port' server,
     get namespace endpoint port (servers c) = Some server ->
     get namespace' endpoint' port' (servers c) = Some server ->
     key namespace endpoint port = key namespace' endpoint' port').
Proof.
  intros Hc%reachable_Wf. split; [by destruct Hc |]. split.
  - intros ns ep p server Hget. apply lookup_lt_is_Some. by eapply Wf_get_made.
  - intros ns ep p ns' ep' p' server H1 H2. by eapply Wf_get_inj.
Qed.

Lemma every_forward_has_its_own_server_witness :
  unique (servers ClientSample.forwarding) /\
  (forall namespace endpoint port server,
     get namespace endpoint port (servers ClientSample.forwarding) = Some server ->
     is_Some (listeners ClientSample.forwarding !! server)) /\
  (forall namespace endpoint port namespace' endpoint' port' server,
     get namespace endpoint port (servers ClientSample.forwarding) = Some server ->
     get namespace' endpoint' port' (servers ClientSample.forwarding) = Some server ->
     key namespace endpoint port = key namespace' endpoint' port').
Proof.
  apply (every_forward_has_its_own_server ClientSample.forwarding).
  exists [ClientSample.web],
    [Begin "default" "web" (Int 80); Heard 0 (OnListening 40000);
     Resume "default" "web" (Int 80) 0 (OnListening 40000)].
  reflexivity.
Defined.

(** *** What one call changes *)

(** The server a new listener is left in by the event it answers
    [listen] with. *)
Definition left_in (ev : ListenEvent) : Listener :=
  match ev with
  | OnListening port => Listening port
  | OnError => Unbound
  | OnClose => Closed
  end.

Lemma insert_new {A} (l : list A) (x y : A) : <[length l := y]> (l ++ [x]) = l ++ [y].
Proof.
  rewrite insert_app_r_alt by lia. by rewrite Nat.sub_diag.
Qed.

Lemma create_fields namespace endpoint port ev c :
  get (Some namespace) endpoint port (servers c) = None ->
  servers (createForwardingServer namespace endpoint port ev c).1 =
    set (Some namespace) endpoint port (length (listeners c)) (servers c) /\
  listeners (createForwardingServer namespace endpoint port ev c).1 =
    listeners c ++ [left_in ev].
Proof.
  intros Hget. unfold createForwardingServer, createForwardingServer_begin.
  rewrite Hget. destruct ev as [local | |]; cbn.
  - unfold get, set. rewrite map_get_set, bool_decide_eq_true_2 by done.
    match goal with |- context [emit_services ?x] =>
      destruct (emit_services_same x) as (-> & -> & _) end.
    cbn. by rewrite insert_new.
  - done.
  - by rewrite insert_new.
Qed.

Lemma cancel_begin_fields namespace endpoint port c :
  servers (cancelForwardPort_begin namespace endpoint port c) =
    delete (Some namespace) endpoint port (servers c) /\
  listeners (cancelForwardPort_begin namespace endpoint port c) =
    match get (Some namespace) endpoint port (servers c) with
    | Some server => <[server := Closed]> (listeners c)
    | None => listeners c
    end.
Proof.
  unfold cancelForwardPort_begin.
  by destruct (get (Some namespace) endpoint port (servers c)).
Qed.

(** [cancelForwardPort] is its first segment, and [Refresh] if there was
    an entry. *)
Lemma cancel_split namespace endpoint port c :
  cancelForwardPort namespace endpoint port c =
    match get (Some namespace) endpoint port (servers c) with
    | Some _ => emit_services (cancelForwardPort_begin namespace endpoint port c)
    | None => (cancelForwardPort_begin namespace endpoint port c, Normal tt)
    end.
Proof.
  unfold cancelForwardPort, cancelForwardPort_begin.
  by destruct (get (Some namespace) endpoint port (servers c)).
Qed.

Lemma cancel_fields namespace endpoint port c :
  servers (cancelForwardPort namespace endpoint port c).1 =
    delete (Some namespace) endpoint port (servers c) /\
  listeners (cancelForwardPort namespace endpoint port c).1 =
    match get (Some namespace) endpoint port (servers c) with
    | Some server => <[server := Closed]> (listeners c)
    | None => listeners c
    end.
Proof.
  rewrite cancel_split.
  destruct (cancel_begin_fields namespace endpoint port c) as [Hs Hl].
  destruct (get (Some namespace) endpoint port (servers c)) eqn:Hget; [| done].
  destruct (emit_services_same (cancelForwardPort_begin namespace endpoint port c))
    as (-> & -> & _).
  done.
Qed.

Lemma cancel_gone namespace endpoint port c :
  Wf c ->
  get (Some namespace) endpoint port
    (servers (cancelForwardPort namespace endpoint port c).1) = None.
Proof.
  intros Hc. destruct (cancel_fields namespace endpoint port c) as [-> _].
  unfold get, delete. apply map_get_delete. by destruct Hc.
Qed.

Lemma forwardPort_fst namespace endpoint port ev c :
  (forwardPort namespace endpoint port ev c).1 =
  (createForwardingServer namespace endpoint port ev c).1.
Proof.
  unfold forwardPort.
  by destruct (createForwardingServer namespace endpoint port ev c) as [c' [[] | e]].
Qed.

(** X14.  Two triples with different keys do not disturb each other:
    whatever [forwardPort] or [cancelForwardPort] does for one of them,
    and however the new listener fares, [getForwardedPort] answers for
    the other what it answered before. *)
Theorem other_forwards_untouched
    (c : KubeClient) (namespace endpoint namespace' endpoint' : string)
    (port port' : jsnum) (ev : ListenEvent) :
  reachable c ->
  key (Some namespace') endpoint' port' <> key (Some namespace) endpoint port ->
  getForwardedPort namespace' endpoint' port' (forwardPort namespace endpoint port ev c).1 =
    getForwardedPort namespace' endpoint' port' c /\
  getForwardedPort namespace' endpoint' port' (cancelForwardPort namespace endpoint port c).1 =
    getForwardedPort namespace' endpoint' port' c.
Proof.
  intros Hc%reachable_Wf Hne. unfold getForwardedPort. split.
  - rewrite forwardPort_fst.
    destruct (get (Some namespace) endpoint port (servers c)) as [server |] eqn:Hget.
    + by rewrite (createForwardingServer_existing _ _ _ _ _ _ Hget).
    + destruct (create_fields namespace endpoint port ev c Hget) as [-> ->].
      unfold get, set. rewrite map_get_set_other by done.
      destruct (map_get (key (Some namespace') endpoint' port') (servers c))
        as [other |] eqn:Hother; [| done].
      cbn. rewrite lookup_app_l; [done | by eapply Wf_get_made].
  - destruct (cancel_fields namespace endpoint port c) as [-> ->].
    unfold get, delete. rewrite map_get_delete_other by done.
    destruct (map_get (key (Some namespace') endpoint' port') (servers c))
      as [other |] eqn:Hother; [| done].
    destruct (map_get (key (Some namespace) endpoint port) (servers c))
      as [server |] eqn:Hget; [| done].
    cbn. rewrite list_lookup_insert_ne; [done |].
    intros ->. apply Hne. by eapply Wf_get_inj.
Qed.

Lemma other_forwards_untouched_witness :
  getForwardedPort "default" "web" (Int 80)
    (forwardPort "default" "web" (Int 8080) OnError ClientSample.forwarding).1 =
    getForwardedPort "default" "web" (Int 80) ClientSample.forwarding /\
  getForwardedPort "default" "web" (Int 80)
    (cancelForwardPort "default" "web" (Int 8080) ClientSample.forwarding).1 =
    getForwardedPort "default" "web" (Int 80) ClientSample.forwarding.
Proof.
  apply (other_forwards_untouched ClientSample.forwarding "default" "web" "default" "web"
           (Int 8080) (Int 80) OnError).
  - exists [ClientSample.web],
      [Begin "default" "web" (Int 80); Heard 0 (OnListening 40000);
       Resume "default" "web" (Int 80) 0 (OnListening 40000)].
    reflexivity.
  - vm_compute. discriminate.
Defined.

(** X15.  [cancelForwardPort] forgets the triple and closes its server:
    afterwards the table has no entry for it, [getForwardedPort] answers
    [null], the server it stood for is closed and no other server has
    changed; a later [forwardPort] makes a new server; and for a triple
    that has no entry the call changes nothing and announces nothing. *)
Theorem cancel_forgets_and_closes
    (c : KubeClient) (namespace endpoint : string) (port : jsnum) :
  reachable c ->
  get (Some namespace) endpoint port
    (servers (cancelForwardPort namespace endpoint port c).1) = None /\
  getForwardedPort namespace endpoint port
    (cancelForwardPort namespace endpoint port c).1 = None /\
  (forall server,
     get (Some namespace) endpoint port (servers c) = Some server ->
     listeners (cancelForwardPort namespace endpoint port c).1 =
       <[server := Closed]> (listeners c) /\
     listeners (cancelForwardPort namespace endpoint port c).1 !! server = Some Closed) /\
  (forall ev,
     listeners
       (forwardPort namespace endpoint port ev
          (cancelForwardPort namespace endpoint port c).1).1 =
     listeners (cancelForwardPort namespace endpoint port c).1 ++ [left_in ev]) /\
  (get (Some namespace) endpoint port (servers c) = None ->
   cancelForwardPort namespace endpoint port c = (c, Normal tt)).
Proof.
  intros Hc%reachable_Wf.
  pose proof (cancel_gone namespace endpoint port c Hc) as Hgone.
  split; [exact Hgone |].
  split; [unfold getForwardedPort; by rewrite Hgone |].
  split; [| split].
  - intros server Hget.
    destruct (cancel_fields namespace endpoint port c) as [_ ->]. rewrite Hget.
    split; [done |]. apply list_lookup_insert_eq. by eapply Wf_get_made.
  - intros ev. rewrite forwardPort_fst.
    by destruct (create_fields namespace endpoint port ev _ Hgone) as [_ ->].
  - intros Hget. unfold cancelForwardPort. rewrite Hget.
    unfold get, delete in *. rewrite map_delete_absent.
    + by destruct c.
    + intros k' v Hin ->. apply map_get_None in Hget. apply Hget.
      apply list_elem_of_fmap. exists (key (Some namespace) endpoint port, v).
      split; [done |]. by apply list_elem_of_In.
Qed.

Lemma cancel_forgets_and_closes_witness :
  get (Some "default") "web" (Int 80)
    (servers (cancelForwardPort "default" "web" (Int 80) ClientSample.forwarding).1) = None /\
  getForwardedPort "default" "web" (Int 80)
    (cancelForwardPort "default" "web" (Int 80) ClientSample.forwarding).1 = None /\
  (forall server,
     get (Some "default") "web" (Int 80) (servers ClientSample.forwarding) = Some server ->
     listeners (cancelForwardPort "default" "web" (Int 80) ClientSample.forwarding).1 =
       <[server := Closed]> (listeners ClientSample.forwarding) /\
     listeners (cancelForwardPort "default" "web" (Int 80) ClientSample.forwarding).1
       !! server = Some Closed) /\
  (forall ev,
     listeners
       (forwardPort "default" "web" (Int 80) ev
          (cancelForwardPort "default" "web" (Int 80) ClientSample.forwarding).1).1 =
     listeners (cancelForwardPort "default" "web" (Int 80) ClientSample.forwarding).1
       ++ [left_in ev]) /\
  (get (Some "default") "web" (Int 80) (servers ClientSample.forwarding) = None ->
   cancelForwardPort "default" "web" (Int 80) ClientSample.forwarding =
     (ClientSample.forwarding, Normal tt)).
Proof.
  apply (cancel_forgets_and_closes ClientSample.forwarding "default" "web" (Int 80)).
  exists [ClientSample.web],
    [Begin "default" "web" (Int 80); Heard 0 (OnListening 40000);
     Resume "default" "web" (Int 80) 0 (OnListening 40000)].
  reflexivity.
Defined.


(** *** [listServices] *)

(** What [listServices] reads of the table for one port of one service. *)
Definition registered (c : KubeClient) (service : V1.Service) (port : V1.ServicePort)
    : option nat :=
  get (V1.metadata service ≫= V1.namespace)
    (default EmptyString (V1.metadata service ≫= V1.name)) (V1.targetPort port)
    (servers c).

Definition ports_of (service : V1.Service) : list V1.ServicePort :=
  default [] (V1.spec service ≫= V1.ports).

(** The entry of a port whose triple has no entry, or one with a server
    that has an address. *)
Definition entry (c : KubeClient) (service : V1.Service) (port : V1.ServicePort)
    : ServiceEntry.t :=
  {| ServiceEntry.namespace := V1.metadata service ≫= V1.namespace;
     ServiceEntry.name := default EmptyString (V1.metadata service ≫= V1.name);
     ServiceEntry.portName := V1.port_name port;
     ServiceEntry.port := V1.targetPort port;
     ServiceEntry.listenPort :=
       registered c service port ≫= (fun server => listeners c !! server ≫= address) |}.

(** Every listed port that has an entry in the table has a server with
    an address. *)
Definition answerable (namespace : option string) (c : KubeClient) : Prop :=
  forall service port server,
    In service (list_cache namespace c) -> In port (ports_of service) ->
    registered c service port = Some server ->
    is_Some (listeners c !! server ≫= address).

Lemma service_entry_normal c service port :
  (forall server, registered c service port = Some server ->
                  is_Some (listeners c !! server ≫= address)) <->
  service_entry c service port = Normal (entry c service port).
Proof.
  unfold service_entry, entry, registered.
  destruct (get _ _ _ (servers c)) as [server |]; cbn; [| done].
  destruct (listeners c !! server ≫= address) as [local |] eqn:Haddress; cbn.
  - split; [done | intros _ s [= <-]; by rewrite Haddress].
  - split; [| done]. intros H. destruct (H server eq_refl) as [local Hlocal].
    congruence.
Qed.

Lemma service_entry_cases c service port :
  service_entry c service port = Normal (entry c service port) \/
  service_entry c service port = Throw TypeError.
Proof.
  unfold service_entry, entry, registered.
  destruct (get _ _ _ (servers c)) as [server |]; cbn; [| by left].
  destruct (listeners c !! server ≫= address); cbn; [by left | by right].
Qed.

Lemma map_completion_normal {A B} (f : A -> Completion B) (g : A -> B) xs :
  (forall x, In x xs -> f x = Normal (g x)) -> map_completion f xs = Normal (map g xs).
Proof.
  induction xs as [| x xs IH]; intros H; cbn; [done |].
  rewrite (H x) by (by left). rewrite IH; [done |]. intros y Hy. apply H. by right.
Qed.

Lemma map_completion_inv {A B} (f : A -> Completion B) xs ys x :
  map_completion f xs = Normal ys -> In x xs -> exists y, f x = Normal y.
Proof.
  revert ys. induction xs as [| x0 xs IH]; intros ys; cbn; [done |].
  destruct (f x0) as [y0 |] eqn:Hx0; [| done].
  destruct (map_completion f xs) as [ys' |] eqn:Hxs; [| done].
  intros _ [<- | Hin]; [by eexists | by eapply IH].
Qed.

Lemma flatMap_completion_normal {A B} (f : A -> Completion (list B)) (g : A -> list B) xs :
  (forall x, In x xs -> f x = Normal (g x)) ->
  flatMap_completion f xs = Normal (flat_map g xs).
Proof.
  induction xs as [| x xs IH]; intros H; cbn; [done |].
  rewrite (H x) by (by left). rewrite IH; [done |]. intros y Hy. apply H. by right.
Qed.

Lemma flatMap_completion_inv {A B} (f : A -> Completion (list B)) xs ys x :
  flatMap_completion f xs = Normal ys -> In x xs -> exists y, f x = Normal y.
Proof.
  revert ys. induction xs as [| x0 xs IH]; intros ys; cbn; [done |].
  destruct (f x0) as [y0 |] eqn:Hx0; [| done].
  destruct (flatMap_completion f xs) as [ys' |] eqn:Hxs; [| done].
  intros _ [<- | Hin]; [by eexists | by eapply IH].
Qed.

Lemma listServices_answerable namespace c :
  listed namespace c = true ->
  answerable namespace c ->
  listServices namespace c =
    Normal (flat_map (fun service => map (entry c service) (ports_of service))
              (list_cache namespace c)).
Proof.
  intros Hlisted Hc. unfold listServices. rewrite Hlisted.
  apply flatMap_completion_normal. intros service Hservice.
  apply map_completion_normal. intros port Hport.
  apply service_entry_normal. intros server. by apply Hc.
Qed.

(** X16.  [listServices(namespace)] returns if, and only if, the cache
    gives an array for [namespace] and every port of that array that has
    an entry in the table has a server with an address; it then returns
    one entry for each port of each service of the array, in the order of
    the cache, whose [listenPort] is the address of the server of the
    port, or [undefined] where the table has no entry.  Otherwise it
    throws a [TypeError].  The cache gives all its services when
    [namespace] is left out or empty, and no array for a namespace it
    keeps no index for: there [listServices] throws, whatever the table
    holds. *)
Theorem listServices_returns_iff_answerable (namespace : option string) (c : KubeClient) :
  (listed namespace c = true /\ answerable namespace c <->
   exists entries, listServices namespace c = Normal entries) /\
  (forall entries,
     listServices namespace c = Normal entries ->
     entries = flat_map (fun service => map (entry c service) (ports_of service))
                 (list_cache namespace c)) /\
  (forall e, listServices namespace c = Throw e -> e = TypeError) /\
  listServices (Some EmptyString) c = listServices None c /\
  (forall n, n <> EmptyString -> n ∉ indexed c ->
             listServices (Some n) c = Throw TypeError).
Proof.
  assert (forall entries, listServices namespace c = Normal entries ->
                          listed namespace c = true /\ answerable namespace c) as Hback.
  { intros entries Hl. unfold listServices in Hl.
    destruct (listed namespace c); [| discriminate Hl].
    split; [reflexivity |]. intros service port server Hservice Hport.
    destruct (flatMap_completion_inv _ _ _ _ Hl Hservice) as [ys Hys].
    destruct (map_completion_inv _ _ _ _ Hys Hport) as [y Hy].
    destruct (service_entry_cases c service port) as [Hn | Ht]; [| congruence].
    by apply service_entry_normal. }
  split; [| split; [| split; [| split]]].
  - split.
    + intros [Hlisted Hc]. eexists. by apply listServices_answerable.
    + intros [entries Hl]. by eapply Hback.
  - intros entries Hl. destruct (Hback _ Hl) as [Hlisted Hc].
    rewrite (listServices_answerable namespace c Hlisted Hc) in Hl.
    by injection Hl.
  - intros e Hl. unfold listServices in Hl.
    destruct (listed namespace c); [| by injection Hl].
    revert Hl. generalize (list_cache namespace c). intros xs.
    induction xs as [| service xs IH]; cbn; [done |].
    destruct (map_completion _ (default [] _)) as [ys | e'] eqn:Hmap.
    + destruct (flatMap_completion _ xs); [done |]. intros [= ->]. by apply IH.
    + intros [= <-]. eapply map_completion_throws_only; [| exact Hmap].
      intros p e''. apply service_entry_throws.
  - reflexivity.
  - intros n Hn Hin. unfold listServices, listed.
    destruct n as [| a n]; [done |]. by rewrite bool_decide_eq_false_2.
Qed.

Lemma listServices_returns_iff_answerable_witness :
  (exists entries,
     listServices (Some "default") ClientSample.forwarding = Normal entries /\
     entries = [{| ServiceEntry.namespace := Some "default"; ServiceEntry.name := "web";
                   ServiceEntry.portName := Some "http"; ServiceEntry.port := Int 80;
                   ServiceEntry.listenPort := Some 40000%Z |}]) /\
  listServices (Some EmptyString) ClientSample.forwarding =
    listServices None ClientSample.forwarding /\
  listServices (Some "kube-system") ClientSample.forwarding = Throw TypeError.
Proof.
  destruct (listServices_returns_iff_answerable (Some "default") ClientSample.forwarding)
    as (Hiff & Hentries & _ & Hempty & _).
  destruct (listServices_returns_iff_answerable (Some "kube-system") ClientSample.forwarding)
    as (_ & _ & _ & _ & Hthrows).
  split; [| split; [exact Hempty |]].
  - destruct (proj1 Hiff) as [entries Hlist].
    + split; [reflexivity |].
      intros service port server [<- | []] [<- | []] Hserver.
      vm_compute in Hserver. injection Hserver as <-. by eexists.
    + exists entries. split; [exact Hlist |]. apply (Hentries entries Hlist).
  - apply Hthrows; [discriminate |].
    intros Hin%list_elem_of_In. destruct Hin as [Hin | []]. discriminate Hin.
Defined.


(** *** A forward that succeeds *)

(** The client once [createForwardingServer] has registered a new server
    for the triple and the server is listening on [local]. *)
Definition listening_on (namespace endpoint : string) (port : jsnum) (local : Z)
    (c : KubeClient) : KubeClient :=
  {| shutdown := shutdown c;
     servers := set (Some namespace) endpoint port (length (listeners c)) (servers c);
     listeners := listeners c ++ [Listening local];
     services := services c; indexed := indexed c; subscribed := subscribed c;
     notified := notified c |}.

Lemma create_listening namespace endpoint port local c :
  get (Some namespace) endpoint port (servers c) = None ->
  createForwardingServer namespace endpoint port (OnListening local) c =
    emit_services (listening_on namespace endpoint port local c).
Proof.
  intros Hget. unfold createForwardingServer, createForwardingServer_begin.
  rewrite Hget. cbn. unfold get, set.
  rewrite map_get_set, bool_decide_eq_true_2 by done.
  unfold with_listeners. cbn. by rewrite insert_new.
Qed.

Lemma registered_listening namespace endpoint port local c service p :
  Wf c ->
  registered (listening_on namespace endpoint port local c) service p ≫=
    (fun server => listeners (listening_on namespace endpoint port local c) !! server
                     ≫= address) =
  if bool_decide (key (V1.metadata service ≫= V1.namespace)
                    (default EmptyString (V1.metadata service ≫= V1.name))
                    (V1.targetPort p) = key (Some namespace) endpoint port)
  then Some local
  else registered c service p ≫= (fun server => listeners c !! server ≫= address).
Proof.
  intros Hc. unfold registered. cbn [servers listeners listening_on].
  unfold get, set. case_bool_decide as Hk.
  - rewrite Hk, map_get_set. cbn.
    rewrite lookup_app_r by lia. by rewrite Nat.sub_diag.
  - rewrite map_get_set_other by done.
    destruct (map_get _ (servers c)) as [server |] eqn:Hget; [| done].
    cbn. rewrite lookup_app_l; [done | by eapply Wf_get_made].
Qed.

Lemma answerable_listening namespace endpoint port local c :
  Wf c -> answerable None c ->
  answerable None (listening_on namespace endpoint port local c).
Proof.
  intros Hwf Hc service p server Hservice Hp Hreg.
  pose proof (registered_listening namespace endpoint port local c service p Hwf) as H.
  rewrite Hreg in H. cbn [mbind option_bind] in H. rewrite H.
  case_bool_decide; [by eexists |].
  destruct (registered c service p) as [old |] eqn:Hold.
  - cbn. by eapply Hc.
  - exfalso. revert Hreg Hold. unfold registered. cbn [servers listening_on].
    unfold get, set. rewrite map_get_set_other by done. congruence.
Qed.

(** X17.  A forward that succeeds is announced.  On a client with a
    subscriber, where [listServices] can answer: [forwardPort] for a
    triple that has no entry, whose listener binds to [local], returns
    [local], and delivers to ['service-changed'] one list, which is what
    [listServices] returns afterwards; in it every port of a listed
    service with the key of the triple has the [listenPort] [local], and
    every other port the entry it had before. *)
Theorem forward_is_announced
    (c : KubeClient) (namespace endpoint : string) (port : jsnum) (local : Z) :
  reachable c ->
  subscribed c = true ->
  answerable None c ->
  get (Some namespace) endpoint port (servers c) = None ->
  exists c' entries,
    forwardPort namespace endpoint port (OnListening local) c = (c', Normal (Some local)) /\
    getForwardedPort namespace endpoint port c' = Some local /\
    listServices None c' = Normal entries /\
    notified c' = notified c ++ [entries] /\
    forall service p,
      In service (services c) -> In p (ports_of service) ->
      In (entry c' service p) entries /\
      ServiceEntry.listenPort (entry c' service p) =
        if bool_decide (key (V1.metadata service ≫= V1.namespace)
                          (default EmptyString (V1.metadata service ≫= V1.name))
                          (V1.targetPort p) = key (Some namespace) endpoint port)
        then Some local
        else ServiceEntry.listenPort (entry c service p).
Proof.
  intros Hwf%reachable_Wf Hsub Hc Hget.
  pose proof (answerable_listening namespace endpoint port local c Hwf Hc) as Hc1.
  pose proof (listServices_answerable None _ eq_refl Hc1) as Hlist.
  set (c1 := listening_on namespace endpoint port local c) in *.
  set (entries := flat_map (fun service => map (entry c1 service) (ports_of service))
                    (list_cache None c1)) in *.
  assert (forall service p, entry (emit entries c1) service p = entry c1 service p)
    as Hentry by done.
  exists (emit entries c1), entries.
  assert (getForwardedPort namespace endpoint port (emit entries c1) = Some local) as Hport.
  { unfold getForwardedPort, get, set. cbn. unfold set. rewrite map_get_set. cbn.
    rewrite lookup_app_r by lia. by rewrite Nat.sub_diag. }
  split; [| split; [exact Hport |]; split; [| split]].
  - unfold forwardPort. rewrite (create_listening _ _ _ _ _ Hget).
    unfold emit_services. fold c1. rewrite Hlist.
    unfold forwardPort_finish. unfold getForwardedPort in Hport.
    destruct (get (Some namespace) endpoint port (servers (emit entries c1)))
      as [server |]; [| done].
    change (listeners (emit entries c1) !! server ≫= address = Some local) in Hport.
    by rewrite Hport.
  - exact Hlist.
  - cbn. by rewrite Hsub.
  - intros service p Hservice Hp. rewrite Hentry. split.
    + apply in_flat_map. exists service. split; [exact Hservice |].
      by apply in_map.
    + apply (registered_listening namespace endpoint port local c service p Hwf).
Qed.

Lemma forward_is_announced_witness :
  exists c' entries,
    forwardPort "default" "web" (Int 80) (OnListening 40000)
      (with_subscribed true ClientSample.fresh) = (c', Normal (Some 40000%Z)) /\
    getForwardedPort "default" "web" (Int 80) c' = Some 40000%Z /\
    listServices None c' = Normal entries /\
    notified c' = notified (with_subscribed true ClientSample.fresh) ++ [entries] /\
    forall service p,
      In service (services (with_subscribed true ClientSample.fresh)) ->
      In p (ports_of service) ->
      In (entry c' service p) entries /\
      ServiceEntry.listenPort (entry c' service p) =
        if bool_decide (key (V1.metadata service ≫= V1.namespace)
                          (default EmptyString (V1.metadata service ≫= V1.name))
                          (V1.targetPort p) = key (Some "default") "web" (Int 80))
        then Some 40000%Z
        else ServiceEntry.listenPort
               (entry (with_subscribed true ClientSample.fresh) service p).
Proof.
  apply (forward_is_announced (with_subscribed true ClientSample.fresh)
           "default" "web" (Int 80) 40000).
  - exists [ClientSample.web], [Subscribe]. reflexivity.
  - reflexivity.
  - intros service p server _ _ Hreg. discriminate Hreg.
  - reflexivity.
Defined.


(** *** A forward cancelled while it is set up *)

Lemma map_delete_set_absent k v (m : ForwardingMap.t) :
  map_get k m = None -> map_delete k (map_set k v m) = m.
Proof.
  induction m as [| [k0 v0] m IH]; csimpl.
  - by rewrite bool_decide_eq_true_2.
  - case_bool_decide as Hk; [done |]. intros Hget. csimpl.
    rewrite bool_decide_eq_false_2 by done. by rewrite IH.
Qed.

(** X18.  [cancelForwardPort] called for a triple while
    [createForwardingServer] waits for the listener of that triple:
    whatever event the listener then answers with, the table ends as it
    was before the forward was asked for, the new server ends closed, no
    older server has changed, and [forwardPort], where it comes to
    return, returns [undefined]. *)
Theorem cancelled_setup_ends_closed
    (c : KubeClient) (namespace endpoint : string) (port : jsnum) (ev : ListenEvent) :
  get (Some namespace) endpoint port (servers c) = None ->
  servers (run c [Begin namespace endpoint port; CancelBegin namespace endpoint port;
                  Heard (length (listeners c)) ev;
                  Resume namespace endpoint port (length (listeners c)) ev; Refresh]) =
    servers c /\
  listeners (run c [Begin namespace endpoint port; CancelBegin namespace endpoint port;
                    Heard (length (listeners c)) ev;
                    Resume namespace endpoint port (length (listeners c)) ev; Refresh]) =
    listeners c ++ [Closed] /\
  forwardPort_finish namespace endpoint port
    (run c [Begin namespace endpoint port; CancelBegin namespace endpoint port;
            Heard (length (listeners c)) ev;
            Resume namespace endpoint port (length (listeners c)) ev; Refresh]) =
    Normal None.
Proof.
  intros Hget.
  set (c1 := {| shutdown := shutdown c; servers := servers c;
                listeners := listeners c ++ [Closed]; services := services c;
                indexed := indexed c; subscribed := subscribed c;
                notified := notified c |}).
  assert (run c [Begin namespace endpoint port; CancelBegin namespace endpoint port] = c1)
    as Hcancelled.
  { cbn. unfold createForwardingServer_begin, cancelForwardPort_begin. rewrite Hget. cbn.
    unfold get, set, delete. rewrite map_get_set, map_delete_set_absent by done.
    unfold close, with_listeners. cbn. by rewrite insert_new. }
  assert (forall c2, servers c2 = servers c -> listeners c2 = listeners c ++ [Closed] ->
            servers (emit_services c2).1 = servers c /\
            listeners (emit_services c2).1 = listeners c ++ [Closed]) as Hemit.
  { intros c2 Hs Hl. destruct (emit_services_same c2) as (-> & -> & _). done. }
  assert (servers (run c1 [Heard (length (listeners c)) ev;
                           Resume namespace endpoint port (length (listeners c)) ev;
                           Refresh]) = servers c /\
          listeners (run c1 [Heard (length (listeners c)) ev;
                             Resume namespace endpoint port (length (listeners c)) ev;
                             Refresh]) = listeners c ++ [Closed]) as [Hs Hl].
  { pose proof Hget as Hget'. unfold get in Hget'.
    cbn [run foldl step]. apply Hemit.
    - destruct ev as [local | |]; cbn; [| done | done].
      rewrite Hget'. rewrite bool_decide_eq_false_2 by done.
      match goal with |- context [emit_services ?x] =>
        destruct (emit_services_same x) as (-> & _) end. done.
    - destruct ev as [local | |]; cbn; [| done | by rewrite insert_new].
      rewrite Hget'. rewrite bool_decide_eq_false_2 by done.
      match goal with |- context [emit_services ?x] =>
        destruct (emit_services_same x) as (_ & -> & _) end.
      cbn. by rewrite !insert_new. }
  change (run c [Begin namespace endpoint port; CancelBegin namespace endpoint port;
                 Heard (length (listeners c)) ev;
                 Resume namespace endpoint port (length (listeners c)) ev; Refresh])
    with (run (run c [Begin namespace endpoint port; CancelBegin namespace endpoint port])
            [Heard (length (listeners c)) ev;
             Resume namespace endpoint port (length (listeners c)) ev; Refresh]).
  rewrite Hcancelled.
  split; [exact Hs |]. split; [exact Hl |].
  unfold forwardPort_finish. by rewrite Hs, Hget.
Qed.

Lemma cancelled_setup_ends_closed_witness :
  servers (run ClientSample.fresh
             [Begin "default" "web" (Int 80); CancelBegin "default" "web" (Int 80);
              Heard (length (listeners ClientSample.fresh)) (OnListening 40000);
              Resume "default" "web" (Int 80) (length (listeners ClientSample.fresh))
                (OnListening 40000); Refresh]) =
    servers ClientSample.fresh /\
  listeners (run ClientSample.fresh
               [Begin "default" "web" (Int 80); CancelBegin "default" "web" (Int 80);
                Heard (length (listeners ClientSample.fresh)) (OnListening 40000);
                Resume "default" "web" (Int 80) (length (listeners ClientSample.fresh))
                  (OnListening 40000); Refresh]) =
    listeners ClientSample.fresh ++ [Closed] /\
  forwardPort_finish "default" "web" (Int 80)
    (run ClientSample.fresh
       [Begin "default" "web" (Int 80); CancelBegin "default" "web" (Int 80);
        Heard (length (listeners ClientSample.fresh)) (OnListening 40000);
        Resume "default" "web" (Int 80) (length (listeners ClientSample.fresh))
          (OnListening 40000); Refresh]) =
    Normal None.
Proof.
  apply (cancelled_setup_ends_closed ClientSample.fresh "default" "web" (Int 80)
           (OnListening 40000)).
  reflexivity.
Defined.

(** *** After [destroy] *)

Lemma destroy_loop_quiet entries : forall c,
  notified (destroy_loop entries c) = notified c /\
  subscribed (destroy_loop entries c) = subscribed c.
Proof.
  induction entries as [| [k server] entries IH]; intros c; [done |].
  cbn [destroy_loop]. destruct (map_has k (servers c)); [| apply IH].
  destruct (yield (k, server)) as [[[[ns ep] p] server'] |]; [| apply IH].
  by destruct (IH (close server' (with_servers (delete (Some ns) ep p (servers c)) c)))
    as [-> ->].
Qed.

Lemma emit_services_quiet c :
  subscribed c = false -> notified (emit_services c).1 = notified c.
Proof.
  intros Hsub. unfold emit_services. destruct (listServices None c); [| done].
  cbn. by rewrite Hsub.
Qed.

Lemma step_quiet c s :
  s <> Subscribe -> subscribed c = false ->
  notified (step c s) = notified c /\ subscribed (step c s) = false /\
  (shutdown c = true -> shutdown (step c s) = true).
Proof.
  intros Hs Hsub.
  destruct s as [ns ep p | server ev | ns ep p server ev | ns ep p | | sv | sv stale | |];
    cbn [step]; [| | | | | | done | done |].
  - unfold createForwardingServer_begin. by destruct (get _ _ _ (servers c)).
  - by destruct ev.
  - unfold createForwardingServer_resume. destruct ev; cbn; try done.
    match goal with |- context [emit_services ?x] =>
      pose proof (emit_services_quiet x) as Hq;
      destruct (emit_services_same x) as (_ & _ & Hsh & Hsb & _) end.
    rewrite Hsh, Hsb, Hq; by case_bool_decide.
  - unfold cancelForwardPort_begin. by destruct (get _ _ _ (servers c)).
  - destruct (emit_services_same c) as (_ & _ & -> & -> & _).
    by rewrite emit_services_quiet.
  - destruct (emit_services_same (with_services sv c)) as (_ & _ & -> & -> & _).
    by rewrite emit_services_quiet.
  - unfold destroy. cbn.
    destruct (destroy_loop_quiet (servers c) (with_shutdown true c)) as [-> _].
    by rewrite destroy_loop_shutdown.
Qed.

(** X19.  A destroyed client is silent: [destroy] takes the subscribers
    off, so whatever runs on the client afterwards, as long as nobody
    subscribes again, nothing more is delivered to ['service-changed'],
    and [shutdown] stays set. *)
Theorem destroyed_client_is_silent (c : KubeClient) (segments : list Segment) :
  Forall (fun s => s <> Subscribe) segments ->
  notified (run (destroy c) segments) = notified c /\
  subscribed (run (destroy c) segments) = false /\
  shutdown (run (destroy c) segments) = true.
Proof.
  intros Hsegments.
  assert (notified (destroy c) = notified c /\ subscribed (destroy c) = false /\
          shutdown (destroy c) = true) as (Hn & Hs & Hd).
  { unfold destroy. cbn.
    destruct (destroy_loop_quiet (servers c) (with_shutdown true c)) as [-> _].
    by rewrite destroy_loop_shutdown. }
  rewrite <- Hn. revert Hs Hd. generalize (destroy c). clear Hn.
  induction Hsegments as [| s segments Hs _ IH]; intros c0 Hsub Hshut; [done |].
  cbn [run foldl]. destruct (step_quiet c0 s Hs Hsub) as (Hn' & Hs' & Hd').
  rewrite <- Hn'. apply IH; [exact Hs' | by apply Hd'].
Qed.

Lemma destroyed_client_is_silent_witness :
  notified (run (destroy (with_subscribed true ClientSample.forwarding))
              [Watched [ClientSample.web]; Begin "default" "web" (Int 8080);
               Heard 1 (OnListening 40001);
               Resume "default" "web" (Int 8080) 1 (OnListening 40001)]) =
    notified (with_subscribed true ClientSample.forwarding) /\
  subscribed (run (destroy (with_subscribed true ClientSample.forwarding))
                [Watched [ClientSample.web]; Begin "default" "web" (Int 8080);
                 Heard 1 (OnListening 40001);
                 Resume "default" "web" (Int 8080) 1 (OnListening 40001)]) = false /\
  shutdown (run (destroy (with_subscribed true ClientSample.forwarding))
              [Watched [ClientSample.web]; Begin "default" "web" (Int 8080);
               Heard 1 (OnListening 40001);
               Resume "default" "web" (Int 8080) 1 (OnListening 40001)]) = true.
Proof.
  apply (destroyed_client_is_silent (with_subscribed true ClientSample.forwarding)).
  repeat constructor; discriminate.
Defined.

End ForwardingSpec.

(* ===================================================================== *)
(** ** The client module: finding a pod for a connection                  *)
(* ===================================================================== *)

Module Pods.
Import JS KubeClient.

(** The parts of a [k8s.V1EndpointsList] and of a [k8s.V1Pod] the code
    reads. *)
Record ObjectReference := {
  ref_name : option string;
  ref_namespace : option string;
}.

Record Address := { targetRef : option ObjectReference }.

Record Subset := { addresses : option (list Address) }.

Record Endpoints := { subsets : option (list Subset) }.

Record Pod := { pod_metadata : option V1.ObjectMeta }.

(** [xs.flatMap(f)] where [f] gives an array or [undefined]: the
    elements of an array are spliced in, [undefined] is kept as one
    element. *)
Definition flatMap_arrays {A B} (f : A -> option (list B)) (xs : list A) : list (option B) :=
  flat_map (fun x => match f x with Some ys => map Some ys | None => [None] end) xs.

(** [xs.filter(x => x)] on objects and [undefined]s. *)
Definition defined {A} (xs : list (option A)) : list A := omap id xs.

(** [xs.find(x => x)], which gives [undefined] when nothing is found. *)
Fixpoint find_defined {A} (xs : list (option A)) : option A :=
  match xs with
  | [] => None
  | Some x :: _ => Some x
  | None :: xs' => find_defined xs'
  end.

(** The chain that computes [target] from [endpoints?.body?.items]. *)
Definition find_target (items : option (list Endpoints)) : option ObjectReference :=
  match items with
  | None => None
  | Some items =>
      find_defined
        (map targetRef (defined (flatMap_arrays addresses (defined (flatMap_arrays subsets items)))))
  end.

(** A string in a condition. *)
Definition truthy (s : option string) : option string :=
  match s with
  | Some (String _ _ as v) => Some v
  | Some EmptyString | None => None
  end.

(** One turn of the loop, as the environment decides it: what
    [listNamespacedEndpoints] answers, or that it rejects, and whether
    [destroy()] runs while the answer, and then the timer, is awaited. *)
Inductive Answer :=
| ListFails
| Lists (items : option (list Endpoints)).

Record Round := {
  answer : Answer;
  destroyed_meanwhile : bool;
  destroyed_asleep : bool;
}.

Inductive Outcome :=
| ReturnsNull
    (** [return null] *)
| Reads (name namespace : string)
    (** it awaits [readNamespacedPod(name, namespace)], to return the
        pod of the answer or reject with its error *)
| Rejects
    (** [listNamespacedEndpoints] has rejected *)
| Polling
    (** the loop goes on *).

(** The code after the loop. *)
Definition after_loop (target : option ObjectReference) : Outcome :=
  match target with
  | None => ReturnsNull
  | Some ref =>
      match truthy (ref_name ref), truthy (ref_namespace ref) with
      | Some name, Some namespace => Reads name namespace
      | _, _ => ReturnsNull
      end
  end.

(** [getActivePod], from the value of [this.shutdown] when it is called:
    the number of calls of [listNamespacedEndpoints] it has made, and how
    it ends. *)
Fixpoint getActivePod (shutdown : bool) (rounds : list Round) : nat * Outcome :=
  if shutdown then (0, after_loop None)
  else
    match rounds with
    | [] => (0, Polling)
    | r :: rest =>
        match answer r with
        | ListFails => (1, Rejects)
        | Lists items =>
            let target := find_target items in
            let shutdown := destroyed_meanwhile r in
            if bool_decide (is_Some target) || shutdown then (1, after_loop target)
            else
              let '(n, outcome) := getActivePod (destroyed_asleep r) rest in
              (S n, outcome)
        end
    end.

(** What becomes of a connection. *)
Inductive Connection :=
| SocketDestroyed
    (** [socket.destroy(new Error(...))] *)
| HandlerThrows (message : string)
| Forwards (namespace name : string) (port : jsnum)
    (** [this.forwarder.portForward(namespace, name, [port], ...)] *).

(** [`${ namespace }/${ endpoint }:${ port }`]. *)
Definition targetName (namespace endpoint : string) (port : jsnum) : string :=
  namespace +:+ "/" +:+ endpoint +:+ ":" +:+ num_to_string port.

(** The connection listener given to [net.createServer], from the pod
    that [getActivePod] has returned. *)
Definition on_pod (namespace endpoint : string) (port : jsnum) (pod : option Pod)
    (c : KubeClient) : Connection :=
  match pod with
  | None => SocketDestroyed
  | Some pod =>
      if negb (ForwardingMap.has (Some namespace) endpoint port (servers c))
      then SocketDestroyed
      else
        match pod_metadata pod with
        | None =>
            HandlerThrows
              ("Active " +:+ targetName namespace endpoint port +:+ " pod has no metadata")
        | Some metadata =>
            match truthy (V1.name metadata) with
            | None =>
                HandlerThrows
                  ("Active " +:+ targetName namespace endpoint port +:+ " pod has no name")
            | Some podName =>
                Forwards
                  (default "default" (truthy (V1.namespace metadata))) podName port
            end
        end
  end.

End Pods.

Module PodSpec.
Import JS ForwardingMap KubeClient TableSpec ClientRun ForwardingSpec Pods.

(** A turn of the loop after which it goes on: an answer without a
    target, and no [destroy()]. *)
Definition quiet (r : Round) : Prop :=
  exists items,
    answer r = Lists items /\ find_target items = None /\
    destroyed_meanwhile r = false /\ destroyed_asleep r = false.

(** A turn of the loop that ends it. *)
Definition decisive (r : Round) : Prop :=
  match answer r with
  | ListFails => True
  | Lists items =>
      is_Some (find_target items) \/ destroyed_meanwhile r = true \/
      destroyed_asleep r = true
  end.

Definition decided (r : Round) : Outcome :=
  match answer r with
  | ListFails => Rejects
  | Lists items => after_loop (find_target items)
  end.

(** The target references of an answer, in its order. *)
Definition references (items : list Endpoints) : list ObjectReference :=
  item ← items; subset ← default [] (subsets item);
  address ← default [] (addresses subset); option_list (targetRef address).

Lemma defined_flatMap_arrays {A B} (f : A -> option (list B)) (xs : list A) :
  defined (flatMap_arrays f xs) = x ← xs; default [] (f x).
Proof.
  unfold defined, flatMap_arrays. induction xs as [| x xs IH]; [done |].
  cbn [flat_map]. rewrite omap_app, IH. csimpl. f_equal.
  destruct (f x) as [ys |]; [| done]. cbn.
  induction ys as [| y ys IHy]; [done |]. csimpl. by rewrite IHy.
Qed.

Lemma find_defined_head {A} (xs : list (option A)) :
  find_defined xs = head (omap id xs).
Proof. induction xs as [| [x |] xs IH]; done. Qed.

Lemma references_addresses (adds : list Address) :
  omap id (map targetRef adds) = address ← adds; option_list (targetRef address).
Proof.
  induction adds as [| a adds IH]; csimpl; [done |].
  rewrite IH. by destruct (targetRef a).
Qed.

Lemma references_subsets (ss : list Subset) :
  omap id (map targetRef (subset ← ss; default [] (addresses subset))) =
  subset ← ss; address ← default [] (addresses subset); option_list (targetRef address).
Proof.
  induction ss as [| s ss IH]; csimpl; [done |].
  by rewrite map_app, omap_app, IH, references_addresses.
Qed.

Lemma find_target_first items : find_target (Some items) = head (references items).
Proof.
  unfold find_target, references. rewrite !defined_flatMap_arrays, find_defined_head.
  f_equal. induction items as [| item items IH]; csimpl; [done |].
  by rewrite bind_app, map_app, omap_app, IH, references_subsets.
Qed.

Lemma getActivePod_quiet rounds rest :
  Forall quiet rounds ->
  getActivePod false (rounds ++ rest) =
    ((length rounds + (getActivePod false rest).1)%nat, (getActivePod false rest).2).
Proof.
  induction 1 as [| r rounds (items & Hanswer & Htarget & Hmean & Hsleep) _ IH].
  - cbn [app length]. by destruct (getActivePod false rest).
  - cbn [app length getActivePod]. rewrite Hanswer, Htarget, Hmean, Hsleep, IH.
    cbn. done.
Qed.

(** X20.  [getActivePod] returns [null] at once on a client that is
    destroyed already.  Otherwise it asks for the endpoints again and
    again for as long as the answers hold no target and the client is
    not destroyed, and does not give up by itself.  The first answer
    that changes this decides: if the request fails, the call rejects;
    if the answer holds a target, the first of its references in the
    order of the answer is taken, and the pod it names is read if the
    reference has a name and a namespace (even if the client has been
    destroyed meanwhile), else [null] is returned; and if the client has
    been destroyed with no target found, [null] is returned. *)
Theorem getActivePod_polls_until_decided (rounds : list Round) (r : Round) (rest : list Round) :
  Forall quiet rounds ->
  decisive r ->
  getActivePod true (rounds ++ r :: rest) = (0, ReturnsNull) /\
  getActivePod false rounds = (length rounds, Polling) /\
  getActivePod false (rounds ++ r :: rest) = (S (length rounds), decided r) /\
  (forall name namespace,
     decided r = Reads name namespace ->
     exists items reference,
       answer r = Lists (Some items) /\
       head (references items) = Some reference /\
       ref_name reference = Some name /\ ref_namespace reference = Some namespace /\
       name <> EmptyString /\ namespace <> EmptyString).
Proof.
  intros Hrounds Hr.
  split; [by destruct (rounds ++ r :: rest) |].
  split; [| split].
  - rewrite <- (app_nil_r rounds) at 1. rewrite (getActivePod_quiet _ _ Hrounds).
    cbn. by rewrite Nat.add_0_r.
  - rewrite (getActivePod_quiet _ _ Hrounds). unfold decisive, decided in *.
    cbn [getActivePod]. destruct (answer r) as [| items].
    + cbn. by rewrite Nat.add_1_r.
    + destruct (find_target items) as [reference |] eqn:Htarget.
      * rewrite bool_decide_eq_true_2 by (by eexists). cbn. by rewrite Nat.add_1_r.
      * rewrite bool_decide_eq_false_2 by (by intros [? ?]). cbn [orb].
        destruct (destroyed_meanwhile r); [cbn; by rewrite Nat.add_1_r |].
        destruct Hr as [[? ?] | [? | Hsleep]]; [done | done |].
        rewrite Hsleep. destruct rest; cbn; by rewrite Nat.add_1_r.
  - intros name namespace. unfold decided.
    destruct (answer r) as [| [items |]] eqn:Hanswer; [done | | done].
    rewrite find_target_first. unfold after_loop.
    destruct (head (references items)) as [reference |] eqn:Hhead; [| done].
    destruct (ref_name reference) as [[| c n] |] eqn:Hname; cbn; try done.
    destruct (ref_namespace reference) as [[| c' n'] |] eqn:Hns; cbn; try done.
    intros [= <- <-]. by exists items, reference.
Qed.

Lemma getActivePod_polls_until_decided_witness :
  getActivePod true
    ([{| answer := Lists None; destroyed_meanwhile := false; destroyed_asleep := false |}]
       ++ {| answer :=
               Lists (Some [ {| subsets := None |};
                             {| subsets := Some
                                  [ {| addresses := None |};
                                    {| addresses := Some
                                         [ {| targetRef := None |};
                                           {| targetRef := Some
                                                {| ref_name := Some "web-0";
                                                   ref_namespace := Some "default" |} |} ]
                                    |} ] |} ]);
             destroyed_meanwhile := true; destroyed_asleep := false |} :: []) =
    (0, ReturnsNull) /\
  getActivePod false
    [{| answer := Lists None; destroyed_meanwhile := false; destroyed_asleep := false |}] =
    (1, Polling) /\
  getActivePod false
    ([{| answer := Lists None; destroyed_meanwhile := false; destroyed_asleep := false |}]
       ++ {| answer :=
               Lists (Some [ {| subsets := None |};
                             {| subsets := Some
                                  [ {| addresses := None |};
                                    {| addresses := Some
                                         [ {| targetRef := None |};
                                           {| targetRef := Some
                                                {| ref_name := Some "web-0";
                                                   ref_namespace := Some "default" |} |} ]
                                    |} ] |} ]);
             destroyed_meanwhile := true; destroyed_asleep := false |} :: []) =
    (2, Reads "web-0" "default").
Proof.
  destruct (getActivePod_polls_until_decided
              [{| answer := Lists None; destroyed_meanwhile := false;
                  destroyed_asleep := false |}]
              {| answer :=
                   Lists (Some [ {| subsets := None |};
                                 {| subsets := Some
                                      [ {| addresses := None |};
                                        {| addresses := Some
                                             [ {| targetRef := None |};
                                               {| targetRef := Some
                                                    {| ref_name := Some "web-0";
                                                       ref_namespace := Some "default" |} |} ]
                                        |} ] |} ]);
                 destroyed_meanwhile := true; destroyed_asleep := false |} [])
    as (Hdestroyed & Hpolling & Hdecided & _).
  - constructor; [| constructor]. exists None. repeat split; reflexivity.
  - left. eexists. reflexivity.
  - split; [exact Hdestroyed |]. split; [exact Hpolling | exact Hdecided].
Defined.

(** X21.  A connection is forwarded only while its triple has an entry
    in the table, and only to a pod with a name: it is then forwarded to
    the port of the triple, in the namespace of the pod, or [default] if
    the pod has none.  A connection that finds no pod is destroyed, and so
    is, on any client, one that finds its triple cancelled. *)
Theorem connection_needs_entry_and_pod
    (c : KubeClient) (namespace endpoint : string) (port : jsnum) (pod : option Pod) :
  (forall podNamespace podName port',
     on_pod namespace endpoint port pod c = Forwards podNamespace podName port' ->
     has (Some namespace) endpoint port (servers c) = true) /\
  (forall podNamespace podName port',
     on_pod namespace endpoint port pod c = Forwards podNamespace podName port' ->
     port' = port /\ podName <> EmptyString /\ podNamespace <> EmptyString /\
     exists p metadata,
       pod = Some p /\ pod_metadata p = Some metadata /\
       V1.name metadata = Some podName /\
       podNamespace = default "default" (truthy (V1.namespace metadata))) /\
  on_pod namespace endpoint port None c = SocketDestroyed /\
  (reachable c ->
   on_pod namespace endpoint port pod (cancelForwardPort namespace endpoint port c).1 =
     SocketDestroyed).
Proof.
  split; [| split; [| split]].
  - intros podNamespace podName port'. unfold on_pod.
    destruct pod as [p |]; [| done].
    by destruct (has (Some namespace) endpoint port (servers c)).
  - intros podNamespace podName port'. unfold on_pod.
    destruct pod as [p |]; [| done].
    destruct (has (Some namespace) endpoint port (servers c)); [| done]. cbn.
    destruct (pod_metadata p) as [metadata |] eqn:Hmeta; [| done].
    destruct (V1.name metadata) as [[| ch n] |] eqn:Hname; cbn; try done.
    intros [= <- <- <-].
    split; [done |]. split; [done |]. split.
    + by destruct (V1.namespace metadata) as [[| ch' n'] |].
    + by exists p, metadata.
  - done.
  - intros Hc. unfold on_pod. destruct pod as [p |]; [| done].
    pose proof (cancel_gone namespace endpoint port c (reachable_Wf c Hc)) as Hgone.
    unfold has, map_has. unfold get in Hgone. by rewrite Hgone.
Qed.

End PodSpec.

(* ===================================================================== *)
(** ** minikube.js: the calls passed on to the client                     *)
(* ===================================================================== *)

Module Services.
Import JS K8s Minikube.

Section Clients.
(** The [K8s.Client] objects, by their handle. *)
Variable clients : nat -> KubeClient.KubeClient.

(** [listServices(namespace = null)]: [undefined || []] without a client;
    with one, what the client returns, an array being true in a
    condition even if it is empty. *)
Definition listServices (namespace : option string) (m : Minikube)
    : Completion (list ServiceEntry.t) :=
  match client m with
  | None => Normal []
  | Some c => KubeClient.listServices namespace (clients c)
  end.

(** [forwardPort(namespace, service, port)]: the client it has worked
    on, as it has left it, and the result. *)
Definition forwardPort (namespace service : string) (port : jsnum)
    (ev : KubeClient.ListenEvent) (m : Minikube)
    : option (nat * KubeClient.KubeClient) * Completion (option Z) :=
  match client m with
  | None => (None, Normal None)
  | Some c =>
      let '(c', r) := KubeClient.forwardPort namespace service port ev (clients c) in
      (Some (c, c'), r)
  end.

(** [cancelForward(namespace, service, port)]. *)
Definition cancelForward (namespace service : string) (port : jsnum) (m : Minikube)
    : option (nat * KubeClient.KubeClient) * Completion unit :=
  match client m with
  | None => (None, Normal tt)
  | Some c =>
      let '(c', r) := KubeClient.cancelForwardPort namespace service port (clients c) in
      (Some (c, c'), r)
  end.

End Clients.

End Services.

Module ServicesSpec.
Import JS K8s Minikube Controller MinikubeSpec.

(** X22.  While the state is [STOPPED], [STOPPING] or [ERROR], in every
    state the controller can be in and whatever clients exist:
    [listServices] returns the empty list, [forwardPort] resolves with
    [undefined] and [cancelForward] resolves, and none of them touches a
    client. *)
Theorem torn_down_cluster_has_no_services
    (home : string) (cfg : Config.Settings) (s : System)
    (clients : nat -> KubeClient.KubeClient) (namespace : option string)
    (ns service : string) (port : jsnum) (ev : KubeClient.ListenEvent) :
  reachable home cfg s ->
  tears_down (internalState (mk s)) ->
  Services.listServices clients namespace (mk s) = Normal [] /\
  Services.forwardPort clients ns service port ev (mk s) = (None, Normal None) /\
  Services.cancelForward clients ns service port (mk s) = (None, Normal tt).
Proof.
  intros Hs Hstate.
  pose proof (inv_client s (reachable_Inv home cfg s Hs) Hstate) as Hclient.
  unfold Services.listServices, Services.forwardPort, Services.cancelForward.
  by rewrite Hclient.
Qed.

Lemma torn_down_cluster_has_no_services_witness :
  Services.listServices (fun _ => ClientSample.forwarding) None (mk (Sample.failed)) =
    Normal [] /\
  Services.forwardPort (fun _ => ClientSample.forwarding) "default" "web" (Int 80)
    (KubeClient.OnListening 40000) (mk (Sample.failed)) = (None, Normal None) /\
  Services.cancelForward (fun _ => ClientSample.forwarding) "default" "web" (Int 80)
    (mk (Sample.failed)) = (None, Normal tt).
Proof.
  apply (torn_down_cluster_has_no_services Sample.home Sample.cfg Sample.failed).
  - exists [CallStart; StderrData "boom"; ProcessExit (Some 1%Z) None]. reflexivity.
  - right; right; reflexivity.
Defined.

End ServicesSpec.

(* ===================================================================== *)
(** ** The script that builds hyperkit and fetches the helpers            *)
(* ===================================================================== *)

Module Build.
Import JS.

(** What the script asks of the system. *)
Inductive Call :=
| Access (path : string)
    (** [fs.promises.access(path, fs.constants.X_OK)] *)
| Mkdtemp (prefix : string)
    (** [fs.promises.mkdtemp(prefix)] *)
| Spawn (command : string) (args : list string)
    (** [childProcess.spawn(command, args, { stdio: 'inherit' })] *)
| Chmod (path : string)
    (** [fs.promises.chmod(path, 0o755)] *)
| Mkdir (path : string)
    (** [fs.promises.mkdir(path, { recursive: true })] *)
| Rename (from to : string)
    (** [fs.promises.rename(from, to)] *)
| Rm (path : string)
    (** [fs.promises.rm(path, { recursive: true })] *).

Inductive Error :=
| ExitedWithSignal (command signal : string)
    (** [new Error(`${ command } exited with signal ${ signal }`)] *)
| ExitedWithCode (command : string) (code : Z)
    (** [new Error(`${ command } exited with code ${ code }`)] *)
| ChildError
    (** what the ['error'] event of the child carries *)
| FsError (call : Call)
    (** what a call of [fs.promises] rejects with *).

Inductive Effect :=
| Called (c : Call)
| Logged (e : Error)   (** [console.error(e)] *)
| Exit (code : Z)      (** [process.exit(code)] *).

(** How a child process ends: the ['error'] event, or the ['exit'] event
    with its code and signal. *)
Inductive ChildEnd :=
| OnChildError
| OnExit (code : option Z) (signal : option string).

(** The handlers of [spawn]: the error the promise is rejected with, if
    it is. *)
Definition spawn_end (command : string) (e : ChildEnd) : option Error :=
  match e with
  | OnChildError => Some ChildError
  | OnExit code signal =>
      match signal with
      | Some (String _ _ as sig) =>
          if negb (String.eqb sig "SIGTERM") then Some (ExitedWithSignal command sig)
          else
            match code with
            | Some n => if (0 <? n)%Z then Some (ExitedWithCode command n) else None
            | None => None
            end
      | Some EmptyString | None =>
          match code with
          | Some n => if (0 <? n)%Z then Some (ExitedWithCode command n) else None
          | None => None
          end
      end
  end.

(** The system, as the script meets it: how the child of the [n]th call
    ends, whether the [n]th call succeeds if it is one of [fs.promises],
    and the directory it makes if it is [mkdtemp]. *)
Record World := {
  child : nat -> ChildEnd;
  fs_ok : nat -> bool;
  temp : nat -> string;
}.

(** The calls made so far, and what has been seen of the script. *)
Record St := {
  made : nat;
  trace : list Effect;
}.

Inductive Res (A : Type) :=
| Ok (a : A)
| Err (e : Error).
Arguments Ok {A} a.
Arguments Err {A} e.

(** An asynchronous function of the script: it runs against the system
    from a state, and resolves or rejects. *)
Definition M (A : Type) : Type := World -> St -> Res A * St.

Definition ret {A} (a : A) : M A := fun _ s => (Ok a, s).

Definition throw {A} (e : Error) : M A := fun _ s => (Err e, s).

Definition bind {A B} (m : M A) (f : A -> M B) : M B :=
  fun w s =>
    match m w s with
    | (Ok a, s') => f a w s'
    | (Err e, s') => (Err e, s')
    end.

Notation "x <- m ;; k" := (bind m (fun x => k))
  (at level 100, m at level 99, right associativity).
Notation "m ;;; k" := (bind m (fun _ => k))
  (at level 100, right associativity).

Definition log (e : Error) : M unit :=
  fun _ s => (Ok tt, {| made := made s; trace := trace s ++ [Logged e] |}).

Definition exit (code : Z) : M unit :=
  fun _ s => (Ok tt, {| made := made s; trace := trace s ++ [Exit code] |}).

(** A call of [fs.promises]. *)
Definition fs (c : Call) : M unit :=
  fun w s =>
    (if fs_ok w (made s) then Ok tt else Err (FsError c),
     {| made := S (made s); trace := trace s ++ [Called c] |}).

Definition mkdtemp (prefix : string) : M string :=
  fun w s =>
    (if fs_ok w (made s) then Ok (temp w (made s)) else Err (FsError (Mkdtemp prefix)),
     {| made := S (made s); trace := trace s ++ [Called (Mkdtemp prefix)] |}).

(** [spawn(command, ...args)], none of the arguments being an object. *)
Definition spawn (command : string) (args : list string) : M unit :=
  fun w s =>
    (match spawn_end command (child w (made s)) with
     | Some e => Err e
     | None => Ok tt
     end,
     {| made := S (made s); trace := trace s ++ [Called (Spawn command args)] |}).

(** [try { body } finally { cleanup }], for a cleanup that does not
    throw. *)
Definition finally {A} (body : M A) (cleanup : M unit) : M A :=
  fun w s =>
    match body w s with
    | (r, s') =>
        match cleanup w s' with
        | (Ok _, s'') => (r, s'')
        | (Err e, s'') => (Err e, s'')
        end
    end.

(** [try { body } catch (e) { handler(e) }]. *)
Definition catch {A} (body : M A) (handler : Error -> M A) : M A :=
  fun w s =>
    match body w s with
    | (Ok a, s') => (Ok a, s')
    | (Err e, s') => handler e w s'
    end.

Section Paths.
(** [path.resolve], [path.join], [path.dirname], [path.basename] with a
    suffix, [os.tmpdir()], [process.cwd()] and [os.platform()]. *)
Variable resolve : list string -> string.
Variable join : list string -> string.
Variable dirname : string -> string.
Variable basename : string -> string -> string.
Variables tmpdir cwd platform : string.

Definition ver : string := "v0.20210107".

Definition buildHyperkit (workPath : string) : M string :=
  spawn "git" ["clone"; "--depth"; "1"; "--branch"; ver;
               "https://github.com/moby/hyperkit.git"; workPath] ;;;
  spawn "make" ["-C"; workPath] ;;;
  fs (Chmod (resolve [workPath; "build"; "hyperkit"])) ;;;
  ret (resolve [workPath; "build"; "hyperkit"]).

Definition project : string := "docker-machine-driver-hyperkit".

Definition driver_url : string :=
  "https://github.com/rancher-sandbox/" +:+ project +:+ "/releases/download/" +:+
  "v2.0.0-alpha.3" +:+ "/" +:+ project.

Definition buildDockerMachineDriver (workPath : string) : M string :=
  spawn "curl" ["-Lo"; join [workPath; project]; driver_url] ;;;
  spawn "sudo" ["--prompt=Sudo privileges required to set docker-machine driver suid:";
                "/bin/sh"; "-xc";
                "chown root:wheel '" +:+ join [workPath; project] +:+
                "' && chmod u+s,a+x '" +:+ join [workPath; project] +:+ "'"] ;;;
  ret (join [workPath; project]).

Definition getScriptFn (url : string) (workPath : string) : M string :=
  spawn "curl" ["-Lo"; join [workPath; "script"]; url] ;;;
  fs (Chmod (join [workPath; "script"])) ;;;
  ret (join [workPath; "script"]).

(** The prefix of the work directory of a destination. *)
Definition tmpDirPrefix (destPath : string) : string :=
  join [tmpdir; basename destPath ".exe" +:+ "-"].

(** The [finally] block of [buildIfNotAccess]. *)
Definition remove_workDir (workDir : string) : M unit :=
  catch (fs (Rm workDir)) (fun err => log err).

(** [buildIfNotAccess(destPath, fn)]. *)
Definition buildIfNotAccess (destPath : string) (fn : string -> M string) : M unit :=
  accessible <- catch (fs (Access destPath) ;;; ret true) (fun _ => ret false) ;;
  if (accessible : bool) then ret tt
  else
    workDir <- mkdtemp (tmpDirPrefix destPath) ;;
    finally
      (outPath <- fn workDir ;;
       fs (Mkdir (dirname destPath)) ;;;
       fs (Rename outPath destPath))
      (remove_workDir workDir).

(** The four things [run] builds, in its order. *)
Definition artifacts : list (string * (string -> M string)) :=
  [ (resolve [cwd; "resources"; platform; "hyperkit"], buildHyperkit);
    (resolve [cwd; "resources"; platform; "docker-machine-driver-hyperkit"],
     buildDockerMachineDriver);
    (resolve [cwd; "resources"; platform; "run-k3s"],
     getScriptFn "https://github.com/jandubois/tinyk3s/raw/v0.1/run-k3s");
    (resolve [cwd; "resources"; platform; "kubeconfig"],
     getScriptFn "https://github.com/jandubois/tinyk3s/raw/v0.1/kubeconfig") ].

(** Awaiting one after the other. *)
Fixpoint build_all (todo : list (string * (string -> M string))) : M unit :=
  match todo with
  | [] => ret tt
  | (destPath, fn) :: rest => buildIfNotAccess destPath fn ;;; build_all rest
  end.

(** [run()]. *)
Definition run : M unit := build_all artifacts.

(** [run().catch((e) => { console.error(e); process.exit(1); })]. *)
Definition main : M unit := catch run (fun e => log e ;;; exit 1).

End Paths.

End Build.

Module BuildSpec.
Import JS Build.

Section Paths.
Variable resolve : list string -> string.
Variable join : list string -> string.
Variable dirname : string -> string.
Variable basename : string -> string -> string.
Variables tmpdir cwd platform : string.

Local Abbreviation buildIfNotAccess := (Build.buildIfNotAccess join dirname basename tmpdir).
Local Abbreviation tmpDirPrefix := (Build.tmpDirPrefix join basename tmpdir).
Local Abbreviation artifacts := (Build.artifacts resolve join cwd platform).
Local Abbreviation build_all := (Build.build_all join dirname basename tmpdir).
Local Abbreviation main := (Build.main resolve join dirname basename tmpdir cwd platform).

(** The state after one more call. *)
Definition called (c : Call) (s : St) : St :=
  {| made := S (made s); trace := trace s ++ [Called c] |}.

(** What the [finally] block adds to the trace. *)
Definition cleanup (w : World) (workDir : string) (s : St) : list Effect :=
  Called (Rm workDir) ::
  (if fs_ok w (made s) then [] else [Logged (FsError (Rm workDir))]).

Lemma remove_workDir_run w workDir s :
  exists s',
    remove_workDir workDir w s = (Ok tt, s') /\
    trace s' = trace s ++ cleanup w workDir s /\
    made s' = S (made s).
Proof.
  unfold remove_workDir, catch, fs, log, cleanup.
  destruct (fs_ok w (made s)); eexists; (split; [reflexivity |]); cbn;
    by rewrite <- ?app_assoc.
Qed.

(** X23.  [buildIfNotAccess] does nothing but look when the destination
    can be executed.  Otherwise it makes a work directory, and if that
    fails it rejects and nothing else is called.  Once the work directory
    is made, its removal is the last thing called whether the build has
    gone well or not, and a failure to remove it is logged and changes
    nothing of the result: when the builder rejects, neither [mkdir] nor
    [rename] is called and the call rejects with the error of the
    builder; when it resolves, the directory of the destination is made
    and what the builder has returned is renamed to the destination, the
    call rejecting with the error of the first of the two that fails. *)
Theorem buildIfNotAccess_cleans_up
    (destPath : string) (fn : string -> M string) (w : World) (s s3 : St)
    (built : Res string) :
  fn (temp w (S (made s))) w (called (Mkdtemp (tmpDirPrefix destPath))
                                (called (Access destPath) s)) = (built, s3) ->
  (fs_ok w (made s) = true ->
   buildIfNotAccess destPath fn w s = (Ok tt, called (Access destPath) s)) /\
  (fs_ok w (made s) = false -> fs_ok w (S (made s)) = false ->
   buildIfNotAccess destPath fn w s =
     (Err (FsError (Mkdtemp (tmpDirPrefix destPath))),
      called (Mkdtemp (tmpDirPrefix destPath)) (called (Access destPath) s))) /\
  (fs_ok w (made s) = false -> fs_ok w (S (made s)) = true ->
   match built with
   | Err e =>
       (buildIfNotAccess destPath fn w s).1 = Err e /\
       trace (buildIfNotAccess destPath fn w s).2 =
         trace s3 ++ cleanup w (temp w (S (made s))) s3
   | Ok outPath =>
       if fs_ok w (made s3) then
         (buildIfNotAccess destPath fn w s).1 =
           (if fs_ok w (S (made s3)) then Ok tt
            else Err (FsError (Rename outPath destPath))) /\
         trace (buildIfNotAccess destPath fn w s).2 =
           trace s3 ++ [Called (Mkdir (dirname destPath));
                        Called (Rename outPath destPath)] ++
           cleanup w (temp w (S (made s))) (called (Rename outPath destPath)
                                              (called (Mkdir (dirname destPath)) s3))
       else
         (buildIfNotAccess destPath fn w s).1 = Err (FsError (Mkdir (dirname destPath))) /\
         trace (buildIfNotAccess destPath fn w s).2 =
           trace s3 ++ [Called (Mkdir (dirname destPath))] ++
           cleanup w (temp w (S (made s))) (called (Mkdir (dirname destPath)) s3)
   end).
Proof.
  intros Hfn.
  unfold Build.buildIfNotAccess, bind, catch, ret, fs, mkdtemp, finally.
  cbn [made trace].
  split; [by intros -> |].
  split; [intros Haccess Htemp; rewrite Haccess; cbn [made trace]; by rewrite Htemp |].
  intros Haccess Htemp. rewrite Haccess. cbn [made trace]. rewrite Htemp.
  unfold called in Hfn. cbn [made trace] in Hfn.
  rewrite Hfn. destruct built as [outPath | e].
  - destruct (fs_ok w (made s3)) eqn:Hmkdir.
    + match goal with |- context [remove_workDir ?d w ?x] =>
        destruct (remove_workDir_run w d x) as (s' & -> & Htrace & _) end.
      cbn [fst snd]. split; [done |]. rewrite Htrace. cbn. by rewrite <- !app_assoc.
    + match goal with |- context [remove_workDir ?d w ?x] =>
        destruct (remove_workDir_run w d x) as (s' & -> & Htrace & _) end.
      cbn [fst snd]. split; [done |]. rewrite Htrace. cbn. by rewrite <- !app_assoc.
  - match goal with |- context [remove_workDir ?d w ?x] =>
      destruct (remove_workDir_run w d x) as (s' & -> & Htrace & _) end.
    cbn [fst snd]. split; [done |]. by rewrite Htrace.
Qed.

End Paths.


Section Run.
Variable resolve : list string -> string.
Variable join : list string -> string.
Variable dirname : string -> string.
Variable basename : string -> string -> string.
Variables tmpdir cwd platform : string.

Local Abbreviation buildIfNotAccess := (Build.buildIfNotAccess join dirname basename tmpdir).
Local Abbreviation artifacts := (Build.artifacts resolve join cwd platform).
Local Abbreviation build_all := (Build.build_all join dirname basename tmpdir).
Local Abbreviation main := (Build.main resolve join dirname basename tmpdir cwd platform).

Lemma build_accessible destPath fn w s :
  fs_ok w (made s) = true ->
  buildIfNotAccess destPath fn w s = (Ok tt, called (Access destPath) s).
Proof.
  intros Haccess. unfold Build.buildIfNotAccess, bind, catch, ret, fs.
  by rewrite Haccess.
Qed.

Lemma build_all_accessible todo : forall w s,
  (forall n, n < length todo -> fs_ok w (made s + n) = true) ->
  build_all todo w s =
    (Ok tt, {| made := made s + length todo;
               trace := trace s ++ map (fun a => Called (Access a.1)) todo |}).
Proof.
  induction todo as [| [destPath fn] todo IH]; intros w s Hok.
  - cbn. rewrite Nat.add_0_r, app_nil_r. by destruct s.
  - cbn [Build.build_all]. unfold bind at 1.
    rewrite build_accessible by (rewrite <- (Nat.add_0_r (made s)); apply Hok; cbn; lia).
    rewrite IH.
    + cbn. rewrite <- app_assoc. do 2 f_equal. lia.
    + intros n Hn. cbn [made called]. replace (S (made s) + n) with (made s + S n) by lia.
      apply Hok. cbn. lia.
Qed.

Lemma build_all_fails done : forall destPath fn rest w s s1 s2 e,
  build_all done w s = (Ok tt, s1) ->
  buildIfNotAccess destPath fn w s1 = (Err e, s2) ->
  build_all (done ++ (destPath, fn) :: rest) w s = (Err e, s2).
Proof.
  induction done as [| [d f] done IH]; intros destPath fn rest w s s1 s2 e Hdone Hfails.
  - cbn in Hdone. injection Hdone as <-. cbn [app Build.build_all]. unfold bind at 1.
    by rewrite Hfails.
  - cbn [app Build.build_all] in *. unfold bind at 1 in Hdone. unfold bind at 1.
    destruct (buildIfNotAccess d f w s) as [[[] | e'] s'] eqn:Hfirst; [| done].
    by eapply IH.
Qed.

(** X24.  The script builds its four artifacts one after the other.  When
    all four destinations can be executed already, it looks at each and
    calls nothing else.  When one of them fails, the script logs the
    error and exits with the code 1, and nothing is called for the
    artifacts after it. *)
Theorem main_stops_at_first_failure (w : World) (s : St) :
  ((forall n, n < 4 -> fs_ok w (made s + n) = true) ->
   main w s =
     (Ok tt, {| made := made s + 4;
                trace := trace s ++ map (fun a => Called (Access a.1)) artifacts |})) /\
  (forall done destPath fn rest s1 s2 e,
     artifacts = done ++ (destPath, fn) :: rest ->
     build_all done w s = (Ok tt, s1) ->
     buildIfNotAccess destPath fn w s1 = (Err e, s2) ->
     main w s = (Ok tt, {| made := made s2; trace := trace s2 ++ [Logged e; Exit 1] |})).
Proof.
  split.
  - intros Hok. unfold Build.main, catch, Build.run.
    by rewrite (build_all_accessible artifacts w s Hok).
  - intros done destPath fn rest s1 s2 e Hartifacts Hdone Hfails.
    unfold Build.main, catch, Build.run. rewrite Hartifacts.
    rewrite (build_all_fails done destPath fn rest w s s1 s2 e Hdone Hfails).
    unfold bind, log, exit. cbn. by rewrite <- app_assoc.
Qed.

End Run.


(** *** A run on an empty tree *)

Definition slash (parts : list string) : string := String.concat "/" parts.

(** Nothing can be executed yet; the other calls of [fs.promises]
    succeed; [git] ends well and [make], the fourth call, exits with the
    code 2. *)
Definition empty_tree : World :=
  {| child := fun n => if (n =? 3)%nat then OnExit (Some 2%Z) None
                       else OnExit (Some 0%Z) None;
     fs_ok := fun n => negb (n =? 0)%nat;
     temp := fun _ => "/tmp/hyperkit-Ab12" |}.

Definition nothing_yet : St := {| made := 0; trace := [] |}.

Lemma buildIfNotAccess_cleans_up_witness :
  (Build.buildIfNotAccess slash (fun _ => "/repo/resources/darwin") (fun _ _ => "hyperkit")
     "/tmp" "/repo/resources/darwin/hyperkit" (buildHyperkit slash)
     empty_tree nothing_yet).1 = Err (ExitedWithCode "make" 2) /\
  trace (Build.buildIfNotAccess slash (fun _ => "/repo/resources/darwin")
           (fun _ _ => "hyperkit") "/tmp" "/repo/resources/darwin/hyperkit"
           (buildHyperkit slash) empty_tree nothing_yet).2 =
    [Called (Access "/repo/resources/darwin/hyperkit");
     Called (Mkdtemp "/tmp/hyperkit-");
     Called (Spawn "git" ["clone"; "--depth"; "1"; "--branch"; "v0.20210107";
                          "https://github.com/moby/hyperkit.git"; "/tmp/hyperkit-Ab12"]);
     Called (Spawn "make" ["-C"; "/tmp/hyperkit-Ab12"]);
     Called (Rm "/tmp/hyperkit-Ab12")].
Proof.
  assert (buildHyperkit slash (temp empty_tree (S (made nothing_yet))) empty_tree
            (called (Mkdtemp (Build.tmpDirPrefix slash (fun _ _ => "hyperkit") "/tmp"
                                "/repo/resources/darwin/hyperkit"))
               (called (Access "/repo/resources/darwin/hyperkit") nothing_yet)) =
          (Err (ExitedWithCode "make" 2),
           {| made := 4;
              trace :=
                [Called (Access "/repo/resources/darwin/hyperkit");
                 Called (Mkdtemp "/tmp/hyperkit-");
                 Called (Spawn "git" ["clone"; "--depth"; "1"; "--branch"; "v0.20210107";
                                      "https://github.com/moby/hyperkit.git";
                                      "/tmp/hyperkit-Ab12"]);
                 Called (Spawn "make" ["-C"; "/tmp/hyperkit-Ab12"])] |})) as Hfn
    by reflexivity.
  destruct (buildIfNotAccess_cleans_up slash (fun _ => "/repo/resources/darwin")
              (fun _ _ => "hyperkit") "/tmp" "/repo/resources/darwin/hyperkit"
              (buildHyperkit slash) empty_tree nothing_yet _ _ Hfn) as (_ & _ & H).
  exact (H eq_refl eq_refl).
Defined.

End BuildSpec.
